(** * LemurAI backend: meeting recording and retrieval-augmented generation

    A shallow embedding of the core of [backend_clean/app/core]:
    - [recall_service.py]       (module [RecallService])
    - [file_processor.py]       (module [FileProcessor])
    - [vector_store.py]         (module [VectorStore])
    - [ai_service.py] and [meeting_intelligence.py]
                                (module [MeetingIntelligence])

    Python values that come out of [response.json()] are modelled by the
    type [Py.json]; Python exceptions by the monad [Py.exn]; the mutable
    objects ([RecallAIBot], the session registry, the tables of the external
    store) by explicit state passing; the external services (the recording
    provider, the completion provider, the store) by functions given as
    parameters. *)

From stdpp Require Import base option list gmap strings pretty sorting.
From Stdlib Require Import ZArith Lia Ascii String.

Local Open Scope string_scope.
Local Open Scope Z_scope.

(** ** Python values and exceptions *)

Module Py.

(** What [json.loads] produces.  Numbers are kept as integers; the code
    under study never computes with them. *)
#[warnings="-register-all"]
Inductive json : Type :=
| JNull
| JBool (b : bool)
| JNum (n : Z)
| JStr (s : string)
| JList (l : list json)
| JDict (d : list (string * json)).

(** A computation that returns a value or raises. *)
Inductive exn (A : Type) : Type :=
| Ok (a : A)
| Raise.
Arguments Ok {A} a.
Arguments Raise {A}.

#[global] Instance exn_ret : MRet exn := fun A a => Ok a.
#[global] Instance exn_bind : MBind exn := fun A B f m =>
  match m with
  | Ok a => f a
  | Raise => Raise
  end.

(** [bool(x)] *)
Definition truthy (j : json) : bool :=
  match j with
  | JNull => false
  | JBool b => b
  | JNum n => negb (n =? 0)
  | JStr s => negb (String.eqb s "")
  | JList l => match l with [] => false | _ => true end
  | JDict d => match d with [] => false | _ => true end
  end.

(** [a or b] *)
Definition py_or (a b : json) : json := if truthy a then a else b.

(** Lookup in a dict object: the first binding of the key. *)
Fixpoint dict_lookup (d : list (string * json)) (k : string) : option json :=
  match d with
  | [] => None
  | (k', v) :: d' => if String.eqb k' k then Some v else dict_lookup d' k
  end.

(** [x.get(k, dflt)]: [AttributeError] unless [x] is a dict. *)
Definition py_get (x : json) (k : string) (dflt : json) : exn json :=
  match x with
  | JDict d => Ok (default dflt (dict_lookup d k))
  | _ => Raise
  end.

(** [x.get(k)] *)
Definition py_get_none (x : json) (k : string) : exn json := py_get x k JNull.

(** [k in s] for two strings: substring test. *)
Fixpoint substringb (k s : string) : bool :=
  String.prefix k s ||
  match s with
  | EmptyString => false
  | String _ s' => substringb k s'
  end.

Definition is_str (k : string) (j : json) : bool :=
  match j with
  | JStr s => String.eqb s k
  | _ => false
  end.

(** [k in x] for a string [k]: key of a dict, element of a list, substring
    of a string; [TypeError] on the other values. *)
Definition py_contains (k : string) (x : json) : exn bool :=
  match x with
  | JDict d => Ok (bool_decide (is_Some (dict_lookup d k)))
  | JList l => Ok (existsb (is_str k) l)
  | JStr s => Ok (substringb k s)
  | _ => Raise
  end.

(** [x[k]] for a string [k]: [KeyError] or [TypeError] unless [x] is a dict
    that has the key. *)
Definition py_item (x : json) (k : string) : exn json :=
  match x with
  | JDict d => match dict_lookup d k with Some v => Ok v | None => Raise end
  | _ => Raise
  end.

Definition last_char (s : string) : option string :=
  match last (list_ascii_of_string s) with
  | Some c => Some (String c EmptyString)
  | None => None
  end.

(** [x[-1]]: the last element of a list, the last character of a string;
    [IndexError], [KeyError] or [TypeError] otherwise (no dict that comes
    from JSON has the key [-1]). *)
Definition py_last (x : json) : exn json :=
  match x with
  | JList l => match last l with Some e => Ok e | None => Raise end
  | JStr s => match last_char s with Some c => Ok (JStr c) | None => Raise end
  | _ => Raise
  end.

(** [x[0]] *)
Definition py_first (x : json) : exn json :=
  match x with
  | JList l => match l with e :: _ => Ok e | [] => Raise end
  | JStr s => match s with String c _ => Ok (JStr (String c EmptyString)) | EmptyString => Raise end
  | _ => Raise
  end.

(** The items [for r in x] visits: elements of a list, characters of a
    string, keys of a dict; [TypeError] on the other values. *)
Definition py_iter (x : json) : exn (list json) :=
  match x with
  | JList l => Ok l
  | JStr s => Ok ((fun c => JStr (String c EmptyString)) <$> list_ascii_of_string s)
  | JDict d => Ok ((fun kv => JStr kv.1) <$> d)
  | _ => Raise
  end.

(** [len(x)]: [TypeError] on [None], booleans and numbers. *)
Definition py_len (x : json) : exn Z :=
  match x with
  | JStr s => Ok (Z.of_nat (String.length s))
  | JList l => Ok (Z.of_nat (List.length l))
  | JDict d => Ok (Z.of_nat (List.length d))
  | _ => Raise
  end.

(** [isinstance(x, str)], [isinstance(x, dict)] *)
Definition is_string (x : json) : bool := match x with JStr _ => true | _ => false end.
Definition is_dict (x : json) : bool := match x with JDict _ => true | _ => false end.

(** [status in [s1, s2, ...]] for a list of string literals. *)
Definition str_in (x : json) (l : list string) : bool :=
  match x with
  | JStr s => existsb (String.eqb s) l
  | _ => false
  end.

(** The test [if not x] on an identifier that may be [None]: the identifier
    when it is a string that is not empty, [None] when the test fails. *)
Definition id_present (a : option string) : option string :=
  match a with
  | Some s => if String.eqb s "" then None else Some s
  | None => None
  end.

(** [bot_id = a or b] followed by [if not bot_id]: the first of the two
    that is a string that is not empty. *)
Definition id_or (a b : option string) : option string :=
  match id_present a with
  | Some s => Some s
  | None => id_present b
  end.

End Py.

Import Py.

(** ** recall_service.py *)

Module RecallService.

(** The provider: what [requests.get(f'{base_url}/bot/{bot_id}')] followed
    by [raise_for_status()] and [response.json()] yields for a bot id at the
    time of the call; [Raise] stands for a connection error, an error status
    or a body that is not JSON. *)
Definition provider : Type := string -> exn json.

(** The two fields of a [RecallAIBot] instance that the methods read and
    write; [None] is [JNull]. *)
Record RecallAIBot : Type := mkBot {
  self_bot_id : option string;
  self_bot_data : json
}.

(** The tagged dicts the methods return: [{"success": True, ...}] or
    [{"success": False, "error": ...}]. *)
Inductive result (A : Type) : Type :=
| Success (a : A)
| Failure (error : string).
Arguments Success {A} a.
Arguments Failure {A} error.

(** The success dict of [get_bot_status] (the [meeting_url] string, which is
    only formatted for display, is left out). *)
Record bot_status : Type := mkStatus {
  bs_bot_id : string;
  bs_status : json;
  bs_bot_name : json;
  bs_created_at : json;
  bs_status_changes : json;
  bs_data : json
}.

(** The body of the [try] of [get_bot_status], after the response is
    parsed. *)
Definition status_of_bot_data (bot_id : string) (bot_data : json) : exn bot_status :=
  status_changes ← py_get bot_data "status_changes" (JList []);
  current_status ←
    (if truthy status_changes then
       last_change ← py_last status_changes;
       py_get last_change "code" (JStr "unknown")
     else
       recordings ← py_get bot_data "recordings" (JList []);
       mret (if truthy recordings then JStr "done" else JStr "waiting_to_join"));
  bot_name ← py_get_none bot_data "bot_name";
  created_at ← py_get_none bot_data "join_at";
  mret {| bs_bot_id := bot_id;
          bs_status := current_status;
          bs_bot_name := bot_name;
          bs_created_at := created_at;
          bs_status_changes := status_changes;
          bs_data := bot_data |}.

Definition get_bot_status (self : RecallAIBot) (api : provider)
    (bot_id : option string) : result bot_status :=
  match id_or bot_id (self_bot_id self) with
  | None => Failure "No bot_id provided and no current bot available"
  | Some bot_id =>
      match (bot_data ← api bot_id; status_of_bot_data bot_id bot_data) with
      | Ok r => Success r
      | Raise => Failure "Bot status error"
      end
  end.

(** [get_bot_data]: returns the new instance state with the result. *)
Definition get_bot_data (self : RecallAIBot) (api : provider)
    (bot_id : option string) (force_refresh : bool) : RecallAIBot * result json :=
  match id_or bot_id (self_bot_id self) with
  | None => (self, Failure "No bot_id provided and no current bot available")
  | Some bot_id =>
      if truthy (self_bot_data self) && negb force_refresh then
        (self, Success (self_bot_data self))
      else
        match api bot_id with
        | Ok d => (mkBot (self_bot_id self) d, Success d)
        | Raise => (self, Failure "Bot data error")
        end
  end.

(** One of the two lookups of [extract_download_urls]:
    [media_shortcuts[key].get('data', {}).get('download_url')] when the key
    is there, [None] otherwise. *)
Definition shortcut_url (media_shortcuts : json) (key : string) : exn json :=
  present ← py_contains key media_shortcuts;
  if present : bool then
    entry ← py_item media_shortcuts key;
    data ← py_get entry "data" (JDict []);
    py_get_none data "download_url"
  else mret JNull.

Definition extract_download_urls (bot_data : json) : exn (json * json) :=
  recordings ← py_get bot_data "recordings" (JList []);
  if negb (truthy recordings) then mret (JNull, JNull)
  else
    recording ← py_first recordings;
    media_shortcuts ← py_get recording "media_shortcuts" (JDict []);
    video_url ← shortcut_url media_shortcuts "video_mixed";
    transcript_url ← shortcut_url media_shortcuts "transcript";
    mret (video_url, transcript_url).

(** The success dict of [get_download_urls]. *)
Record download_urls : Type := mkUrls {
  du_bot_id : string;
  video_url : json;
  audio_url : json;
  transcript_url : json;
  chat_messages_url : json;
  du_status : json;
  du_data : json
}.

Definition urls_of_bot_data (bot_id : string) (bot_data : json) : exn download_urls :=
  '(video, transcript) ← extract_download_urls bot_data;
  status_changes ← py_get bot_data "status_changes" (JList []);
  current_status ←
    (if truthy status_changes then
       last_change ← py_last status_changes;
       py_get last_change "code" (JStr "unknown")
     else mret (JStr "unknown"));
  mret {| du_bot_id := bot_id;
          video_url := video;
          audio_url := video;
          transcript_url := transcript;
          chat_messages_url := JNull;
          du_status := current_status;
          du_data := bot_data |}.

Definition get_download_urls (self : RecallAIBot) (api : provider)
    (bot_id : option string) : RecallAIBot * result download_urls :=
  match id_or bot_id (self_bot_id self) with
  | None => (self, Failure "No bot_id provided and no current bot available")
  | Some bot_id =>
      match get_bot_data self api (Some bot_id) true with
      | (self', Failure e) => (self', Failure e)
      | (self', Success bot_data) =>
          match urls_of_bot_data bot_id bot_data with
          | Ok r => (self', Success r)
          | Raise => (self', Failure "Download URLs error")
          end
      end
  end.

End RecallService.

(** ** file_processor.py *)

Module FileProcessor.

(** A text is its sequence of characters (code points below 256). *)
Abbreviation text := (list ascii).

Definition len (t : text) : Z := Z.of_nat (List.length t).

(** [str.isspace] on one character: tab to carriage return, the four
    separators 28 to 31, space, NEL and the no-break space. *)
Definition isspace (c : ascii) : bool :=
  let n := N_of_ascii c in
  ((9 <=? n) && (n <=? 13) || (28 <=? n) && (n <=? 32) || (n =? 133) || (n =? 160))%N.

Fixpoint lstrip (t : text) : text :=
  match t with
  | c :: t' => if isspace c then lstrip t' else t
  | [] => []
  end.

Definition rstrip (t : text) : text := rev (lstrip (rev t)).

(** [t.strip()] *)
Definition strip (t : text) : text := rstrip (lstrip t).

(** How Python adjusts one bound of a slice to a sequence of length [n]. *)
Definition adjust (n i : Z) : Z :=
  if i <? 0 then Z.max 0 (i + n) else Z.min i n.

(** [t[i:j]] *)
Definition slice (t : text) (i j : Z) : text :=
  let lo := adjust (len t) i in
  let hi := adjust (len t) j in
  take (Z.to_nat (hi - lo)) (drop (Z.to_nat lo) t).

(** Position of the last occurrence of [c] in [t]. *)
Fixpoint last_index (c : ascii) (t : text) : option nat :=
  match t with
  | [] => None
  | x :: t' =>
      match last_index c t' with
      | Some i => Some (S i)
      | None => if Ascii.eqb x c then Some O else None
      end
  end.

(** [t.rfind(c, i, j)] for a one-character needle. *)
Definition rfind (t : text) (c : ascii) (i j : Z) : Z :=
  match last_index c (slice t i j) with
  | Some k => adjust (len t) i + Z.of_nat k
  | None => -1
  end.

Definition nonempty (t : text) : bool := match t with [] => false | _ => true end.

(** The end of the window that starts at [start]. *)
Definition window_end (t : text) (chunk_size start : Z) : Z :=
  let end_ := start + chunk_size in
  if end_ <? len t then
    let sentence_end := rfind t "."%char (start + chunk_size - 100) end_ in
    if sentence_end >? start then sentence_end + 1 else end_
  else end_.

(** The [while] loop of [chunk_text]; each unit of fuel pays for one test
    of the loop condition, [None] means the fuel ran out. *)
Fixpoint chunk_loop (fuel : nat) (t : text) (chunk_size overlap : Z)
    (start : Z) (chunks : list text) : option (list text) :=
  match fuel with
  | O => None
  | S fuel' =>
      if start <? len t then
        let end_ := window_end t chunk_size start in
        let chunk := strip (slice t start end_) in
        let chunks := if nonempty chunk then (chunks ++ [chunk])%list else chunks in
        let start := end_ - overlap in
        if start >=? len t then Some chunks
        else chunk_loop fuel' t chunk_size overlap start chunks
      else Some chunks
  end.

Definition chunk_text (fuel : nat) (t : text) (chunk_size overlap : Z)
    : option (list text) :=
  if negb (nonempty t) || (len t <? chunk_size) then
    Some (if nonempty t then [t] else [])
  else chunk_loop fuel t chunk_size overlap 0 [].

(** The windows [t[start:end]] the loop cuts, before they are stripped. *)
Fixpoint window_loop (fuel : nat) (t : text) (chunk_size overlap : Z)
    (start : Z) : option (list text) :=
  match fuel with
  | O => None
  | S fuel' =>
      if start <? len t then
        let end_ := window_end t chunk_size start in
        let start' := end_ - overlap in
        if start' >=? len t then Some [slice t start end_]
        else cons (slice t start end_) <$> window_loop fuel' t chunk_size overlap start'
      else Some []
  end.

(** The windows of [chunk_text]: the whole text when it is short. *)
Definition chunk_windows (fuel : nat) (t : text) (chunk_size overlap : Z)
    : option (list text) :=
  if negb (nonempty t) || (len t <? chunk_size) then
    Some (if nonempty t then [t] else [])
  else window_loop fuel t chunk_size overlap 0.

(** What the loop appends for one window. *)
Definition kept (w : text) : list text :=
  if nonempty (strip w) then [strip w] else [].

(** [sum(len(c) for c in chunks)] *)
Definition total_length (chunks : list text) : Z :=
  foldr (fun c acc => len c + acc) 0 chunks.

Definition no_space (t : text) : Prop := Forall (fun c => isspace c = false) t.

(** A text of 1200 characters: one letter at each end of 1198 spaces. *)
Definition padded : text := ("a"%char :: repeat " "%char 1198 ++ ["b"%char])%list.

End FileProcessor.

(** ** vector_store.py *)

Module VectorStore.

Definition get_collection_name (client_id : string) (sub_client_id : option string)
    : string :=
  match id_present sub_client_id with
  | Some sub => "client_" ++ client_id ++ "_sub_" ++ sub
  | None => "client_" ++ client_id
  end.

(** The metadata dict stored with each chunk. *)
Record chunk_metadata : Type := mkMeta {
  md_file_id : string;
  md_filename : string;
  md_chunk_index : nat;
  md_client_id : string;
  md_sub_client_id : option string;
  md_text_length : nat
}.

(** One entry of a ChromaDB collection. *)
Record stored_chunk (embedding : Type) : Type := mkChunk {
  chunk_id : string;
  chunk_embedding : embedding;
  chunk_document : string;
  chunk_metadata_of : chunk_metadata
}.
Arguments mkChunk {embedding} _ _ _ _.
Arguments chunk_id {embedding} _.
Arguments chunk_embedding {embedding} _.
Arguments chunk_document {embedding} _.
Arguments chunk_metadata_of {embedding} _.

(** One formatted result of [search_knowledge_base]. *)
Record search_result : Type := mkResult {
  sr_text : string;
  sr_metadata : chunk_metadata;
  sr_score : Z
}.

Section Store.
(** The embedding provider and ChromaDB's distance between two vectors
    (in some fixed unit, so that the score is [1 - distance]). *)
Context {embedding : Type}.
Variable create_embeddings : list string -> exn (list embedding).
Variable distance : embedding -> embedding -> Z.

(** The persistent client: collections by name. *)
Abbreviation chroma := (gmap string (list (stored_chunk embedding))).

Definition chunk_record (client_id file_id filename : string)
    (sub_client_id : option string) (i : nat) (ce : string * embedding)
    : stored_chunk embedding :=
  {| chunk_id := file_id ++ "_chunk_" ++ pretty i;
     chunk_embedding := ce.2;
     chunk_document := ce.1;
     chunk_metadata_of :=
       {| md_file_id := file_id;
          md_filename := filename;
          md_chunk_index := i;
          md_client_id := client_id;
          md_sub_client_id := sub_client_id;
          md_text_length := String.length ce.1 |} |}.

(** [store_document_chunks].  ChromaDB takes no [None] as a metadata
    value, so without a [sub_client_id] the call raises and stores nothing:
    in [create_collection] when the collection is missing, which is then
    not created, in [collection.add] otherwise.  With a [sub_client_id] the
    collection is fetched or created before the embeddings are computed, so
    it exists even when the call raises later.  [collection.add] refuses an
    empty batch, wants as many embeddings as documents, and leaves out the
    entries whose id the collection already has.  The checks ChromaDB makes
    on collection names are left out. *)
Definition store_document_chunks (db : chroma)
    (client_id file_id filename : string) (text_chunks : list string)
    (sub_client_id : option string) : chroma * exn nat :=
  let collection_name := get_collection_name client_id sub_client_id in
  match sub_client_id with
  | None => (db, Raise)
  | Some _ =>
      let collection := default [] (db !! collection_name) in
      let db := <[collection_name := collection]> db in
      match create_embeddings text_chunks with
      | Raise => (db, Raise)
      | Ok embeddings =>
          if bool_decide (text_chunks <> [] /\
                          List.length embeddings = List.length text_chunks) then
            let batch :=
              imap (chunk_record client_id file_id filename sub_client_id)
                   (zip text_chunks embeddings) in
            let added :=
              filter (fun c => chunk_id c ∉ chunk_id <$> collection) batch in
            (<[collection_name := (collection ++ added)%list]> db,
             Ok (List.length text_chunks))
          else (db, Raise)
      end
  end.

(** [collection.query]: the [n_results] entries nearest to the query. *)
Definition closer (q : embedding) (a b : stored_chunk embedding) : Prop :=
  distance q (chunk_embedding a) <= distance q (chunk_embedding b).

#[local] Instance closer_dec q a b : Decision (closer q a b).
Proof. unfold closer. apply _. Defined.

Definition collection_query (collection : list (stored_chunk embedding))
    (q : embedding) (n_results : nat) : list (stored_chunk embedding) :=
  take n_results (merge_sort (closer q) collection).

Definition format_result (q : embedding) (c : stored_chunk embedding)
    : search_result :=
  {| sr_text := chunk_document c;
     sr_metadata := chunk_metadata_of c;
     sr_score := 1 - distance q (chunk_embedding c) |}.

(** [search_knowledge_base]: a missing collection and every exception
    give the empty list. *)
Definition search_knowledge_base (db : chroma) (query client_id : string)
    (sub_client_id : option string) (n_results : nat) : list search_result :=
  let collection_name := get_collection_name client_id sub_client_id in
  match db !! collection_name with
  | None => []
  | Some collection =>
      match create_embeddings [query] with
      | Ok (query_embedding :: _) =>
          format_result query_embedding <$>
            collection_query collection query_embedding n_results
      | _ => []
      end
  end.

End Store.

(** Two knowledge scopes are the same when they have the same organisation
    and the same sub-unit, an empty sub-unit standing for none. *)
Definition same_scope (c1 : string) (s1 : option string)
    (c2 : string) (s2 : option string) : Prop :=
  c1 = c2 /\ id_present s1 = id_present s2.

(** What follows the organisation in a collection name. *)
Definition sub_suffix (sub_client_id : option string) : string :=
  match id_present sub_client_id with
  | Some sub => "_sub_" ++ sub
  | None => ""
  end.

(** No entry of the collection has an id [store_document_chunks] gives to
    a chunk of the file. *)
Definition fresh_file {embedding : Type} (collection : list (stored_chunk embedding))
    (file_id : string) : Prop :=
  Forall (fun c => forall i : nat, chunk_id c <> file_id ++ "_chunk_" ++ pretty i)
         collection.

(** No underscore occurs in the identifier. *)
Definition underscore_free (s : string) : Prop :=
  Forall (fun c => c <> "_"%char) (list_ascii_of_string s).

End VectorStore.

(** ** ai_service.py and meeting_intelligence.py *)

Module MeetingIntelligence.

Import RecallService VectorStore.

(** The dict kept per meeting in [active_meetings]. *)
Record meeting_data : Type := mkMeeting {
  meeting_id : string;
  bot_id : string;
  meeting_url : string;
  client_id : string;
  sub_client_id : option string;
  user_id : option string;
  attendees : list string;
  meeting_title : string;
  status : json;
  started_at : nat;
  processed : bool;
  processed_at : option nat
}.

Definition with_status (s : json) (m : meeting_data) : meeting_data :=
  mkMeeting (meeting_id m) (bot_id m) (meeting_url m) (client_id m)
    (sub_client_id m) (user_id m) (attendees m) (meeting_title m)
    s (started_at m) (processed m) (processed_at m).

Definition with_processed (t : nat) (m : meeting_data) : meeting_data :=
  mkMeeting (meeting_id m) (bot_id m) (meeting_url m) (client_id m)
    (sub_client_id m) (user_id m) (attendees m) (meeting_title m)
    (status m) (started_at m) true (Some t).

(** The success dict of [generate_content] ([tokens_used] left out). *)
Record generated : Type := mkGenerated {
  content : string;
  context_used : string
}.

(** A row of the table [outputs] of the external store. *)
Record output_row : Type := mkRow {
  out_id : option string;
  out_title : string;
  out_content : string;
  out_type : string;
  out_prompt : string;
  out_client_id : option string;
  out_sub_client_id : option string;
  out_user_id : option string;
  out_file_id : option string;
  out_meeting_id : option string;
  out_context_used : option string;
  out_created_at : nat;
  out_updated_at : nat
}.

(** Coroutines handed to [asyncio.create_task]. *)
Inductive task : Type :=
| MonitorTask (meeting_id : string)
| ProcessTask (meeting_id : string).

Inductive loop_status : Type := Polling | Exited.

Definition nl : string := String (ascii_of_nat 10) EmptyString.

Section Service.
Context {embedding : Type}.
(** The embedding provider and the vector distance of the knowledge
    store. *)
Variable create_embeddings : list string -> exn (list embedding).
Variable distance : embedding -> embedding -> Z.
(** [_download_transcript]: the body of the response when its status is
    200, [None] on any other status and on any exception. *)
Variable download_transcript : json -> option string.
(** The chat completion for a content type, a recipient and a user
    message (they determine the system prompt), already stripped; [Raise]
    is any exception of the call. *)
Variable chat_completion : string -> option string -> string -> exn string.
(** Whether the external store takes a row (schema and foreign keys). *)
Variable store_accepts : output_row -> bool.
(** [str(x)] as an f-string formats it, [s.title()], [uuid.UUID(s)]
    succeeding, and the identifier [uuid.uuid4()] draws at a given
    time. *)
Variable py_str : json -> string.
Variable py_title : string -> string.
Variable valid_uuid : string -> bool.
Variable uuid4 : nat -> string.

(** The service instance together with the world it acts on. *)
Record state : Type := mkState {
  active_meetings : gmap string meeting_data;
  processing_queue : list string;
  tasks : list task;
  recall_service : RecallAIBot;
  knowledge : gmap string (list (stored_chunk embedding));
  outputs : list output_row;
  completions : list string;
  clock : nat
}.

Definition set_meetings (f : gmap string meeting_data -> gmap string meeting_data)
    (st : state) : state :=
  mkState (f (active_meetings st)) (processing_queue st) (tasks st)
    (recall_service st) (knowledge st) (outputs st) (completions st) (clock st).

Definition set_recall (b : RecallAIBot) (st : state) : state :=
  mkState (active_meetings st) (processing_queue st) (tasks st)
    b (knowledge st) (outputs st) (completions st) (clock st).

Definition enqueue (id : string) (st : state) : state :=
  mkState (active_meetings st) (processing_queue st ++ [id])%list (tasks st)
    (recall_service st) (knowledge st) (outputs st) (completions st) (clock st).

Definition create_task (t : task) (st : state) : state :=
  mkState (active_meetings st) (processing_queue st) (tasks st ++ [t])%list
    (recall_service st) (knowledge st) (outputs st) (completions st) (clock st).

Definition insert_output (r : output_row) (st : state) : state :=
  mkState (active_meetings st) (processing_queue st) (tasks st)
    (recall_service st) (knowledge st) (outputs st ++ [r])%list (completions st)
    (clock st).

Definition log_completion (content_type : string) (st : state) : state :=
  mkState (active_meetings st) (processing_queue st) (tasks st)
    (recall_service st) (knowledge st) (outputs st)
    (completions st ++ [content_type])%list (clock st).

(** [datetime.now()] *)
Definition now (st : state) : nat * state :=
  (clock st,
   mkState (active_meetings st) (processing_queue st) (tasks st)
     (recall_service st) (knowledge st) (outputs st) (completions st)
     (S (clock st))).

(** *** ai_service.py *)

Definition truncate500 (s : string) : string :=
  if (500 <? String.length s)%nat then String.substring 0 500 s ++ "..." else s.

(** [generate_content]: every exception of its body becomes a failure
    dict; [completions] records the request to the provider. *)
Definition generate_content (st : state) (prompt content_type client_id : string)
    (sub_client_id recipient_name : option string) : state * result generated :=
  let context_results :=
    search_knowledge_base create_embeddings distance (knowledge st)
      prompt client_id sub_client_id 5 in
  let context :=
    String.concat (nl ++ nl)
      (imap (fun i r => "Context " ++ pretty (S i) ++ ": " ++ sr_text r)
            (take 3 context_results)) in
  let message :=
    "Context from company knowledge base:" ++ nl ++ context ++ nl ++ nl ++
    "Request: " ++ prompt in
  let st := log_completion content_type st in
  match chat_completion content_type recipient_name message with
  | Ok generated_content =>
      (st, Success {| content := generated_content;
                      context_used := truncate500 context |})
  | Raise => (st, Failure "completion failed")
  end.

Definition generate_email (st : state) (prompt client_id : string)
    (sub_client_id recipient_name : option string) :=
  generate_content st prompt "email" client_id sub_client_id recipient_name.

Definition generate_summary (st : state) (prompt client_id : string)
    (sub_client_id : option string) :=
  generate_content st prompt "summary" client_id sub_client_id None.

Definition generate_action_items (st : state) (prompt client_id : string)
    (sub_client_id : option string) :=
  generate_content st prompt "action_items" client_id sub_client_id None.

(** *** meeting_intelligence.py *)

(** [start_meeting_recording], given what [recall_service.create_bot]
    returned: the bot id, or a failure. *)
Definition start_meeting_recording (st : state) (bot_result : result string)
    (meeting_url meeting_id client_id : string)
    (sub_client_id user_id : option string) (attendees : list string)
    (meeting_title : string) : state * result string :=
  match bot_result with
  | Failure e => (st, Failure ("Failed to create bot: " ++ e))
  | Success bot_id =>
      let st := set_recall (mkBot (Some bot_id) (self_bot_data (recall_service st))) st in
      let '(t, st) := now st in
      let meeting_data :=
        mkMeeting meeting_id bot_id meeting_url client_id sub_client_id user_id
          attendees meeting_title (JStr "recording") t false None in
      let st := set_meetings (insert meeting_id meeting_data) st in
      let st := create_task (MonitorTask meeting_id) st in
      (st, Success bot_id)
  end.

(** [meeting_data["status"] = s] on the dict held in the registry. *)
Definition set_status (id : string) (s : json) (st : state) : state :=
  set_meetings (alter (with_status s) id) st.

(** One turn of the [while True] of [_monitor_meeting_completion], after
    the sleep: the poll goes to the provider as it is at that time. *)
Definition monitor_poll (st : state) (api : provider) (id bot : string)
    : state * loop_status :=
  match get_bot_status (recall_service st) api (Some bot) with
  | Success status_result =>
      let status := bs_status status_result in
      let st := set_status id status st in
      if str_in status ["done"; "completed"; "finished"] then
        let st := enqueue id st in
        let st := create_task (ProcessTask id) st in
        (st, Exited)
      else if str_in status ["failed"; "error"] then
        (set_status id (JStr "failed") st, Exited)
      else (st, Polling)
  | Failure _ => (st, Polling)
  end.

(** The loop over the successive states of the provider; [Polling] at the
    end of the list means the loop is still going. *)
Fixpoint monitor_loop (polls : list provider) (st : state) (id bot : string)
    : state * loop_status :=
  match polls with
  | [] => (st, Polling)
  | api :: polls' =>
      match monitor_poll st api id bot with
      | (st', Exited) => (st', Exited)
      | (st', Polling) => monitor_loop polls' st' id bot
      end
  end.

Definition _monitor_meeting_completion (polls : list provider) (st : state)
    (id : string) : state * loop_status :=
  match active_meetings st !! id with
  | None => (st, Exited)
  | Some meeting_data => monitor_loop polls st id (bot_id meeting_data)
  end.

(** The codes of the polls that succeed, in order. *)
Definition polled_codes (self : RecallAIBot) (polls : list provider) (bot : string)
    : list json :=
  omap (fun api : provider =>
          match get_bot_status self api (Some bot) with
          | Success status_result => Some (bs_status status_result)
          | Failure _ => None
          end) polls.

(** The monitor in words: starting from the status [s], each polled code
    becomes the status; the first code that is done, completed or finished
    ends the loop, and so does the first that is failed or error, which is
    stored as failed. *)
Fixpoint monitor_outcome (s : json) (codes : list json) : json * loop_status :=
  match codes with
  | [] => (s, Polling)
  | code :: codes' =>
      if str_in code ["done"; "completed"; "finished"] then (code, Exited)
      else if str_in code ["failed"; "error"] then (JStr "failed", Exited)
      else monitor_outcome code codes'
  end.

(** [x.get('text') or x.get('content')], when it is not empty. *)
Definition text_or_content (x : json) : exn (option json) :=
  text ← py_get_none x "text";
  content ← py_get_none x "content";
  let text_content := py_or text content in
  mret (if truthy text_content then Some text_content else None).

(** The transcript embedded in the recording data. *)
Definition embedded_transcript (recording : json) : exn (option json) :=
  transcript_data ← py_get_none recording "transcript";
  if truthy transcript_data then
    if is_string transcript_data then mret (Some transcript_data)
    else if is_dict transcript_data then text_or_content transcript_data
    else mret None
  else mret None.

(** The transcript under the media shortcuts of the recording. *)
Definition shortcut_transcript (recording : json) : exn (option json) :=
  media_shortcuts ← py_get recording "media_shortcuts" (JDict []);
  present ← py_contains "transcript" media_shortcuts;
  if present : bool then
    transcript_info ← py_item media_shortcuts "transcript";
    if is_dict transcript_info then
      data ← py_get transcript_info "data" (JDict []);
      text_or_content data
    else mret None
  else mret None.

(** One turn of the [for recording in recordings] of
    [_extract_transcript_from_bot_data]: [Some t] when the function
    returns [t] from inside the loop. *)
Definition scan_recording (recording : json) : exn (option json) :=
  found ← embedded_transcript recording;
  match found with
  | Some t => mret (Some t)
  | None => shortcut_transcript recording
  end.

Fixpoint scan_recordings (recordings : list json) : exn json :=
  match recordings with
  | [] => mret JNull
  | recording :: rest =>
      found ← scan_recording recording;
      match found with
      | Some t => mret t
      | None => scan_recordings rest
      end
  end.

(** [_extract_transcript_from_bot_data]: [JNull] is [None]; an exception
    anywhere gives [None] too. *)
Definition _extract_transcript_from_bot_data (bot_data : json) : json :=
  match (recordings ← py_get bot_data "recordings" (JList []);
         items ← py_iter recordings;
         scan_recordings items) with
  | Ok t => t
  | Raise => JNull
  end.

(** Lines 184 to 204 of [_process_completed_meeting]: the transcript the
    routine goes on with, or [None] when it returns early.  The log line
    of each success calls [len] on the transcript, whose exception ends
    the routine as well. *)
Definition acquire_transcript (urls : download_urls) : option json :=
  if truthy (transcript_url urls) then
    match download_transcript (transcript_url urls) with
    | Some transcript_text =>
        if truthy (JStr transcript_text) then Some (JStr transcript_text) else None
    | None => None
    end
  else
    let bot_data := du_data urls in
    let transcript_text := _extract_transcript_from_bot_data bot_data in
    if truthy transcript_text then
      match py_len transcript_text with
      | Ok _ => Some transcript_text
      | Raise => None
      end
    else None.

(** [_get_client_context]: the result dicts of the search have no
    [filename] and no [content] entry, so the defaults are printed. *)
Definition _get_client_context (st : state) (client_id : string)
    (sub_client_id : option string) (meeting_title : string) : string :=
  let search_query := "meeting " ++ meeting_title ++ " project context background" in
  let search_results :=
    search_knowledge_base create_embeddings distance (knowledge st)
      search_query client_id sub_client_id 5 in
  match search_results with
  | [] => "No specific client context found in knowledge base."
  | _ =>
      String.concat nl
        (List.concat ((fun _ : search_result =>
                    ["Document: Unknown"; "Content: ..."; "---"]) <$> search_results))
  end.

Definition indent : string := "            ".

Definition full_context (m : meeting_data) (transcript_text : json)
    (client_context : string) : string :=
  nl ++ indent ++ "Meeting: " ++ meeting_title m ++ nl ++
  indent ++ "Attendees: " ++ String.concat ", " (attendees m) ++ nl ++
  indent ++ nl ++
  indent ++ "Client Context:" ++ nl ++
  indent ++ client_context ++ nl ++
  indent ++ nl ++
  indent ++ "Meeting Transcript:" ++ nl ++
  indent ++ py_str transcript_text ++ nl ++
  indent.

Definition summary_prompt (ctx : string) : string :=
  "Create a comprehensive meeting summary based on this transcript and client context: " ++ ctx.

Definition action_items_prompt (ctx : string) : string :=
  "Extract and create detailed action items from this meeting, considering the client context: " ++ ctx.

Definition email_prompt (ctx : string) : string :=
  "Create a professional follow-up email for meeting attendees summarizing key points and next steps: " ++ ctx.

(** [_generate_meeting_ai_content]: the dict [results] in insertion
    order. *)
Definition _generate_meeting_ai_content (st : state) (transcript_text : json)
    (client_context : string) (m : meeting_data)
    : state * list (string * result generated) :=
  let ctx := full_context m transcript_text client_context in
  let '(st, summary_result) :=
    generate_summary st (summary_prompt ctx) (client_id m) (sub_client_id m) in
  let results := [("summary", summary_result)] in
  let '(st, action_items_result) :=
    generate_action_items st (action_items_prompt ctx) (client_id m) (sub_client_id m) in
  let results := (results ++ [("action_items", action_items_result)])%list in
  match attendees m with
  | first :: _ =>
      let '(st, email_result) :=
        generate_email st (email_prompt ctx) (client_id m) (sub_client_id m)
          (Some first) in
      (st, (results ++ [("follow_up_email", email_result)])%list)
  | [] => (st, results)
  end.

Definition output_title (content_type meeting_title : string) : string :=
  if String.eqb content_type "summary" then "Meeting Summary - " ++ meeting_title
  else if String.eqb content_type "action_items" then "Action Items - " ++ meeting_title
  else if String.eqb content_type "follow_up_email" then "Follow-up Email - " ++ meeting_title
  else py_title content_type ++ " - " ++ meeting_title.

Definition output_prompt (content_type meeting_title : string) : string :=
  if String.eqb content_type "summary" then
    "Create a comprehensive meeting summary for: " ++ meeting_title
  else if String.eqb content_type "action_items" then
    "Extract action items from meeting: " ++ meeting_title
  else if String.eqb content_type "follow_up_email" then
    "Generate follow-up email for meeting: " ++ meeting_title
  else "Generate " ++ content_type ++ " for meeting".

(** [Output(...)] followed by the [output_data] of
    [db_manager.create_output]: the model wants [user_id] to be a string;
    [id] and [context_used] are not sent. *)
Definition output_for (m : meeting_data) (content_type : string) (g : generated)
    (created updated : nat) : exn output_row :=
  match user_id m with
  | None => Raise
  | Some user =>
      mret {| out_id := None;
              out_title := output_title content_type (meeting_title m);
              out_content := content g;
              out_type := content_type;
              out_prompt := output_prompt content_type (meeting_title m);
              out_client_id := Some (client_id m);
              out_sub_client_id := sub_client_id m;
              out_user_id := Some user;
              out_file_id := None;
              out_meeting_id := Some (meeting_id m);
              out_context_used := None;
              out_created_at := created;
              out_updated_at := updated |}
  end.

(** [db_manager.create_output]: its own [try] turns a refused insert into
    the result [None]; nothing is raised to the caller. *)
Definition create_output (st : state) (row : output_row)
    : state * exn (option output_row) :=
  if store_accepts row then (insert_output row st, Ok (Some row))
  else (st, Ok None).

(** [safe_uuid] *)
Definition safe_uuid (value : option string) : option string :=
  match id_present value with
  | Some v => if valid_uuid v then Some v else None
  | None => None
  end.

(** [_store_output_direct]: [True] when the insert returned data. *)
Definition _store_output_direct (st : state) (content_type content : string)
    (m : meeting_data) : state * bool :=
  let id := uuid4 (clock st) in
  let '(created, st) := now st in
  let '(updated, st) := now st in
  let row :=
    {| out_id := Some id;
       out_title := py_title content_type ++ " - " ++ meeting_title m;
       out_content := content;
       out_type := content_type;
       out_prompt := "Generate " ++ content_type ++ " for meeting";
       out_client_id := safe_uuid (Some (client_id m));
       out_sub_client_id := safe_uuid (sub_client_id m);
       out_user_id := safe_uuid (user_id m);
       out_file_id := None;
       out_meeting_id := Some (meeting_id m);
       out_context_used := Some "Meeting transcript and client knowledge base";
       out_created_at := created;
       out_updated_at := updated |} in
  if store_accepts row then (insert_output row st, true) else (st, false).

(** The body of the [for content_type, result in ai_results.items()] of
    [_store_meeting_results]; [Raise] leaves the loop for the outer
    [except]. *)
Definition store_result (st : state) (m : meeting_data)
    (item : string * result generated) : state * exn unit :=
  match item.2 with
  | Success g =>
      let '(created, st) := now st in
      let '(updated, st) := now st in
      match output_for m item.1 g created updated with
      | Raise => (st, Raise)
      | Ok row =>
          match create_output st row with
          | (st, Ok _) => (st, Ok ())
          | (st, Raise) =>
              let '(st, _) := _store_output_direct st item.1 (content g) m in
              (st, Ok ())
          end
      end
  | Failure _ => (st, Ok ())
  end.

Fixpoint _store_meeting_results (st : state) (m : meeting_data)
    (ai_results : list (string * result generated)) : state :=
  match ai_results with
  | [] => st
  | item :: rest =>
      match store_result st m item with
      | (st, Ok _) => _store_meeting_results st m rest
      | (st, Raise) => st
      end
  end.

(** [_process_completed_meeting], with the provider as it is when the
    download URLs are fetched. *)
Definition _process_completed_meeting (st : state) (api : provider) (id : string)
    : state :=
  match active_meetings st !! id with
  | None => st
  | Some meeting_data =>
      let '(bot, download_result) :=
        get_download_urls (recall_service st) api (Some (bot_id meeting_data)) in
      let st := set_recall bot st in
      match download_result with
      | Failure _ => st
      | Success urls =>
          match acquire_transcript urls with
          | None => st
          | Some transcript_text =>
              let client_context :=
                _get_client_context st (client_id meeting_data)
                  (sub_client_id meeting_data) (meeting_title meeting_data) in
              let '(st, ai_results) :=
                _generate_meeting_ai_content st transcript_text client_context
                  meeting_data in
              let st := _store_meeting_results st meeting_data ai_results in
              let '(t, st) := now st in
              set_meetings (alter (with_processed t) id) st
          end
      end
  end.

(** The content types asked of the completion provider for a meeting, in
    order. *)
Definition requested_types (m : meeting_data) : list string :=
  match attendees m with
  | [] => ["summary"; "action_items"]
  | _ => ["summary"; "action_items"; "email"]
  end.

(** The rows of a meeting in the table [outputs]. *)
Definition artifacts_of (id : string) (st : state) : list output_row :=
  filter (fun r => out_meeting_id r = Some id) (outputs st).

(** The recording raises nowhere in the scan. *)
Definition well_formed (recording : json) : bool :=
  match scan_recording recording with
  | Ok _ => true
  | Raise => false
  end.

(** The scan as the specification words it.  [field x k] is the entry
    [k] of the object [x], [JNull] when there is none. *)
Definition field (x : json) (k : string) : json :=
  match x with
  | JDict d => default JNull (dict_lookup d k)
  | _ => JNull
  end.

(** The [text] entry of an object, else its [content] entry, when not
    empty. *)
Definition text_entry (x : json) : option json :=
  let t := py_or (field x "text") (field x "content") in
  if truthy t then Some t else None.

(** The top-level [transcript] field: a string, or an object's
    [text]/[content] entry. *)
Definition spec_embedded (recording : json) : option json :=
  let transcript := field recording "transcript" in
  if is_string transcript then
    (if truthy transcript then Some transcript else None)
  else text_entry transcript.

(** The transcript inside the media-shortcut metadata. *)
Definition spec_shortcut (recording : json) : option json :=
  let info := field (field recording "media_shortcuts") "transcript" in
  if is_dict info then text_entry (field info "data") else None.

Definition spec_scan (recording : json) : option json :=
  match spec_embedded recording with
  | Some t => Some t
  | None => spec_shortcut recording
  end.

(** The first recording that yields a non-empty result decides. *)
Definition spec_first_text (recordings : list json) : option json :=
  head (omap spec_scan recordings).

Definition has_len (x : json) : bool :=
  match py_len x with Ok _ => true | Raise => false end.

(** Transcript acquisition as the code has it: the download alone when
    there is a transcript URL, the scan of the job data alone when there
    is none. *)
Definition spec_acquire (url : json) (recordings : list json) : option json :=
  if truthy url then
    match download_transcript url with
    | Some s => if truthy (JStr s) then Some (JStr s) else None
    | None => None
    end
  else
    match spec_first_text recordings with
    | Some t => if has_len t then Some t else None
    | None => None
    end.

(** The type and content of a row, and those of the rows a list of
    generation results leads to when every insert is taken. *)
Definition kind_and_content (r : output_row) : string * string :=
  (out_type r, out_content r).

Definition successes (ai_results : list (string * result generated))
    : list (string * string) :=
  omap (fun item : string * result generated =>
          match item.2 with
          | Success g => Some (item.1, content g)
          | Failure _ => None
          end) ai_results.

(** The parts of the state a step leaves alone. *)
Definition same_sessions (st st' : state) : Prop :=
  active_meetings st' = active_meetings st /\
  processing_queue st' = processing_queue st /\
  tasks st' = tasks st /\
  recall_service st' = recall_service st /\
  knowledge st' = knowledge st.

(** The results of [_generate_meeting_ai_content]: each entry is what its
    own call of the generator gives on the state the routine started
    from. *)
Definition results_of (st : state) (transcript_text : json) (client_context : string)
    (m : meeting_data) : list (string * result generated) :=
  let ctx := full_context m transcript_text client_context in
  [("summary",
    (generate_content st (summary_prompt ctx) "summary" (client_id m) (sub_client_id m) None).2);
   ("action_items",
    (generate_content st (action_items_prompt ctx) "action_items" (client_id m)
       (sub_client_id m) None).2)]
  ++ match attendees m with
     | first :: _ =>
         [("follow_up_email",
           (generate_content st (email_prompt ctx) "email" (client_id m) (sub_client_id m)
              (Some first)).2)]
     | [] => []
     end.

End Service.

End MeetingIntelligence.

(** ** recall_service.py: the bots of a user *)

Module BotRegistry.

Import RecallService.

(** The module-level dict [user_bots]. *)
Abbreviation user_bots := (gmap string (list string)).

Definition get_user_bots (reg : user_bots) (user_id : string) : list string :=
  default [] (reg !! user_id).

Definition add_user_bot (reg : user_bots) (user_id bot_id : string) : user_bots :=
  <[user_id := (get_user_bots reg user_id ++ [bot_id])%list]> reg.

(** [l.remove(x)] for an [x] that is in [l]: the first occurrence goes. *)
Fixpoint remove_first (x : string) (l : list string) : list string :=
  match l with
  | [] => []
  | y :: l' => if String.eqb y x then l' else y :: remove_first x l'
  end.

Definition remove_user_bot (reg : user_bots) (user_id bot_id : string) : user_bots :=
  match reg !! user_id with
  | Some bots =>
      if bool_decide (bot_id ∈ bots) then <[user_id := remove_first bot_id bots]> reg
      else reg
  | None => reg
  end.

(** The success dict of [cleanup_old_bots], with the bot ids
    [recall_service.delete_bot] was called for, in order. *)
Record cleanup_result : Type := mkCleanup {
  cleaned_up : nat;
  remaining_bots : nat;
  delete_requests : list string
}.

(** The [for bot_id in user_bot_ids.copy()] of [cleanup_old_bots]; the
    [k]-th poll goes to the provider as it is then.  What [delete_bot]
    returns is not looked at, and it raises nothing. *)
Fixpoint cleanup_loop (self : RecallAIBot) (api_at : nat -> provider)
    (user_id : string) (k : nat) (bot_ids : list string)
    (acc : user_bots * nat * list string) : user_bots * nat * list string :=
  match bot_ids with
  | [] => acc
  | bot_id :: rest =>
      let '(reg, cleaned, requests) := acc in
      let acc :=
        match get_bot_status self (api_at k) (Some bot_id) with
        | Success status_result =>
            if str_in (bs_status status_result) ["done"; "failed"; "error"; "fatal"] then
              (remove_user_bot reg user_id bot_id, S cleaned, (requests ++ [bot_id])%list)
            else acc
        | Failure _ => acc
        end in
      cleanup_loop self api_at user_id (S k) rest acc
  end.

Definition cleanup_old_bots (self : RecallAIBot) (api_at : nat -> provider)
    (reg : user_bots) (user_id : string) : user_bots * cleanup_result :=
  let user_bot_ids := get_user_bots reg user_id in
  let '(reg, cleaned, requests) :=
    cleanup_loop self api_at user_id 0 user_bot_ids (reg, 0%nat, []) in
  (reg, {| cleaned_up := cleaned;
           remaining_bots := List.length (get_user_bots reg user_id);
           delete_requests := requests |}).

End BotRegistry.

(** ** vector_store.py: statistics and deletion *)

Module VectorStoreAdmin.

Import VectorStore.

(** The dict [get_client_knowledge_stats] returns. *)
Record knowledge_stats : Type := mkStats {
  total_chunks : nat;
  stats_collection_name : string;
  has_knowledge : bool
}.

Section Admin.
Context {embedding : Type}.

Definition get_client_knowledge_stats
    (db : gmap string (list (stored_chunk embedding)))
    (client_id : string) (sub_client_id : option string) : knowledge_stats :=
  let collection_name := get_collection_name client_id sub_client_id in
  match db !! collection_name with
  | Some collection =>
      {| total_chunks := List.length collection;
         stats_collection_name := collection_name;
         has_knowledge := bool_decide (0 < List.length collection)%nat |}
  | None =>
      {| total_chunks := 0;
         stats_collection_name := collection_name;
         has_knowledge := false |}
  end.

(** [collection.get(where={"file_id": file_id})["ids"]] *)
Definition ids_of_file (collection : list (stored_chunk embedding))
    (file_id : string) : list string :=
  chunk_id <$> filter (fun c => md_file_id (chunk_metadata_of c) = file_id) collection.

(** [delete_file_chunks]: a missing collection is left missing; the entries
    that go are those whose id is one of the ids of the file. *)
Definition delete_file_chunks (db : gmap string (list (stored_chunk embedding)))
    (file_id client_id : string) (sub_client_id : option string)
    : gmap string (list (stored_chunk embedding)) :=
  let collection_name := get_collection_name client_id sub_client_id in
  match db !! collection_name with
  | None => db
  | Some collection =>
      match ids_of_file collection file_id with
      | [] => db
      | ids => <[collection_name := filter (fun c => chunk_id c ∉ ids) collection]> db
      end
  end.

(** Every entry has an id of the form [store_document_chunks] gives for
    the file of its metadata. *)
Definition keyed_by_file (collection : list (stored_chunk embedding)) : Prop :=
  Forall (fun c => exists i : nat,
            chunk_id c = md_file_id (chunk_metadata_of c) ++ "_chunk_" ++ pretty i)
         collection.

End Admin.

(** The number of underscores of a list of characters. *)
Definition underscores (l : list ascii) : nat :=
  List.length (filter (fun c => c = "_"%char) l).

End VectorStoreAdmin.

(** ** file_processor.py: from an upload to the knowledge store *)

Module FileIngest.

Import FileProcessor VectorStore.

(** [settings.allowed_file_types] and [settings.max_file_size], at their
    defaults. *)
Definition allowed_file_types : list string :=
  [".pdf"; ".docx"; ".txt"; ".jpg"; ".jpeg"; ".png"; ".bmp"; ".tiff"].

Definition max_file_size : Z := 10485760.

(** [c.lower()] on a code point below 256: the letters A to Z and the
    capital letters of Latin-1. *)
Definition lower_char (c : ascii) : ascii :=
  let n := N_of_ascii c in
  if ((65 <=? n) && (n <=? 90) || (192 <=? n) && (n <=? 214)
      || (216 <=? n) && (n <=? 222))%N
  then ascii_of_N (n + 32) else c.

Fixpoint lower (s : string) : string :=
  match s with
  | EmptyString => EmptyString
  | String c s' => String (lower_char c) (lower s')
  end.

Definition validate_file_size (file_size : Z) : bool := file_size <=? max_file_size.

(** [chunk_text(extracted_text)] with the default window and overlap, on
    the characters of a string; the fuel is more than the loop needs. *)
Definition chunk_text_default (extracted_text : string) : list string :=
  match chunk_text (S (String.length extracted_text))
          (list_ascii_of_string extracted_text) 1000 200 with
  | Some chunks => string_of_list_ascii <$> chunks
  | None => []
  end.

(** The dict [process_and_store_file] returns; [chunks_stored] is 0 in
    every failure.  [IngestError] is the dict of the [except] branch, whose
    [error] is the text of the exception and whose [extracted_text] is
    empty. *)
Inductive ingest_result : Type :=
| Ingested (extracted_text : string) (chunks_stored : nat) (file_path : string)
    (text_length : nat)
| IngestFailed (error extracted_text : string)
| IngestError.

(** [s.strip()] on a string. *)
Definition strip_string (s : string) : string :=
  string_of_list_ascii (strip (list_ascii_of_string s)).

Definition newline : string := String (ascii_of_nat 10) EmptyString.

Section Ingest.
Context {embedding : Type}.
Variable create_embeddings : list string -> exn (list embedding).
(** [Path(filename).suffix] *)
Variable suffix : string -> string.
(** What the libraries read from a file path: the texts of the pages of a
    PDF, the texts of the paragraphs of a document, the text found in an
    image, the content of a text file; [Raise] is any exception. *)
Variable pdf_pages : string -> exn (list string).
Variable docx_paragraphs : string -> exn (list string).
Variable image_to_string : string -> exn string.
Variable read_txt : string -> exn string.
(** [save_uploaded_file] for a file name and a client: the path written
    to, or an exception. *)
Variable save_uploaded_file : string -> string -> exn string.

(** The four extractors: the text read, stripped; the empty string on any
    exception. *)
Definition extract_text_from_pdf (file_path : string) : string :=
  match pdf_pages file_path with
  | Ok pages => strip_string (foldl (fun text page => text ++ page ++ newline) "" pages)
  | Raise => ""
  end.

Definition extract_text_from_docx (file_path : string) : string :=
  match docx_paragraphs file_path with
  | Ok paragraphs =>
      strip_string (foldl (fun text paragraph => text ++ paragraph ++ newline) ""
                      paragraphs)
  | Raise => ""
  end.

Definition extract_text_from_image (file_path : string) : string :=
  match image_to_string file_path with
  | Ok text => strip_string text
  | Raise => ""
  end.

Definition extract_text_from_txt (file_path : string) : string :=
  match read_txt file_path with
  | Ok text => strip_string text
  | Raise => ""
  end.

Definition validate_file_type (filename : string) : bool :=
  bool_decide (lower (suffix filename) ∈ allowed_file_types).

Definition extractors : list (string * (string -> string)) :=
  [(".pdf", extract_text_from_pdf);
   (".docx", extract_text_from_docx);
   (".txt", extract_text_from_txt);
   (".jpg", extract_text_from_image);
   (".jpeg", extract_text_from_image);
   (".png", extract_text_from_image);
   (".bmp", extract_text_from_image);
   (".tiff", extract_text_from_image)].

Fixpoint extractor_for (table : list (string * (string -> string))) (key : string)
    : option (string -> string) :=
  match table with
  | [] => None
  | (k, f) :: table' => if String.eqb k key then Some f else extractor_for table' key
  end.

Definition extract_text_from_file (file_path file_type : string) : string :=
  match extractor_for extractors (lower file_type) with
  | Some extractor => extractor file_path
  | None => ""
  end.

Definition process_and_store_file (db : gmap string (list (stored_chunk embedding)))
    (filename client_id file_id : string) (sub_client_id : option string)
    : gmap string (list (stored_chunk embedding)) * ingest_result :=
  match save_uploaded_file filename client_id with
  | Raise => (db, IngestError)
  | Ok file_path =>
      let file_extension := lower (suffix filename) in
      let extracted_text := extract_text_from_file file_path file_extension in
      if String.eqb extracted_text "" then
        (db, IngestFailed "No text could be extracted from file" "")
      else
        let text_chunks := chunk_text_default extracted_text in
        match text_chunks with
        | [] => (db, IngestFailed "No text chunks created" extracted_text)
        | _ =>
            match store_document_chunks create_embeddings db client_id file_id
                    filename text_chunks sub_client_id with
            | (db, Ok chunks_stored) =>
                (db, Ingested extracted_text chunks_stored file_path
                       (String.length extracted_text))
            | (db, Raise) => (db, IngestError)
            end
        end
  end.

End Ingest.

End FileIngest.

Import RecallService FileProcessor VectorStore MeetingIntelligence.
Import BotRegistry VectorStoreAdmin FileIngest.

(** ** Sample data *)

(** An embedding provider that maps every text to the same vector. *)
Definition unit_embeddings (texts : list string) : exn (list unit) :=
  Ok ((fun _ => tt) <$> texts).

(** A meeting as [start_meeting_recording] registers it, in a service
    whose knowledge store is empty. *)
Definition idle_service : @state unit :=
  mkState ∅ [] [] (mkBot None JNull) ∅ [] [] 0.

Definition started_service (attendees : list string) : @state unit :=
  (start_meeting_recording idle_service (Success "b1") "https://meet.example/abc"
     "m1" "acme" None (Some "u1") attendees "Standup").1.

Definition standup (attendees : list string) : meeting_data :=
  mkMeeting "m1" "b1" "https://meet.example/abc" "acme" None (Some "u1")
    attendees "Standup" (JStr "recording") 0 false None.

(** Scenario C: a transcript URL that cannot be downloaded, and a
    transcript embedded in the first recording. *)
Definition scenario_c_job : json :=
  JDict [("status_changes", JList [JDict [("code", JStr "done")]]);
         ("recordings",
          JList [JDict [("transcript", JStr "hello world");
                        ("media_shortcuts",
                         JDict [("transcript",
                                 JDict [("data", JDict [("download_url", JStr "https://t/1.json")])])])]])].

Definition scenario_c_urls : download_urls :=
  {| du_bot_id := "b1";
     video_url := JNull;
     audio_url := JNull;
     transcript_url := JStr "https://t/1.json";
     chat_messages_url := JNull;
     du_status := JStr "done";
     du_data := scenario_c_job |}.

(** A job done without any transcript. *)
Definition silent_job : json :=
  JDict [("status_changes", JList [JDict [("code", JStr "done")]]);
         ("recordings", JList [JDict []])].

(** A job whose first recording embeds its transcript and has no URL. *)
Definition embedded_job : json :=
  JDict [("status_changes", JList [JDict [("code", JStr "done")]]);
         ("recordings", JList [JDict [("transcript", JStr "hello world")]])].

Definition sample_job : json :=
  JDict [("status_changes", JList [JDict [("code", JStr "joining_call")];
                                   JDict [("code", JStr "in_call_recording")]]);
         ("recordings", JList [])].

(** Scenario B: no history, one recording. *)
Definition instant_job : json :=
  JDict [("status_changes", JList []); ("recordings", JList [JDict []])].

Definition fresh_bot : RecallAIBot := mkBot None JNull.

Definition recorded_job : json :=
  JDict [("status_changes", JList [JDict [("code", JStr "done")]]);
         ("recordings",
          JList [JDict [("media_shortcuts",
                         JDict [("video_mixed",
                                 JDict [("data", JDict [("download_url", JStr "https://v/1.mp4")])]);
                                ("transcript",
                                 JDict [("data", JDict [("download_url", JStr "https://t/1.json")])])])]])].

Definition sample_status : bot_status :=
  {| bs_bot_id := "b1";
     bs_status := JStr "in_call_recording";
     bs_bot_name := JNull;
     bs_created_at := JNull;
     bs_status_changes :=
       JList [JDict [("code", JStr "joining_call")];
              JDict [("code", JStr "in_call_recording")]];
     bs_data := sample_job |}.

(** External services for the examples: a transcript that downloads, a
    completion provider that fails for the email only (scenario D), one
    that always fails, and a store that takes every row. *)
Definition sample_download (url : json) : option string :=
  Some "Ann: hello. Bob: hi.".

Definition email_fails (content_type : string) (recipient : option string)
    (message : string) : exn string :=
  if String.eqb content_type "email" then Raise else Ok ("text of " ++ content_type).

Definition always_fails (content_type : string) (recipient : option string)
    (message : string) : exn string := Raise.

Definition accept_all (row : output_row) : bool := true.

Definition plain_str (x : json) : string :=
  match x with JStr s => s | _ => "" end.

Definition failed_download (url : json) : option string := None.

Definition sample_process (download_transcript : json -> option string)
    (chat_completion : string -> option string -> string -> exn string)
    (st : @state unit) (api : provider) (id : string) : @state unit :=
  _process_completed_meeting unit_embeddings (fun _ _ => 0) download_transcript
    chat_completion accept_all plain_str (fun s => s) (fun _ => true)
    (fun n => "00000000-0000-4000-8000-" ++ pretty n) st api id.

(** An embedding provider that is down. *)
Definition failing_embeddings (texts : list string) : exn (list unit) := Raise.

(** A store holding one file of two chunks for the sub-unit [legal] of the
    organisation [acme]. *)
Definition notes_store : gmap string (list (stored_chunk unit)) :=
  (store_document_chunks unit_embeddings ∅ "acme" "f1" "notes.txt"
     ["alpha"; "beta"] (Some "legal")).1.

(** The same store after a second file of one chunk. *)
Definition two_files_store : gmap string (list (stored_chunk unit)) :=
  (store_document_chunks unit_embeddings notes_store "acme" "f2" "more.txt"
     ["gamma"] (Some "legal")).1.

(** A meeting started without a user. *)
Definition anonymous_service : @state unit :=
  (start_meeting_recording idle_service (Success "b1") "https://meet.example/abc"
     "m1" "acme" None None ["ann@example.com"] "Standup").1.

Definition anonymous_standup : meeting_data :=
  mkMeeting "m1" "b1" "https://meet.example/abc" "acme" None None
    ["ann@example.com"] "Standup" (JStr "recording") 0 false None.

(** An upload with the suffix [.TXT] whose file reads as the given text. *)
Definition sample_suffix (filename : string) : string := ".TXT".

Definition sample_save (filename client_id : string) : exn string :=
  Ok ("uploads/" ++ client_id ++ "/" ++ filename).

Definition sample_ingest (embed : list string -> exn (list unit)) (content : string)
    (db : gmap string (list (stored_chunk unit)))
    : gmap string (list (stored_chunk unit)) * ingest_result :=
  process_and_store_file embed sample_suffix (fun _ => Raise) (fun _ => Raise)
    (fun _ => Raise) (fun _ => Ok content) sample_save db "notes.TXT" "acme" "f3"
    (Some "legal").

(** * Properties *)

(** ** The exception monad *)

Lemma bind_Ok {A B} (m : exn A) (f : A -> exn B) (b : B) :
  m ≫= f = Ok b -> exists a, m = Ok a /\ f a = Ok b.
Proof. destruct m as [a|]; simpl; [eauto | discriminate]. Qed.

Lemma py_get_Ok x k dflt v :
  py_get x k dflt = Ok v -> exists d, x = JDict d /\ v = default dflt (dict_lookup d k).
Proof. destruct x; simpl; try discriminate. intros [= <-]. eauto. Qed.

(** ** recall_service.py *)

Example poll_sample_job :
  bs_status <$> (match get_bot_status fresh_bot (fun _ => Ok sample_job) (Some "b1") with
                 | Success r => Some r | Failure _ => None end)
  = Some (JStr "in_call_recording").
Proof. reflexivity. Qed.

Example poll_instant_job :
  bs_status <$> (match get_bot_status fresh_bot (fun _ => Ok instant_job) (Some "b1") with
                 | Success r => Some r | Failure _ => None end)
  = Some (JStr "done").
Proof. reflexivity. Qed.

Lemma current_status_inv history (bot_data status : json) :
  (if truthy history then
     last_change ← py_last history; py_get last_change "code" (JStr "unknown")
   else
     recordings ← py_get bot_data "recordings" (JList []);
     mret (if truthy recordings then JStr "done" else JStr "waiting_to_join"))
  = Ok status ->
  (exists earlier last_change,
      history = JList (earlier ++ [last_change]) /\
      py_get last_change "code" (JStr "unknown") = Ok status)
  \/ (truthy history = false /\
      exists recordings,
        py_get bot_data "recordings" (JList []) = Ok recordings /\
        status = if truthy recordings then JStr "done" else JStr "waiting_to_join").
Proof.
  destruct (truthy history) eqn:Ht; intros H.
  - left. apply bind_Ok in H as (e & Hlast & Hcode).
    destruct history as [| | | s | l | d]; simpl in Hlast; try discriminate.
    + destruct (last_char s); [|discriminate].
      injection Hlast as <-. discriminate Hcode.
    + destruct (last l) as [e'|] eqn:Hl; [|discriminate].
      injection Hlast as ->. apply last_Some in Hl as [earlier ->]. eauto.
  - right. split; [reflexivity|].
    apply bind_Ok in H as (recs & Hrecs & Hst). injection Hst as <-. eauto.
Qed.

Lemma id_or_Some (id : string) (b : option string) :
  id <> "" -> id_or (Some id) b = Some id.
Proof. intros Hid. unfold id_or. simpl. apply String.eqb_neq in Hid. by rewrite Hid. Qed.

Lemma id_present_nonempty (a : option string) (id : string) :
  id_present a = Some id -> id <> "".
Proof.
  destruct a as [s|]; simpl; [|done].
  destruct (String.eqb_spec s ""); [done|]. by intros [= <-].
Qed.

(** The identifier a method goes on with is never empty, and asking for it
    by name gives it again. *)
Lemma id_or_inv (a b : option string) (id : string) :
  id_or a b = Some id -> id <> "" /\ id_or (Some id) b = Some id.
Proof.
  intros H. assert (Hid : id <> "").
  { unfold id_or in H. destruct (id_present a) as [s|] eqn:Ha.
    - injection H as <-. by apply (id_present_nonempty a).
    - by apply (id_present_nonempty b). }
  split; [done | by apply id_or_Some].
Qed.

(** The poll of a job whose data is an object: what the [try] body does
    on a history that ends with an object, and on an empty history. *)
Lemma status_of_bot_data_dict bot_id d :
  let history := default (JList []) (dict_lookup d "status_changes") in
  let recordings := default (JList []) (dict_lookup d "recordings") in
  (forall earlier e, history = JList (earlier ++ [JDict e]) ->
     exists r, status_of_bot_data bot_id (JDict d) = Ok r /\
               bs_status r = default (JStr "unknown") (dict_lookup e "code")) /\
  (truthy history = false ->
     exists r, status_of_bot_data bot_id (JDict d) = Ok r /\
               bs_status r = if truthy recordings then JStr "done"
                             else JStr "waiting_to_join").
Proof.
  intros history recordings. unfold status_of_bot_data. simpl. fold history. split.
  - intros earlier e Hh. rewrite Hh.
    assert (Ht : truthy (JList (earlier ++ [JDict e])) = true) by (by destruct earlier).
    rewrite Ht. simpl. rewrite last_snoc. simpl. eauto.
  - intros Ht. rewrite Ht. simpl. eauto.
Qed.

(** C8: every successful poll returns the job data the provider sent for
    the polled id, with a status that is the [code] of the last entry of
    its [status_changes] ([unknown] when that entry carries none), or, with
    no history, [done] when [recordings] is non-empty and [waiting_to_join]
    otherwise.  And the poll does succeed in these cases: for job data that
    is an object, when the history ends with an object the poll succeeds
    with that entry's code, and when the history is empty it succeeds with
    [done] or [waiting_to_join] as the recordings say. *)
Theorem get_bot_status_last_code self api bot_id :
  (forall r, get_bot_status self api bot_id = Success r ->
     exists id history,
       id_or bot_id (self_bot_id self) = Some id /\
       api id = Ok (bs_data r) /\
       py_get (bs_data r) "status_changes" (JList []) = Ok history /\
       ((exists earlier last_change,
            history = JList (earlier ++ [last_change]) /\
            py_get last_change "code" (JStr "unknown") = Ok (bs_status r))
        \/ (truthy history = false /\
            exists recordings,
              py_get (bs_data r) "recordings" (JList []) = Ok recordings /\
              bs_status r =
                if truthy recordings then JStr "done" else JStr "waiting_to_join"))) /\
  (forall id d,
     id_or bot_id (self_bot_id self) = Some id ->
     api id = Ok (JDict d) ->
     let history := default (JList []) (dict_lookup d "status_changes") in
     let recordings := default (JList []) (dict_lookup d "recordings") in
     (forall earlier e, history = JList (earlier ++ [JDict e]) ->
        exists r, get_bot_status self api bot_id = Success r /\
                  bs_data r = JDict d /\
                  bs_status r = default (JStr "unknown") (dict_lookup e "code")) /\
     (truthy history = false ->
        exists r, get_bot_status self api bot_id = Success r /\
                  bs_data r = JDict d /\
                  bs_status r = if truthy recordings then JStr "done"
                                else JStr "waiting_to_join")).
Proof.
  split.
  - unfold get_bot_status. intros r H.
    destruct (id_or bot_id (self_bot_id self)) as [id|]; [|discriminate].
    destruct (api id) as [bot_data|] eqn:Hapi; [|discriminate]. simpl in H.
    destruct (status_of_bot_data id bot_data) as [r'|] eqn:Hs; [|discriminate].
    injection H as ->. unfold status_of_bot_data in Hs.
    apply bind_Ok in Hs as (history & Hh & Hs).
    apply bind_Ok in Hs as (st & Hst & Hs).
    apply bind_Ok in Hs as (name & _ & Hs).
    apply bind_Ok in Hs as (created & _ & Hs).
    injection Hs as <-. simpl.
    exists id, history. repeat split; try assumption.
    apply current_status_inv in Hst. exact Hst.
  - intros id d Hid Hapi history recordings.
    assert (Hdata : forall r, status_of_bot_data id (JDict d) = Ok r -> bs_data r = JDict d).
    { unfold status_of_bot_data. intros r Hs.
      apply bind_Ok in Hs as (h & _ & Hs). apply bind_Ok in Hs as (c & _ & Hs).
      apply bind_Ok in Hs as (n & _ & Hs). apply bind_Ok in Hs as (t & _ & Hs).
      by injection Hs as <-. }
    destruct (status_of_bot_data_dict id d) as [Hlast Hempty].
    unfold get_bot_status. rewrite Hid, Hapi. simpl. split.
    + intros earlier e Hh. destruct (Hlast earlier e Hh) as (r & Hr & Hs).
      exists r. rewrite Hr. split; [done|]. split; [by apply Hdata | done].
    + intros Ht. destruct (Hempty Ht) as (r & Hr & Hs).
      exists r. rewrite Hr. split; [done|]. split; [by apply Hdata | done].
Qed.

(** Scenario B, no history and one recording, and a job with a history. *)
Lemma get_bot_status_last_code_witness :
  (exists r, get_bot_status fresh_bot (fun _ => Ok instant_job) (Some "b1") = Success r /\
             bs_data r = instant_job /\ bs_status r = JStr "done") /\
  (exists r, get_bot_status fresh_bot (fun _ => Ok sample_job) (Some "b1") = Success r /\
             bs_data r = sample_job /\ bs_status r = JStr "in_call_recording").
Proof.
  split.
  - destruct (get_bot_status_last_code fresh_bot (fun _ => Ok instant_job) (Some "b1"))
      as [_ H].
    destruct (H "b1" [("status_changes", JList []); ("recordings", JList [JDict []])]
                eq_refl eq_refl) as [_ Hempty].
    exact (Hempty eq_refl).
  - destruct (get_bot_status_last_code fresh_bot (fun _ => Ok sample_job) (Some "b1"))
      as [_ H].
    destruct (H "b1" [("status_changes", JList [JDict [("code", JStr "joining_call")];
                                                JDict [("code", JStr "in_call_recording")]]);
                      ("recordings", JList [])]
                eq_refl eq_refl) as [Hlast _].
    exact (Hlast [JDict [("code", JStr "joining_call")]]
             [("code", JStr "in_call_recording")] eq_refl).
Defined.

(** C9, as the code has it: a successful [get_bot_data] leaves the data it
    returns in the cache, be it the data cached before or the provider's
    answer for the id asked.  When that data is what Python takes for true
    (the test [get_bot_data] itself applies), a later call without
    [force_refresh] returns it for any other bot id, whatever the provider
    would answer, and leaves the instance as it is; when it is empty, the
    later call asks the provider for the id it is given. *)
Theorem get_bot_data_cache_ignores_bot_id self api api' a b force self1 d :
  get_bot_data self api a force = (self1, Success d) ->
  b <> "" ->
  self_bot_data self1 = d /\
  ((self1 = self /\ truthy (self_bot_data self) = true /\ force = false) \/
   (exists id, id_or a (self_bot_id self) = Some id /\ api id = Ok d /\
               self1 = mkBot (self_bot_id self) d)) /\
  get_bot_data self1 api' (Some b) false
  = if truthy d then (self1, Success d)
    else match api' b with
         | Ok d' => (mkBot (self_bot_id self1) d', Success d')
         | Raise => (self1, Failure "Bot data error")
         end.
Proof.
  intros Hfirst Hb.
  assert (Hcache : self_bot_data self1 = d /\
            ((self1 = self /\ truthy (self_bot_data self) = true /\ force = false) \/
             (exists id, id_or a (self_bot_id self) = Some id /\ api id = Ok d /\
                         self1 = mkBot (self_bot_id self) d))).
  { unfold get_bot_data in Hfirst.
    destruct (id_or a (self_bot_id self)) as [id|]; [|discriminate].
    destruct (truthy (self_bot_data self)) eqn:Ht; destruct force; simpl in Hfirst.
    - destruct (api id) eqn:Hapi; [|discriminate]. injection Hfirst as <- <-. eauto 10.
    - injection Hfirst as <- <-. eauto 10.
    - destruct (api id) eqn:Hapi; [|discriminate]. injection Hfirst as <- <-. eauto 10.
    - destruct (api id) eqn:Hapi; [|discriminate]. injection Hfirst as <- <-. eauto 10. }
  destruct Hcache as [Hcache Hfrom]. split; [done|]. split; [done|].
  unfold get_bot_data. rewrite (id_or_Some b _ Hb), Hcache.
  destruct (truthy d); simpl; [by rewrite <- Hcache | done].
Qed.

Lemma get_bot_data_cache_ignores_bot_id_witness :
  let api := fun id : string =>
    if String.eqb id "bot-A" then Ok sample_job else Ok instant_job in
  let cached := (get_bot_data fresh_bot api (Some "bot-A") false).1 in
  self_bot_data cached = sample_job /\
  get_bot_data cached api (Some "bot-B") false = (cached, Success sample_job) /\
  api "bot-B" = Ok instant_job.
Proof.
  intros api cached.
  destruct (get_bot_data_cache_ignores_bot_id fresh_bot api api (Some "bot-A") "bot-B"
              false cached sample_job eq_refl ltac:(discriminate))
    as (Hcache & _ & Hlater).
  split; [exact Hcache|]. split; [exact Hlater | reflexivity].
Defined.

(** C9 as stated fails: a fetch that the provider answers with an empty
    object populates the cache with it, and the next call, for another id,
    asks the provider again. *)
Lemma get_bot_data_refetches_empty_cache :
  ~ (forall self api api' a b force self1 d,
       get_bot_data self api a force = (self1, Success d) ->
       b <> "" ->
       get_bot_data self1 api' (Some b) false = (self1, Success d)).
Proof.
  intros H.
  specialize (H fresh_bot (fun _ => Ok (JDict [])) (fun _ => Ok sample_job)
                (Some "bot-A") "bot-B" false (mkBot None (JDict [])) (JDict [])
                eq_refl ltac:(discriminate)).
  discriminate H.
Qed.

(** C10: in every success dict of [get_download_urls] the audio URL is the
    video URL and [chat_messages_url] is [None]. *)
Theorem get_download_urls_audio_is_video self api bot_id self' r :
  get_download_urls self api bot_id = (self', Success r) ->
  audio_url r = video_url r /\ chat_messages_url r = JNull.
Proof.
  unfold get_download_urls. intros H.
  destruct (id_or bot_id (self_bot_id self)) as [id|]; [|discriminate].
  destruct (get_bot_data self api (Some id) true) as [self1 [bot_data|e]]; [|discriminate].
  destruct (urls_of_bot_data id bot_data) as [r'|] eqn:Hu; [|discriminate].
  injection H as _ ->. unfold urls_of_bot_data in Hu.
  apply bind_Ok in Hu as ([video transcript] & _ & Hu).
  apply bind_Ok in Hu as (history & _ & Hu).
  apply bind_Ok in Hu as (st & _ & Hu).
  injection Hu as <-. by split.
Qed.

Lemma get_download_urls_audio_is_video_witness :
  exists r,
    (get_download_urls fresh_bot (fun _ => Ok recorded_job) (Some "b1")).2 = Success r /\
    video_url r = JStr "https://v/1.mp4" /\
    audio_url r = video_url r /\ chat_messages_url r = JNull.
Proof.
  eexists. split; [reflexivity|]. split; [reflexivity|].
  eapply (get_download_urls_audio_is_video fresh_bot (fun _ => Ok recorded_job) (Some "b1")).
  reflexivity.
Defined.

(** ** file_processor.py *)

Lemma adjust_nonneg n i : 0 <= i -> adjust n i = Z.min i n.
Proof. unfold adjust. intros. destruct (Z.ltb_spec i 0); lia. Qed.

Lemma adjust_range n i : 0 <= n -> 0 <= adjust n i <= n.
Proof. unfold adjust. intros. destruct (Z.ltb_spec i 0); lia. Qed.

Lemma length_slice (t : text) i j :
  List.length (slice t i j)
  = Nat.min (Z.to_nat (adjust (len t) j - adjust (len t) i))
            (List.length t - Z.to_nat (adjust (len t) i)).
Proof. unfold slice. by rewrite length_take, length_drop. Qed.

Lemma len_slice (t : text) i j :
  0 <= i <= len t -> i <= j -> len (slice t i j) = Z.min j (len t) - i.
Proof.
  intros Hi Hj. unfold len at 1. rewrite length_slice.
  rewrite !adjust_nonneg by lia. unfold len in *. lia.
Qed.

Lemma last_index_lt c (t : text) k : last_index c t = Some k -> (k < List.length t)%nat.
Proof.
  revert k. induction t as [|x t IH]; simpl; intros k; [discriminate|].
  destruct (last_index c t) as [i|].
  - intros [= <-]. specialize (IH i eq_refl). lia.
  - destruct (Ascii.eqb x c); [|discriminate]. intros [= <-]. lia.
Qed.

Lemma rfind_range (t : text) c i j :
  rfind t c i j = -1 \/
  adjust (len t) i <= rfind t c i j < adjust (len t) j.
Proof.
  unfold rfind. destruct (last_index c (slice t i j)) as [k|] eqn:Hk; [right | by left].
  apply last_index_lt in Hk. rewrite length_slice in Hk.
  pose proof (adjust_range (len t) i). pose proof (adjust_range (len t) j).
  unfold len in *. lia.
Qed.

Section ChunkLoop.
Variable t : text.
Variables chunk_size overlap : Z.
Hypothesis size_ok : 100 <= chunk_size.
Hypothesis overlap_ok : 0 <= overlap <= chunk_size - 100.

Lemma window_end_bounds start :
  0 <= start ->
  start + chunk_size - 99 <= window_end t chunk_size start <= start + chunk_size.
Proof.
  intros Hs. unfold window_end.
  destruct (Z.ltb_spec (start + chunk_size) (len t)) as [Hlt|Hge]; [|lia].
  destruct (rfind_range t "."%char (start + chunk_size - 100) (start + chunk_size))
    as [-> | Hr].
  - destruct (Z.gtb_spec (-1) start); lia.
  - rewrite !adjust_nonneg in Hr by lia.
    destruct (Z.gtb_spec (rfind t "."%char (start + chunk_size - 100) (start + chunk_size)) start);
      lia.
Qed.

(** With enough fuel the loop ends, and its windows cover the text from
    [start] on. *)
Lemma window_loop_covers fuel : forall start,
  0 <= start <= len t ->
  len t - start < Z.of_nat fuel ->
  exists windows,
    window_loop fuel t chunk_size overlap start = Some windows /\
    (start < len t -> len t - start <= total_length windows) /\
    Forall (fun w => exists i j, w = slice t i j) windows.
Proof.
  induction fuel as [|fuel IH]; intros start Hs Hf.
  { lia. }
  simpl. destruct (Z.ltb_spec start (len t)) as [Hlt|Hge].
  2:{ exists []. split; [done|]. split; [lia | constructor]. }
  pose proof (window_end_bounds start (proj1 Hs)) as Hend.
  set (end_ := window_end t chunk_size start) in *.
  assert (Hw : len (slice t start end_) = Z.min end_ (len t) - start)
    by (apply len_slice; lia).
  destruct (Z.geb_spec (end_ - overlap) (len t)) as [Hstop|Hmore].
  - exists [slice t start end_]. split; [done|]. split.
    + intros _. simpl. lia.
    + repeat constructor. eauto.
  - destruct (IH (end_ - overlap)) as (ws & -> & Hcov & Hall); [lia | lia |].
    exists (slice t start end_ :: ws). split; [done|]. split.
    + intros _. simpl. specialize (Hcov ltac:(lia)). lia.
    + constructor; eauto.
Qed.

(** The chunks are the stripped windows, the empty ones left out. *)
Lemma chunk_loop_windows fuel : forall start chunks,
  chunk_loop fuel t chunk_size overlap start chunks
  = (fun windows => (chunks ++ List.concat (kept <$> windows))%list)
      <$> window_loop fuel t chunk_size overlap start.
Proof.
  induction fuel as [|fuel IH]; intros start chunks; [done|].
  simpl. destruct (start <? len t); simpl.
  2:{ by rewrite app_nil_r. }
  set (w := slice t start (window_end t chunk_size start)).
  assert (Hk : (if nonempty (strip w) then (chunks ++ [strip w])%list else chunks)
               = (chunks ++ kept w)%list).
  { unfold kept. destruct (nonempty (strip w)); by rewrite ?app_nil_r. }
  rewrite Hk.
  destruct (window_end t chunk_size start - overlap >=? len t); simpl.
  - by rewrite app_nil_r.
  - rewrite IH. destruct (window_loop fuel t chunk_size overlap _); simpl; [|done].
    by rewrite <- app_assoc.
Qed.
End ChunkLoop.

Lemma lstrip_no_space (w : text) : no_space w -> lstrip w = w.
Proof. destruct 1 as [|c w Hc _]; simpl; [done|]. by rewrite Hc. Qed.

Lemma strip_no_space (w : text) : no_space w -> strip w = w.
Proof.
  intros Hw. unfold strip, rstrip. rewrite (lstrip_no_space w Hw).
  rewrite lstrip_no_space; [apply rev_involutive|].
  unfold no_space. by apply Forall_rev.
Qed.

Lemma total_length_cons (w : text) (ws : list text) :
  total_length (w :: ws) = len w + total_length ws.
Proof. reflexivity. Qed.

Lemma total_length_app (a b : list text) :
  total_length (a ++ b) = total_length a + total_length b.
Proof. induction a as [|x a IH]; simpl; [done|]. rewrite IH. lia. Qed.

Lemma total_length_kept (windows : list text) :
  Forall no_space windows ->
  total_length (List.concat (kept <$> windows)) = total_length windows.
Proof.
  induction 1 as [|w ws Hw _ IH]; [done|].
  rewrite fmap_cons.
  change (List.concat (kept w :: (kept <$> ws)))
    with (kept w ++ List.concat (kept <$> ws))%list.
  rewrite total_length_app, IH, total_length_cons.
  unfold kept. rewrite (strip_no_space w Hw).
  destruct w; cbn [nonempty]; rewrite ?total_length_cons;
    change (total_length []) with 0; [change (len []) with 0|]; lia.
Qed.

Lemma slice_no_space (t : text) i j : no_space t -> no_space (slice t i j).
Proof. intros H. unfold slice, no_space. by apply Forall_take, Forall_drop. Qed.

Example chunk_text_scenario_a :
  (fun chunks : list text => map (@List.length ascii) chunks)
    <$> chunk_text 2401 (repeat "x"%char 2400) 1000 200
  = Some [1000; 1000; 800]%nat.
Proof. vm_compute. reflexivity. Qed.

(** C6, as the code has it: for every non-empty text [chunk_text] with
    windows of 1000 characters and an overlap of 200 ends; the windows it
    cuts have a total length of at least the length of the text; what it
    returns are these windows stripped of the whitespace around them, the
    empty ones left out, when the text has 1000 characters or more, and the
    text itself otherwise; so when the text has no whitespace the returned
    chunks have a total length of at least the length of the text. *)
Theorem chunk_text_windows_cover fuel (t : text) :
  t <> [] ->
  (List.length t < fuel)%nat ->
  exists windows chunks,
    chunk_windows fuel t 1000 200 = Some windows /\
    chunk_text fuel t 1000 200 = Some chunks /\
    chunks = (if len t <? 1000 then windows else List.concat (kept <$> windows)) /\
    len t <= total_length windows /\
    (no_space t -> len t <= total_length chunks).
Proof.
  intros Hne Hfuel. unfold chunk_windows, chunk_text.
  assert (Ht : nonempty t = true) by (by destruct t).
  rewrite Ht. cbn [negb orb].
  destruct (len t <? 1000) eqn:Hshort.
  - exists [t], [t]. rewrite total_length_cons. change (total_length []) with 0.
    repeat split; try done; lia.
  - destruct (window_loop_covers t 1000 200 ltac:(lia) ltac:(lia) fuel 0)
      as (windows & Hw & Hcov & Hall).
    { unfold len. lia. }
    { unfold len. lia. }
    exists windows, (List.concat (kept <$> windows)).
    rewrite chunk_loop_windows, Hw.
    assert (0 < len t) by (destruct t; [done | unfold len; simpl; lia]).
    repeat split; try done; [lia|].
    intros Hns. rewrite total_length_kept; [lia|].
    eapply Forall_impl; [exact Hall|].
    intros w (i & j & ->). by apply slice_no_space.
Qed.

Lemma chunk_text_windows_cover_witness :
  exists windows chunks,
    chunk_windows 1201 padded 1000 200 = Some windows /\
    chunk_text 1201 padded 1000 200 = Some chunks /\
    chunks = (if len padded <? 1000 then windows else List.concat (kept <$> windows)) /\
    len padded <= total_length windows /\
    (no_space padded -> len padded <= total_length chunks).
Proof.
  apply (chunk_text_windows_cover 1201 padded).
  - discriminate.
  - vm_compute. lia.
Defined.

(** C6 as stated fails: of the 1200 characters of [padded] two come
    back. *)
Lemma chunk_text_drops_characters :
  ~ (forall fuel (t : text) chunks,
       t <> [] ->
       chunk_text fuel t 1000 200 = Some chunks ->
       len t <= total_length chunks).
Proof.
  intros H.
  specialize (H 1201%nat padded [["a"%char]; ["b"%char]]).
  assert (Hlen : len padded = 1200) by (vm_compute; reflexivity).
  rewrite Hlen in H. 
  assert (Hrun : chunk_text 1201 padded 1000 200 = Some [["a"%char]; ["b"%char]])
    by (vm_compute; reflexivity).
  specialize (H ltac:(discriminate) Hrun).
  vm_compute in H. by apply H.
Qed.

(** ** vector_store.py *)

Lemma underscore_free_cons a s :
  underscore_free (String a s) <-> a <> "_"%char /\ underscore_free s.
Proof.
  unfold underscore_free. simpl. split.
  - by inversion 1.
  - intros [? ?]. by constructor.
Qed.

Lemma append_cons a (s r : string) : String a s ++ r = String a (s ++ r).
Proof. reflexivity. Qed.

Lemma append_nil (r : string) : "" ++ r = r.
Proof. reflexivity. Qed.

Lemma append_empty (c : string) : c ++ "" = c.
Proof. induction c as [|a c IH]; [done | by rewrite append_cons, IH]. Qed.

Lemma get_collection_name_suffix c s :
  get_collection_name c s = "client_" ++ c ++ sub_suffix s.
Proof.
  unfold get_collection_name, sub_suffix.
  destruct (id_present s); [done | by rewrite append_empty].
Qed.

Lemma sub_suffix_head s : sub_suffix s = "" \/ exists r, sub_suffix s = String "_"%char r.
Proof.
  unfold sub_suffix. destruct (id_present s); [right | by left].
  rewrite append_cons. eauto.
Qed.

Lemma append_underscore_free_inj c1 : forall c2 r1 r2,
  underscore_free c1 -> underscore_free c2 ->
  (r1 = "" \/ exists r, r1 = String "_"%char r) ->
  (r2 = "" \/ exists r, r2 = String "_"%char r) ->
  c1 ++ r1 = c2 ++ r2 -> c1 = c2 /\ r1 = r2.
Proof.
  induction c1 as [|a c1 IH]; intros [|b c2] r1 r2 H1 H2 Hr1 Hr2 Heq;
    rewrite ?append_cons, ?append_nil in Heq.
  - done.
  - apply underscore_free_cons in H2 as [Hb _].
    destruct Hr1 as [-> | [r ->]]; [discriminate|]. injection Heq as <- _. done.
  - apply underscore_free_cons in H1 as [Ha _].
    destruct Hr2 as [-> | [r ->]]; [discriminate|]. injection Heq as -> _. done.
  - injection Heq as -> Heq.
    apply underscore_free_cons in H1 as [_ H1]. apply underscore_free_cons in H2 as [_ H2].
    destruct (IH c2 r1 r2 H1 H2 Hr1 Hr2 Heq) as [-> ->]. done.
Qed.

Lemma get_collection_name_inj c1 s1 c2 s2 :
  underscore_free c1 -> underscore_free c2 ->
  get_collection_name c1 s1 = get_collection_name c2 s2 ->
  same_scope c1 s1 c2 s2.
Proof.
  intros H1 H2. rewrite !get_collection_name_suffix. intros Heq.
  rewrite !append_cons, !append_nil in Heq. injection Heq as Heq.
  destruct (append_underscore_free_inj c1 c2 _ _ H1 H2
              (sub_suffix_head s1) (sub_suffix_head s2) Heq) as [-> Hs].
  split; [done|]. unfold sub_suffix in Hs.
  destruct (id_present s1), (id_present s2);
    rewrite ?append_cons, ?append_nil in Hs; try discriminate; [|done].
  by injection Hs as ->.
Qed.

Section StoreFacts.
Context {embedding : Type}.
Variable create_embeddings : list string -> exn (list embedding).
Variable distance : embedding -> embedding -> Z.

(** A store touches the collection of its own scope only. *)
Lemma store_document_chunks_other (db : gmap string (list (stored_chunk embedding)))
    client_id file_id filename text_chunks sub_client_id name :
  name <> get_collection_name client_id sub_client_id ->
  (store_document_chunks create_embeddings db client_id file_id filename
     text_chunks sub_client_id).1 !! name = db !! name.
Proof.
  intros Hne. unfold store_document_chunks.
  destruct sub_client_id as [sub|]; [|done].
  destruct (create_embeddings text_chunks) as [embeddings|]; simpl.
  - case_bool_decide; simpl; by rewrite ?lookup_insert_ne.
  - by rewrite lookup_insert_ne.
Qed.

(** A search reads the collection of its own scope only. *)
Lemma search_knowledge_base_ext (db db' : gmap string (list (stored_chunk embedding)))
    query client_id sub_client_id n :
  db' !! get_collection_name client_id sub_client_id
    = db !! get_collection_name client_id sub_client_id ->
  search_knowledge_base create_embeddings distance db' query client_id sub_client_id n
  = search_knowledge_base create_embeddings distance db query client_id sub_client_id n.
Proof. intros H. unfold search_knowledge_base. by rewrite H. Qed.

(** What a search returns are documents of the collection of its
    scope. *)
Lemma search_knowledge_base_from_collection
    (db : gmap string (list (stored_chunk embedding)))
    query client_id sub_client_id n r :
  r ∈ search_knowledge_base create_embeddings distance db query client_id sub_client_id n ->
  exists collection c,
    db !! get_collection_name client_id sub_client_id = Some collection /\
    c ∈ collection /\ sr_text r = chunk_document c /\
    sr_metadata r = chunk_metadata_of c.
Proof.
  unfold search_knowledge_base.
  destruct (db !! get_collection_name client_id sub_client_id) as [collection|];
    [|by intros ?%elem_of_nil].
  destruct (create_embeddings [query]) as [[|q qs]|]; try by intros ?%elem_of_nil.
  intros (c & -> & Hc)%list_elem_of_fmap.
  exists collection, c. split; [done|]. split; [|done].
  unfold collection_query in Hc.
  apply elem_of_take in Hc as (i & Hc & _).
  apply list_elem_of_lookup_2 in Hc.
  by rewrite merge_sort_Permutation in Hc.
Qed.
End StoreFacts.

(** C7, as the code has it: when neither organisation identifier contains
    an underscore and the two scopes differ (an empty sub-unit counting as
    none), storing chunks under one scope changes the result of no search
    under the other. *)
Theorem scopes_isolated {embedding : Type}
    (create_embeddings : list string -> exn (list embedding))
    (distance : embedding -> embedding -> Z)
    (db : gmap string (list (stored_chunk embedding)))
    c1 s1 c2 s2 file_id filename text_chunks query n :
  underscore_free c1 -> underscore_free c2 ->
  ~ same_scope c1 s1 c2 s2 ->
  search_knowledge_base create_embeddings distance
    (store_document_chunks create_embeddings db c1 file_id filename text_chunks s1).1
    query c2 s2 n
  = search_knowledge_base create_embeddings distance db query c2 s2 n.
Proof.
  intros H1 H2 Hscope. apply search_knowledge_base_ext.
  apply store_document_chunks_other. intros Heq. apply Hscope.
  symmetry in Heq. by apply get_collection_name_inj.
Qed.

(** C7 as stated fails: the sub-unit [b] of the organisation [a] and the
    organisation [a_sub_b] share the collection [client_a_sub_b], so what is
    stored for the former is found by a search for the latter alone. *)
Lemma scopes_collide :
  ~ (forall (create_embeddings : list string -> exn (list unit))
            (distance : unit -> unit -> Z)
            (db : gmap string (list (stored_chunk unit)))
            c1 s1 c2 s2 file_id filename text_chunks query n,
       ~ same_scope c1 s1 c2 s2 ->
       search_knowledge_base create_embeddings distance
         (store_document_chunks create_embeddings db c1 file_id filename text_chunks s1).1
         query c2 s2 n
       = search_knowledge_base create_embeddings distance db query c2 s2 n).
Proof.
  intros H.
  specialize (H unit_embeddings (fun _ _ => 0) ∅ "a" (Some "b") "a_sub_b" None
                "f1" "secret.txt" ["payroll"] "salary" 5%nat).
  assert (Hne : ~ same_scope "a" (Some "b") "a_sub_b" None) by (intros [? _]; discriminate).
  specialize (H Hne).
  vm_compute in H. discriminate H.
Qed.

(** What the sub-unit [hr] of [acme] holds is found by its own searches,
    before and after a store for the sub-unit [legal]. *)
Lemma scopes_isolated_witness :
  let db := (store_document_chunks unit_embeddings ∅ "acme" "f0" "pay.txt"
               ["salaries"] (Some "hr")).1 in
  let db' := (store_document_chunks unit_embeddings db "acme" "f1" "notes.txt"
                ["contracts"] (Some "legal")).1 in
  search_knowledge_base unit_embeddings (fun _ _ => 0) db' "salary" "acme" (Some "hr") 5
  = search_knowledge_base unit_embeddings (fun _ _ => 0) db "salary" "acme" (Some "hr") 5 /\
  sr_text <$> search_knowledge_base unit_embeddings (fun _ _ => 0) db "salary" "acme"
                (Some "hr") 5 = ["salaries"] /\
  sr_text <$> search_knowledge_base unit_embeddings (fun _ _ => 0) db' "contract" "acme"
                (Some "legal") 5 = ["contracts"].
Proof.
  intros db db'. split; [|split; reflexivity].
  apply (scopes_isolated unit_embeddings (fun _ _ => 0) db "acme" (Some "legal")
           "acme" (Some "hr")).
  - repeat (constructor; [discriminate|]). constructor.
  - repeat (constructor; [discriminate|]). constructor.
  - intros [_ H]. discriminate H.
Defined.

(** ** meeting_intelligence.py: the monitor *)

Section MonitorFacts.
Context {embedding : Type}.
Implicit Types st : @state embedding.

Lemma with_status_twice s s' m : with_status s (with_status s' m) = with_status s m.
Proof. reflexivity. Qed.

Lemma with_status_same m : with_status (status m) m = m.
Proof. by destruct m. Qed.

Lemma set_status_lookup st id s s' m :
  active_meetings st !! id = Some (with_status s' m) ->
  active_meetings (set_status id s st) !! id = Some (with_status s m).
Proof.
  intros H. unfold set_status, set_meetings. simpl.
  rewrite lookup_alter_eq, H. reflexivity.
Qed.

(** The loop does what [monitor_outcome] says of the polled codes, and it
    schedules the processing when it leaves on done, completed or
    finished. *)
Lemma monitor_loop_outcome polls : forall st id m s0,
  active_meetings st !! id = Some (with_status s0 m) ->
  let out := monitor_loop polls st id (bot_id m) in
  exists s,
    active_meetings out.1 !! id = Some (with_status s m) /\
    (s, out.2) = monitor_outcome s0 (polled_codes (recall_service st) polls (bot_id m)) /\
    tasks out.1
    = (tasks st ++ match out.2 with
                   | Exited =>
                       if str_in s ["done"; "completed"; "finished"]
                       then [ProcessTask id] else []
                   | Polling => []
                   end)%list.
Proof.
  induction polls as [|api polls IH]; intros st id m s0 Hm.
  { exists s0. cbn. by rewrite app_nil_r. }
  cbn [monitor_loop polled_codes omap list_omap]. unfold monitor_poll.
  destruct (get_bot_status (recall_service st) api (Some (bot_id m))) as [r|e].
  2:{ apply (IH st id m s0 Hm). }
  cbn [monitor_outcome].
  destruct (str_in (bs_status r) ["done"; "completed"; "finished"]) eqn:Hdone.
  { exists (bs_status r). cbn [fst snd]. rewrite Hdone.
    split; [by apply (set_status_lookup st id _ s0) | done]. }
  destruct (str_in (bs_status r) ["failed"; "error"]) eqn:Hfail.
  { exists (JStr "failed"). cbn [fst snd]. split; [|split; [done | by rewrite app_nil_r]].
    eapply set_status_lookup. by apply (set_status_lookup st id _ s0). }
  apply (IH (set_status id (bs_status r) st) id m (bs_status r)).
  by apply (set_status_lookup st id _ s0).
Qed.

(** A loop that has left did so on done, completed or finished, or with
    the status failed. *)
Lemma monitor_outcome_exited codes : forall s0 s,
  monitor_outcome s0 codes = (s, Exited) ->
  str_in s ["done"; "completed"; "finished"; "failed"] = true.
Proof.
  induction codes as [|c codes IH]; intros s0 s H; cbn [monitor_outcome] in H.
  { discriminate. }
  destruct (str_in c ["done"; "completed"; "finished"]) eqn:Hdone.
  { injection H as <-. destruct c as [| | |x| |]; try discriminate. simpl in *.
    repeat (destruct (String.eqb x _); [done|]). discriminate. }
  destruct (str_in c ["failed"; "error"]); [by injection H as <- | by eapply IH].
Qed.

(** Once the loop has left, later states of the provider are not looked
    at. *)
Lemma monitor_loop_exited polls : forall st id bot st' more,
  monitor_loop polls st id bot = (st', Exited) ->
  monitor_loop (polls ++ more) st id bot = (st', Exited).
Proof.
  induction polls as [|api polls IH]; intros st id bot st' more Hrun; simpl in *.
  { discriminate. }
  destruct (monitor_poll st api id bot) as [st1 [|]]; [by apply IH | done].
Qed.

(** C1, as the code has it: the monitor changes nothing of a session but
    its status.  The status is the one the session started with until a
    poll succeeds, and then the code polled last; the loop leaves at the
    first polled code that is done, completed or finished, scheduling the
    processing, or failed or error, which is stored as failed.  Once it has
    left, the status is done, completed, finished or failed and no later
    state of the provider changes the outcome. *)
Theorem monitor_status_transitions (polls : list provider) st id m :
  active_meetings st !! id = Some m ->
  let out := _monitor_meeting_completion polls st id in
  exists s,
    active_meetings out.1 !! id = Some (with_status s m) /\
    (s, out.2)
    = monitor_outcome (status m) (polled_codes (recall_service st) polls (bot_id m)) /\
    match out.2 with
    | Polling => tasks out.1 = tasks st
    | Exited =>
        str_in s ["done"; "completed"; "finished"; "failed"] = true /\
        tasks out.1
        = (tasks st ++ if str_in s ["done"; "completed"; "finished"]
                       then [ProcessTask id] else [])%list /\
        forall more, _monitor_meeting_completion (polls ++ more) st id = out
    end.
Proof.
  intros Hm. unfold _monitor_meeting_completion. rewrite Hm.
  assert (Hm0 : active_meetings st !! id = Some (with_status (status m) m))
    by (by rewrite with_status_same).
  destruct (monitor_loop_outcome polls st id m (status m) Hm0) as (s & Hm' & Hout & Htasks).
  exists s. split; [done|]. split; [done|].
  destruct (monitor_loop polls st id (bot_id m)) as [st' [|]] eqn:Hrun; cbn [fst snd] in *.
  - by rewrite Htasks, app_nil_r.
  - split; [by eapply monitor_outcome_exited|]. split; [done|].
    intros more. by apply monitor_loop_exited.
Qed.

End MonitorFacts.

Example started_service_registers attendees :
  active_meetings (started_service attendees) !! "m1" = Some (standup attendees).
Proof. unfold started_service. simpl. by rewrite lookup_insert_eq. Qed.

(** While the bot records, the session carries the provider's code. *)
Example monitor_stores_provider_codes :
  status <$> (active_meetings
     (_monitor_meeting_completion [fun _ => Ok sample_job] (started_service []) "m1").1
     !! "m1")
  = Some (JStr "in_call_recording").
Proof. vm_compute. reflexivity. Qed.

Lemma monitor_status_transitions_witness :
  let polls := [(fun _ => Raise) : provider; fun _ => Ok sample_job;
                fun _ => Ok recorded_job; fun _ => Ok sample_job] in
  let out := _monitor_meeting_completion polls (started_service []) "m1" in
  polled_codes (recall_service (started_service [])) polls "b1"
    = [JStr "in_call_recording"; JStr "done"; JStr "in_call_recording"] /\
  exists s,
    active_meetings out.1 !! "m1" = Some (with_status s (standup [])) /\
    (s, out.2) = (JStr "done", Exited) /\
    tasks out.1 = [MonitorTask "m1"; ProcessTask "m1"].
Proof.
  intros polls out. split; [reflexivity|].
  destruct (monitor_status_transitions polls (started_service []) "m1" (standup [])
              (started_service_registers [])) as (s & Hs & Hout & Hexit).
  fold out in Hs, Hout, Hexit.
  exists s. split; [exact Hs|]. split; [exact Hout|].
  assert (Hls : out.2 = Exited) by (by injection Hout).
  assert (Hdone : s = JStr "done") by (by injection Hout).
  rewrite Hls in Hexit. destruct Hexit as (_ & Htasks & _).
  rewrite Htasks, Hdone. reflexivity.
Defined.

(** C1 as stated fails: when the provider reports [done] the session status
    becomes [done], which is none of recording, completed, failed. *)
Lemma monitor_status_outside_spec_set :
  ~ (forall (polls : list provider) (st st' : @state unit) id m ls,
       active_meetings st !! id = Some m ->
       status m = JStr "recording" ->
       _monitor_meeting_completion polls st id = (st', ls) ->
       exists m', active_meetings st' !! id = Some m' /\
                  str_in (status m') ["recording"; "completed"; "failed"] = true).
Proof.
  intros H.
  destruct (H [fun _ => Ok recorded_job] (started_service [])
              (_monitor_meeting_completion [fun _ => Ok recorded_job] (started_service []) "m1").1
              "m1" (standup []) Exited
              (started_service_registers []) eq_refl)
    as (m' & Hm' & Hs).
  { vm_compute. reflexivity. }
  vm_compute in Hm'. injection Hm' as <-. discriminate Hs.
Qed.

(** ** meeting_intelligence.py: transcript acquisition *)

Lemma text_or_content_spec x found :
  text_or_content x = Ok found -> found = text_entry x.
Proof.
  unfold text_or_content, text_entry, py_get_none. intros H.
  apply bind_Ok in H as (t & Ht & H). apply bind_Ok in H as (c & Hc & H).
  injection H as <-.
  apply py_get_Ok in Ht as (d & -> & ->). apply py_get_Ok in Hc as (d' & [= <-] & ->).
  reflexivity.
Qed.

Lemma text_entry_no_dict x : is_dict x = false -> text_entry x = None.
Proof. by destruct x. Qed.

Lemma embedded_transcript_spec recording found :
  embedded_transcript recording = Ok found -> found = spec_embedded recording.
Proof.
  unfold embedded_transcript, spec_embedded, py_get_none. intros H.
  apply bind_Ok in H as (tr & Htr & H).
  apply py_get_Ok in Htr as (d & -> & ->). simpl field.
  set (tr := default JNull (dict_lookup d "transcript")) in *.
  destruct (is_string tr) eqn:Hstr.
  - destruct (truthy tr); by injection H as <-.
  - destruct (truthy tr) eqn:Htruthy.
    + destruct (is_dict tr) eqn:Hdict.
      * by apply text_or_content_spec.
      * injection H as <-. by rewrite text_entry_no_dict.
    + injection H as <-. unfold text_entry.
      destruct tr as [| | | |l|d']; try done. by destruct d'.
Qed.

Lemma shortcut_transcript_spec recording found :
  shortcut_transcript recording = Ok found -> found = spec_shortcut recording.
Proof.
  unfold shortcut_transcript, spec_shortcut. intros H.
  apply bind_Ok in H as (ms & Hms & H). apply bind_Ok in H as (present & Hp & H).
  apply py_get_Ok in Hms as (d & -> & ->). simpl field.
  set (ms := default (JDict []) (dict_lookup d "media_shortcuts")) in *.
  assert (Hfield : field (default JNull (dict_lookup d "media_shortcuts")) "transcript"
                   = field ms "transcript").
  { unfold ms. by destruct (dict_lookup d "media_shortcuts"). }
  rewrite Hfield. clear Hfield.
  destruct present.
  - apply bind_Ok in H as (info & Hinfo & H).
    destruct ms as [| | | | |dm]; try discriminate. simpl in Hinfo. simpl field.
    destruct (dict_lookup dm "transcript") as [v|]; [|discriminate].
    injection Hinfo as ->. simpl.
    destruct (is_dict info) eqn:Hd; [|by injection H as <-].
    apply bind_Ok in H as (data & Hdata & H).
    apply text_or_content_spec in H as ->.
    apply py_get_Ok in Hdata as (di & -> & ->). simpl field.
    unfold text_entry.
    by destruct (dict_lookup di "data").
  - injection H as <-.
    destruct ms as [| | |s|l|dm]; try done. simpl in Hp. injection Hp as Hp.
    simpl field. destruct (dict_lookup dm "transcript"); [|done].
    apply bool_decide_eq_false in Hp. destruct Hp. eauto.
Qed.

Lemma scan_recording_spec recording :
  well_formed recording = true -> scan_recording recording = Ok (spec_scan recording).
Proof.
  unfold well_formed. destruct (scan_recording recording) as [found|] eqn:H; [|done].
  intros _. f_equal. unfold scan_recording in H.
  apply bind_Ok in H as (e & He & H). apply embedded_transcript_spec in He as ->.
  unfold spec_scan. destruct (spec_embedded recording).
  - by injection H as <-.
  - by apply shortcut_transcript_spec.
Qed.

Lemma scan_recordings_spec recordings :
  Forall (fun r => well_formed r = true) recordings ->
  scan_recordings recordings = Ok (default JNull (spec_first_text recordings)).
Proof.
  induction 1 as [|r rs Hr _ IH]; [done|].
  cbn [scan_recordings]. rewrite (scan_recording_spec r Hr). cbn.
  unfold spec_first_text. cbn [omap list_omap].
  destruct (spec_scan r); [done | exact IH].
Qed.

Lemma text_entry_truthy x t : text_entry x = Some t -> truthy t = true.
Proof.
  unfold text_entry.
  destruct (truthy (py_or (field x "text") (field x "content"))) eqn:H; [|done].
  by intros [= <-].
Qed.

Lemma spec_scan_truthy recording t : spec_scan recording = Some t -> truthy t = true.
Proof.
  unfold spec_scan, spec_embedded, spec_shortcut.
  destruct (is_string (field recording "transcript")).
  - destruct (truthy (field recording "transcript")) eqn:Ht.
    + by intros [= <-].
    + destruct (is_dict _); [apply text_entry_truthy | done].
  - destruct (text_entry (field recording "transcript")) eqn:He.
    + intros [= <-]. by apply text_entry_truthy in He.
    + destruct (is_dict _); [apply text_entry_truthy | done].
Qed.

Lemma spec_first_text_truthy recordings t :
  spec_first_text recordings = Some t -> truthy t = true.
Proof.
  unfold spec_first_text. intros H.
  assert (Hin : t ∈ omap spec_scan recordings).
  { destruct (omap spec_scan recordings); [done|]. injection H as ->. apply list_elem_of_here. }
  apply list_elem_of_omap in Hin as (r & _ & Hr). by apply spec_scan_truthy in Hr.
Qed.

Lemma extract_transcript_spec bot_data recordings :
  py_get bot_data "recordings" (JList []) = Ok (JList recordings) ->
  Forall (fun r => well_formed r = true) recordings ->
  _extract_transcript_from_bot_data bot_data = default JNull (spec_first_text recordings).
Proof.
  intros Hrecs Hwf. unfold _extract_transcript_from_bot_data. rewrite Hrecs. cbn.
  by rewrite scan_recordings_spec.
Qed.

(** The transcript acquisition of the routine, when the job data lists its
    recordings and no recording is malformed: the download when there is a
    transcript URL (and nothing when the download fails or is empty), and
    only when there is no URL the result of the scan of the job data: per
    recording the top-level transcript (a string, or the text or content
    entry of an object), then the media shortcut, the first non-empty
    result ending the scan. *)
Lemma acquire_transcript_paths (download_transcript : json -> option string)
    urls recordings :
  py_get (du_data urls) "recordings" (JList []) = Ok (JList recordings) ->
  Forall (fun r => well_formed r = true) recordings ->
  acquire_transcript download_transcript urls
  = spec_acquire download_transcript (transcript_url urls) recordings.
Proof.
  intros Hrecs Hwf. unfold acquire_transcript, spec_acquire.
  destruct (truthy (transcript_url urls)); [done|].
  rewrite (extract_transcript_spec _ recordings Hrecs Hwf).
  destruct (spec_first_text recordings) as [t|] eqn:Ht; [|done].
  apply spec_first_text_truthy in Ht.
  change (default JNull (Some t)) with t. cbv zeta. rewrite Ht.
  unfold has_len. by destruct (py_len t).
Qed.

Example scenario_c_urls_fetched :
  (get_download_urls fresh_bot (fun _ => Ok scenario_c_job) (Some "b1")).2
  = Success scenario_c_urls.
Proof. reflexivity. Qed.

Example acquire_transcript_paths_scenario_c :
  acquire_transcript failed_download scenario_c_urls
  = spec_acquire failed_download (transcript_url scenario_c_urls)
      [JDict [("transcript", JStr "hello world");
              ("media_shortcuts",
               JDict [("transcript",
                       JDict [("data", JDict [("download_url", JStr "https://t/1.json")])])])]].
Proof.
  apply (acquire_transcript_paths failed_download scenario_c_urls).
  - reflexivity.
  - repeat constructor.
Qed.

(** The download failed and the job data embeds a transcript: the routine
    does not look at it. *)
Lemma fallback_skipped_when_download_fails :
  ~ (forall (download_transcript : json -> option string) urls t,
       truthy (transcript_url urls) = false \/
         download_transcript (transcript_url urls) = None ->
       _extract_transcript_from_bot_data (du_data urls) = JStr t ->
       t <> "" ->
       acquire_transcript download_transcript urls = Some (JStr t)).
Proof.
  intros H.
  specialize (H failed_download scenario_c_urls "hello world"
                (or_intror eq_refl) eq_refl ltac:(discriminate)).
  discriminate H.
Qed.

(** C2, scenario C: the download URLs are fetched with a transcript URL,
    the download of that URL fails, and the job data embeds the transcript
    [hello world] in its first recording, where the scan finds it; yet the
    routine acquires no transcript, asks for no artifact and leaves the
    session unprocessed. *)
Theorem scenario_c_fallback_not_used :
  let st := started_service ["ann@example.com"] in
  let st' := sample_process failed_download email_fails st
               (fun _ => Ok scenario_c_job) "m1" in
  (get_download_urls (recall_service st) (fun _ => Ok scenario_c_job) (Some "b1")).2
    = Success scenario_c_urls /\
  failed_download (transcript_url scenario_c_urls) = None /\
  _extract_transcript_from_bot_data (du_data scenario_c_urls) = JStr "hello world" /\
  acquire_transcript failed_download scenario_c_urls = None /\
  completions st' = [] /\
  outputs st' = [] /\
  processed <$> (active_meetings st' !! "m1") = Some false.
Proof. vm_compute. done. Qed.

(** Without a transcript URL the embedded transcript is found. *)
Example fallback_used_without_url :
  match (get_download_urls fresh_bot (fun _ => Ok embedded_job) (Some "b1")).2 with
  | Success urls => acquire_transcript (fun _ => None) urls
  | Failure _ => None
  end = Some (JStr "hello world").
Proof. reflexivity. Qed.

(** ** meeting_intelligence.py: the processing routine *)

Section ProcessFacts.
Context {embedding : Type}.
Variable create_embeddings : list string -> exn (list embedding).
Variable distance : embedding -> embedding -> Z.
Variable download_transcript : json -> option string.
Variable chat_completion : string -> option string -> string -> exn string.
Variable store_accepts : output_row -> bool.
Variable py_str : json -> string.
Variable py_title : string -> string.
Variable valid_uuid : string -> bool.
Variable uuid4 : nat -> string.
Implicit Types st : @state embedding.

Local Abbreviation generate := (generate_content create_embeddings distance chat_completion).
Local Abbreviation generate_all :=
  (_generate_meeting_ai_content create_embeddings distance chat_completion py_str).
Local Abbreviation results :=
  (results_of create_embeddings distance chat_completion py_str).
Local Abbreviation store_all :=
  (_store_meeting_results store_accepts py_title valid_uuid uuid4).
Local Abbreviation store_one := (store_result store_accepts py_title valid_uuid uuid4).
Local Abbreviation process :=
  (_process_completed_meeting create_embeddings distance download_transcript
     chat_completion store_accepts py_str py_title valid_uuid uuid4).

Lemma same_sessions_refl st : same_sessions st st.
Proof. by repeat split. Qed.

Lemma same_sessions_trans st1 st2 st3 :
  same_sessions st1 st2 -> same_sessions st2 st3 -> same_sessions st1 st3.
Proof.
  intros (?&?&?&?&?) (?&?&?&?&?). repeat split; congruence.
Qed.

Lemma generate_content_state st prompt content_type client sub recipient :
  (generate st prompt content_type client sub recipient).1 = log_completion content_type st.
Proof. unfold generate_content. by destruct (chat_completion _ _ _). Qed.

(** The result of a generation depends on the state through the knowledge
    store only. *)
Lemma generate_content_result st st' prompt content_type client sub recipient :
  knowledge st' = knowledge st ->
  (generate st' prompt content_type client sub recipient).2
  = (generate st prompt content_type client sub recipient).2.
Proof.
  intros Hk. unfold generate_content. rewrite Hk.
  by destruct (chat_completion _ _ _).
Qed.

Lemma generate_all_spec st transcript_text client_context m :
  let out := generate_all st transcript_text client_context m in
  out.2 = results st transcript_text client_context m /\
  same_sessions st out.1 /\
  outputs out.1 = outputs st /\
  clock out.1 = clock st /\
  completions out.1 = (completions st ++ requested_types m)%list.
Proof.
  unfold _generate_meeting_ai_content, results_of, generate_summary,
    generate_action_items, generate_email, requested_types.
  set (ctx := full_context py_str m transcript_text client_context).
  destruct (generate st (summary_prompt ctx) "summary" _ _ None) as [st1 r1] eqn:H1.
  pose proof (generate_content_state st (summary_prompt ctx) "summary"
                (client_id m) (sub_client_id m) None) as Hs1.
  rewrite H1 in Hs1. simpl in Hs1. subst st1.
  destruct (generate (log_completion "summary" st) (action_items_prompt ctx)
              "action_items" _ _ None) as [st2 r2] eqn:H2.
  pose proof (generate_content_state (log_completion "summary" st)
                (action_items_prompt ctx) "action_items"
                (client_id m) (sub_client_id m) None) as Hs2.
  rewrite H2 in Hs2. simpl in Hs2. subst st2.
  assert (Hr2 : r2 = (generate st (action_items_prompt ctx) "action_items"
                        (client_id m) (sub_client_id m) None).2).
  { rewrite <- (generate_content_result st (log_completion "summary" st)) by done.
    by rewrite H2. }
  destruct (attendees m) as [|first rest].
  - cbn. rewrite <- Hr2. repeat split. by rewrite <- app_assoc.
  - destruct (generate (log_completion "action_items" (log_completion "summary" st))
                (email_prompt ctx) "email" _ _ (Some first)) as [st3 r3] eqn:H3.
    pose proof (generate_content_state
                  (log_completion "action_items" (log_completion "summary" st))
                  (email_prompt ctx) "email" (client_id m) (sub_client_id m)
                  (Some first)) as Hs3.
    rewrite H3 in Hs3. simpl in Hs3. subst st3.
    assert (Hr3 : r3 = (generate st (email_prompt ctx) "email"
                          (client_id m) (sub_client_id m) (Some first)).2).
    { rewrite <- (generate_content_result st
                   (log_completion "action_items" (log_completion "summary" st))) by done.
      by rewrite H3. }
    cbn. rewrite <- Hr2, <- Hr3. repeat split. by rewrite <- !app_assoc.
Qed.

(** [db_manager.create_output] raises nothing, so the direct insert that
    [_store_meeting_results] keeps for that case is never run. *)
Lemma create_output_never_raises st row :
  exists found, (create_output store_accepts st row).2 = Ok found.
Proof. unfold create_output. destruct (store_accepts row); eauto. Qed.

Lemma store_result_frame st m item :
  let out := store_one st m item in
  same_sessions st out.1 /\ completions out.1 = completions st.
Proof.
  unfold store_result. destruct item.2 as [g|e]; [|by repeat split].
  simpl. destruct (output_for _ _ _ _ _) as [row|]; [|by repeat split].
  unfold create_output. destruct (store_accepts row); by repeat split.
Qed.

Lemma store_all_frame results : forall st m,
  same_sessions st (store_all st m results) /\
  completions (store_all st m results) = completions st.
Proof.
  induction results as [|item rest IH]; intros st m; [by repeat split|].
  cbn [_store_meeting_results].
  pose proof (store_result_frame st m item) as [Hs Hc].
  destruct (store_one st m item) as [st1 [[]|]]; simpl in *.
  - destruct (IH st1 m) as [Hs' Hc']. split; [by eapply same_sessions_trans | congruence].
  - done.
Qed.

(** When the meeting has a user and the store takes every row, each
    successful result leaves one row, in order. *)
Lemma store_all_outputs results : forall st m user,
  user_id m = Some user ->
  (forall row, store_accepts row = true) ->
  kind_and_content <$> outputs (store_all st m results)
  = ((kind_and_content <$> outputs st) ++ successes results)%list.
Proof.
  induction results as [|[kind [g|e]] rest IH]; intros st m user Hu Hacc.
  - by rewrite app_nil_r.
  - cbn [_store_meeting_results]. unfold store_result, output_for, create_output.
    cbn [snd fst now]. rewrite Hu. cbn. rewrite Hacc.
    rewrite (IH _ m user Hu Hacc). cbn [outputs insert_output].
    rewrite fmap_app. cbn. by rewrite <- app_assoc.
  - cbn [_store_meeting_results]. unfold store_result. cbn.
    by rewrite (IH _ m user Hu Hacc).
Qed.

(** The routine once the transcript is there. *)
Lemma process_with_transcript st api id m bot urls transcript_text :
  active_meetings st !! id = Some m ->
  get_download_urls (recall_service st) api (Some (bot_id m)) = (bot, Success urls) ->
  acquire_transcript download_transcript urls = Some transcript_text ->
  let st0 := set_recall bot st in
  let client_context :=
    _get_client_context create_embeddings distance st0 (client_id m)
      (sub_client_id m) (meeting_title m) in
  let generated := generate_all st0 transcript_text client_context m in
  let stored := store_all generated.1 m generated.2 in
  process st api id = set_meetings (alter (with_processed (clock stored)) id) (now stored).2.
Proof.
  intros Hm Hurls Hacq. unfold _process_completed_meeting.
  rewrite Hm, Hurls, Hacq. cbv zeta.
  by destruct (generate_all _ _ _ _).
Qed.

Lemma get_client_context_knowledge st st' client sub title :
  knowledge st' = knowledge st ->
  _get_client_context create_embeddings distance st' client sub title
  = _get_client_context create_embeddings distance st client sub title.
Proof. intros Hk. unfold _get_client_context. by rewrite Hk. Qed.

Lemma results_of_knowledge st st' transcript_text client_context m :
  knowledge st' = knowledge st ->
  results st' transcript_text client_context m
  = results st transcript_text client_context m.
Proof.
  intros Hk. unfold results_of.
  rewrite !(generate_content_result st st') by done.
  destruct (attendees m); [done|].
  by rewrite (generate_content_result st st').
Qed.

(** C3, as the code has it: once the routine has a transcript, the summary
    and the action items are always asked of the completion provider, the
    follow-up email only when the meeting has attendees; each result is
    what its own request gives, whatever becomes of the others; and for a
    meeting with a user, when the store takes the rows, every successful
    result is stored and nothing else. *)
Theorem artifacts_generated_independently st api id m bot urls transcript_text user :
  active_meetings st !! id = Some m ->
  user_id m = Some user ->
  get_download_urls (recall_service st) api (Some (bot_id m)) = (bot, Success urls) ->
  acquire_transcript download_transcript urls = Some transcript_text ->
  (forall row, store_accepts row = true) ->
  let client_context :=
    _get_client_context create_embeddings distance st (client_id m)
      (sub_client_id m) (meeting_title m) in
  let st' := process st api id in
  completions st' = (completions st ++ requested_types m)%list /\
  kind_and_content <$> outputs st'
  = ((kind_and_content <$> outputs st)
     ++ successes (results st transcript_text client_context m))%list.
Proof.
  intros Hm Hu Hurls Hacq Hacc client_context st'. subst st'.
  rewrite (process_with_transcript st api id m bot urls transcript_text Hm Hurls Hacq).
  cbv zeta.
  set (st0 := set_recall bot st).
  rewrite (get_client_context_knowledge st st0) by done. fold client_context.
  pose proof (generate_all_spec st0 transcript_text client_context m)
    as (Hres & Hsame & Hout & _ & Hcomp).
  cbv zeta in Hres, Hsame, Hout, Hcomp.
  set (gen := generate_all st0 transcript_text client_context m) in *.
  pose proof (store_all_frame gen.2 gen.1 m) as [_ Hcomp'].
  split.
  - cbn [completions set_meetings now snd]. by rewrite Hcomp', Hcomp.
  - cbn [outputs set_meetings now snd].
    rewrite (store_all_outputs gen.2 gen.1 m user Hu Hacc), Hout, Hres.
    by rewrite (results_of_knowledge st st0).
Qed.

(** C4: when the download URLs are fetched and no transcript is acquired,
    the routine leaves the registry as it is (so [processed] stays false),
    asks nothing of the completion provider and leaves the table of outputs
    as it is (so no artifact of the meeting appears). *)
Theorem transcript_unavailable_aborts st api id m bot urls :
  active_meetings st !! id = Some m ->
  processed m = false ->
  get_download_urls (recall_service st) api (Some (bot_id m)) = (bot, Success urls) ->
  acquire_transcript download_transcript urls = None ->
  let st' := process st api id in
  active_meetings st' = active_meetings st /\
  processed <$> (active_meetings st' !! id) = Some false /\
  completions st' = completions st /\
  outputs st' = outputs st /\
  artifacts_of id st' = artifacts_of id st.
Proof.
  intros Hm Hp Hurls Hacq st'. subst st'. unfold _process_completed_meeting.
  rewrite Hm, Hurls, Hacq. cbn. rewrite Hm. cbn. by rewrite Hp.
Qed.

(** With a transcript the routine touches the registry once, to mark the
    session. *)
Lemma process_registry st api id m bot urls transcript_text :
  active_meetings st !! id = Some m ->
  get_download_urls (recall_service st) api (Some (bot_id m)) = (bot, Success urls) ->
  acquire_transcript download_transcript urls = Some transcript_text ->
  exists t,
    active_meetings (process st api id) = alter (with_processed t) id (active_meetings st).
Proof.
  intros Hm Hurls Hacq.
  rewrite (process_with_transcript st api id m bot urls transcript_text Hm Hurls Hacq).
  cbv zeta.
  set (st0 := set_recall bot st).
  set (client_context := _get_client_context _ _ st0 _ _ _).
  pose proof (generate_all_spec st0 transcript_text client_context m)
    as (_ & (Hmeet & _) & _).
  cbv zeta in Hmeet.
  set (gen := generate_all st0 transcript_text client_context m) in *.
  pose proof (store_all_frame gen.2 gen.1 m) as [(Hmeet' & _) _].
  exists (clock (store_all gen.1 m gen.2)).
  cbn [active_meetings set_meetings now snd]. by rewrite Hmeet', Hmeet.
Qed.

(** C5: when the routine has a transcript, whatever the completion
    provider and the store answer, it ends with the session marked
    processed and [processed_at] set, every other field as before. *)
Theorem processed_after_attempt st api id m bot urls transcript_text :
  active_meetings st !! id = Some m ->
  get_download_urls (recall_service st) api (Some (bot_id m)) = (bot, Success urls) ->
  acquire_transcript download_transcript urls = Some transcript_text ->
  exists t m',
    active_meetings (process st api id) !! id = Some m' /\
    m' = with_processed t m /\
    processed m' = true /\
    processed_at m' = Some t.
Proof.
  intros Hm Hurls Hacq.
  destruct (process_registry st api id m bot urls transcript_text Hm Hurls Hacq)
    as [t Hreg].
  exists t, (with_processed t m). split; [|done].
  by rewrite Hreg, lookup_alter_eq, Hm.
Qed.

(** The routine never writes the status of a session. *)
Lemma process_keeps_status st api id m :
  active_meetings st !! id = Some m ->
  status <$> (active_meetings (process st api id) !! id) = Some (status m).
Proof.
  intros Hm.
  destruct (get_download_urls (recall_service st) api (Some (bot_id m)))
    as [bot [urls|e]] eqn:Hurls.
  - destruct (acquire_transcript download_transcript urls) as [t|] eqn:Hacq.
    + destruct (process_registry st api id m bot urls t Hm Hurls Hacq) as [time ->].
      by rewrite lookup_alter_eq, Hm.
    + unfold _process_completed_meeting. rewrite Hm, Hurls, Hacq. cbn. by rewrite Hm.
  - unfold _process_completed_meeting. rewrite Hm, Hurls. cbn. by rewrite Hm.
Qed.

End ProcessFacts.

(** Scenario D: the email fails, the two other artifacts are stored and the
    session is processed. *)
Example scenario_d :
  let st' := sample_process sample_download email_fails (started_service ["ann@example.com"])
               (fun _ => Ok recorded_job) "m1" in
  kind_and_content <$> outputs st'
    = [("summary", "text of summary"); ("action_items", "text of action_items")] /\
  completions st' = ["summary"; "action_items"; "email"] /\
  processed <$> (active_meetings st' !! "m1") = Some true.
Proof. vm_compute. done. Qed.

Lemma artifacts_generated_independently_witness :
  let st := started_service ["ann@example.com"] in
  let m := standup ["ann@example.com"] in
  let st' := sample_process sample_download email_fails st (fun _ => Ok recorded_job) "m1" in
  completions st' = (completions st ++ requested_types m)%list /\
  kind_and_content <$> outputs st'
  = ((kind_and_content <$> outputs st)
     ++ successes
          (results_of unit_embeddings (fun _ _ => 0) email_fails plain_str st
             (JStr "Ann: hello. Bob: hi.")
             (_get_client_context unit_embeddings (fun _ _ => 0) st (client_id m)
                (sub_client_id m) (meeting_title m)) m))%list.
Proof.
  intros st m.
  eapply (artifacts_generated_independently unit_embeddings (fun _ _ => 0)
            sample_download email_fails accept_all plain_str (fun s => s)
            (fun _ => true) (fun n => "00000000-0000-4000-8000-" ++ pretty n)
            st (fun _ => Ok recorded_job) "m1" m).
  - apply started_service_registers.
  - reflexivity.
  - reflexivity.
  - reflexivity.
  - reflexivity.
Defined.

(** C3 as stated fails: for a meeting without attendees the follow-up email
    is never asked of the completion provider. *)
Lemma email_not_attempted_without_attendees :
  ~ (forall (chat_completion : string -> option string -> string -> exn string)
            (st : @state unit) api id m bot urls transcript_text,
       active_meetings st !! id = Some m ->
       get_download_urls (recall_service st) api (Some (bot_id m)) = (bot, Success urls) ->
       acquire_transcript sample_download urls = Some transcript_text ->
       completions (sample_process sample_download chat_completion st api id)
       = (completions st ++ ["summary"; "action_items"; "email"])%list).
Proof.
  intros H.
  specialize (H email_fails (started_service []) (fun _ => Ok recorded_job) "m1"
                (standup []) _ _ _ (started_service_registers []) eq_refl eq_refl).
  vm_compute in H. discriminate H.
Qed.

Lemma transcript_unavailable_aborts_witness :
  let st := started_service ["ann@example.com"] in
  let st' := sample_process sample_download email_fails st (fun _ => Ok silent_job) "m1" in
  active_meetings st' = active_meetings st /\
  processed <$> (active_meetings st' !! "m1") = Some false /\
  completions st' = completions st /\
  outputs st' = outputs st /\
  artifacts_of "m1" st' = artifacts_of "m1" st.
Proof.
  intros st.
  eapply (transcript_unavailable_aborts unit_embeddings (fun _ _ => 0)
            sample_download email_fails accept_all plain_str (fun s => s)
            (fun _ => true) (fun n => "00000000-0000-4000-8000-" ++ pretty n)
            st (fun _ => Ok silent_job) "m1" (standup ["ann@example.com"])).
  - apply started_service_registers.
  - reflexivity.
  - reflexivity.
  - reflexivity.
Defined.

Lemma processed_after_attempt_witness :
  let st := started_service ["ann@example.com"] in
  outputs (sample_process sample_download always_fails st (fun _ => Ok recorded_job) "m1") = [] /\
  exists t m',
    active_meetings (sample_process sample_download always_fails st (fun _ => Ok recorded_job) "m1")
      !! "m1" = Some m' /\
    m' = with_processed t (standup ["ann@example.com"]) /\
    processed m' = true /\
    processed_at m' = Some t.
Proof.
  intros st. split; [vm_compute; reflexivity|].
  eapply (processed_after_attempt unit_embeddings (fun _ _ => 0)
            sample_download always_fails accept_all plain_str (fun s => s)
            (fun _ => true) (fun n => "00000000-0000-4000-8000-" ++ pretty n)
            st (fun _ => Ok recorded_job) "m1" (standup ["ann@example.com"])).
  - apply started_service_registers.
  - reflexivity.
  - reflexivity.
Defined.

(** * Further properties *)

(** ** recall_service.py: download URLs and the cache *)

Lemma get_bot_data_forced self api id :
  id <> "" ->
  get_bot_data self api (Some id) true
  = match api id with
    | Ok d => (mkBot (self_bot_id self) d, Success d)
    | Raise => (self, Failure "Bot data error")
    end.
Proof.
  intros Hid. unfold get_bot_data. rewrite (id_or_Some id _ Hid).
  by rewrite andb_false_r.
Qed.

(** What [get_download_urls] does, step by step, for a bot id given by the
    caller. *)
Lemma get_download_urls_unfold self api id :
  id <> "" ->
  get_download_urls self api (Some id)
  = match api id with
    | Ok d =>
        (mkBot (self_bot_id self) d,
         match urls_of_bot_data id d with
         | Ok r => Success r
         | Raise => Failure "Download URLs error"
         end)
    | Raise => (self, Failure "Bot data error")
    end.
Proof.
  intros Hid. unfold get_download_urls. rewrite (id_or_Some id _ Hid).
  rewrite (get_bot_data_forced self api id Hid).
  destruct (api id) as [d|]; [|done]. by destruct (urls_of_bot_data id d).
Qed.

(** X1: [get_download_urls] never answers from the cache: what it returns is
    what the provider sends at the time of the call, whatever the instance
    held before, and the cache holds that data afterwards. *)
Theorem get_download_urls_fetches_fresh self api id self' r :
  id <> "" ->
  get_download_urls self api (Some id) = (self', Success r) ->
  api id = Ok (du_data r) /\
  du_bot_id r = id /\
  self_bot_data self' = du_data r /\
  self_bot_id self' = self_bot_id self /\
  forall stale,
    get_download_urls (mkBot (self_bot_id self) stale) api (Some id) = (self', Success r).
Proof.
  intros Hid. rewrite (get_download_urls_unfold self api id Hid).
  destruct (api id) as [d|] eqn:Hapi; [|discriminate].
  destruct (urls_of_bot_data id d) as [r'|] eqn:Hu; [|discriminate].
  intros [= <- <-].
  assert (Hd : du_data r' = d /\ du_bot_id r' = id).
  { unfold urls_of_bot_data in Hu.
    apply bind_Ok in Hu as ([v t] & _ & Hu).
    apply bind_Ok in Hu as (h & _ & Hu). apply bind_Ok in Hu as (s & _ & Hu).
    by injection Hu as <-. }
  destruct Hd as [-> ->]. repeat split; try done.
  intros stale. rewrite (get_download_urls_unfold _ api _ Hid), Hapi, Hu. done.
Qed.

Lemma get_download_urls_fetches_fresh_witness :
  exists self' r,
    get_download_urls (mkBot (Some "b0") sample_job) (fun _ => Ok recorded_job) (Some "b1")
      = (self', Success r) /\
    (fun _ : string => Ok recorded_job) "b1" = Ok (du_data r) /\
    self_bot_data self' = du_data r.
Proof.
  eexists _, _. split; [reflexivity|].
  destruct (get_download_urls_fetches_fresh (mkBot (Some "b0") sample_job)
              (fun _ => Ok recorded_job) "b1" _ _ ltac:(discriminate) eq_refl)
    as (H1 & _ & H3 & _).
  by split.
Defined.

(** X2: the status of [get_download_urls] is the one [get_bot_status] gives
    for the same job data when the job has a history; with no history it is
    [unknown], where [get_bot_status] infers [done] or [waiting_to_join]. *)
Theorem download_status_agrees_with_poll id bot_data s u :
  status_of_bot_data id bot_data = Ok s ->
  urls_of_bot_data id bot_data = Ok u ->
  du_status u = if truthy (bs_status_changes s) then bs_status s else JStr "unknown".
Proof.
  unfold status_of_bot_data, urls_of_bot_data. intros Hs Hu.
  apply bind_Ok in Hs as (h & Hh & Hs). apply bind_Ok in Hs as (cs & Hcs & Hs).
  apply bind_Ok in Hs as (n & _ & Hs). apply bind_Ok in Hs as (c & _ & Hs).
  injection Hs as <-.
  apply bind_Ok in Hu as ([v t] & _ & Hu). apply bind_Ok in Hu as (h' & Hh' & Hu).
  apply bind_Ok in Hu as (cu & Hcu & Hu). injection Hu as <-. simpl.
  rewrite Hh in Hh'. injection Hh' as <-.
  destruct (truthy h).
  - rewrite Hcs in Hcu. by injection Hcu.
  - by injection Hcu.
Qed.

Lemma download_status_agrees_with_poll_witness :
  exists s u,
    status_of_bot_data "b1" instant_job = Ok s /\
    urls_of_bot_data "b1" instant_job = Ok u /\
    bs_status s = JStr "done" /\ du_status u = JStr "unknown".
Proof.
  eexists _, _. split; [reflexivity|]. split; [reflexivity|]. split; [reflexivity|].
  exact (download_status_agrees_with_poll "b1" instant_job _ _ eq_refl eq_refl).
Defined.

(** X3: a response [get_download_urls] cannot read is cached all the same:
    the call fails, and later calls of [get_bot_data] without refresh return
    that response as a success. *)
Theorem unreadable_response_is_cached self api api' id other d :
  id <> "" -> other <> "" ->
  api id = Ok d ->
  truthy d = true ->
  urls_of_bot_data id d = Raise ->
  let out := get_download_urls self api (Some id) in
  out.2 = Failure "Download URLs error" /\
  get_bot_data out.1 api' (Some other) false = (out.1, Success d).
Proof.
  intros Hid Hother Hapi Hd Hu out. subst out.
  rewrite (get_download_urls_unfold self api id Hid), Hapi, Hu. simpl.
  split; [done|]. unfold get_bot_data. rewrite (id_or_Some other _ Hother).
  simpl. by rewrite Hd.
Qed.

Lemma unreadable_response_is_cached_witness :
  let bad := JDict [("recordings", JList [JStr "oops"])] in
  let out := get_download_urls fresh_bot (fun _ => Ok bad) (Some "b1") in
  out.2 = Failure "Download URLs error" /\
  get_bot_data out.1 (fun _ => Ok recorded_job) (Some "b2") false = (out.1, Success bad).
Proof.
  intros bad.
  apply (unreadable_response_is_cached fresh_bot (fun _ => Ok bad)
           (fun _ => Ok recorded_job) "b1" "b2" bad);
    (reflexivity || discriminate).
Defined.

(** ** file_processor.py: the chunks *)

Lemma lstrip_suffix (w : text) :
  exists pre, w = (pre ++ lstrip w)%list /\ Forall (fun c => isspace c = true) pre.
Proof.
  induction w as [|c w IH]; simpl.
  - by exists [].
  - destruct (isspace c) eqn:Hc.
    + destruct IH as (pre & Hw & Hpre). exists (c :: pre). split.
      * simpl. by rewrite <- Hw.
      * by constructor.
    + by exists [].
Qed.

Lemma lstrip_head (w : text) c : head (lstrip w) = Some c -> isspace c = false.
Proof.
  induction w as [|x w IH]; simpl; [done|].
  destruct (isspace x) eqn:Hx; [done|]. simpl. by intros [= <-].
Qed.

Lemma lstrip_last (w : text) : lstrip w <> [] -> last (lstrip w) = last w.
Proof.
  destruct (lstrip_suffix w) as (pre & Hw & _). intros Hne.
  rewrite Hw at 2. destruct (lstrip w) as [|c l] eqn:E; [done|].
  by rewrite last_app_cons.
Qed.

(** A stripped text is a part of the text, and neither starts nor ends
    with whitespace. *)
Lemma strip_infix (w : text) : exists pre post, w = (pre ++ strip w ++ post)%list.
Proof.
  unfold strip, rstrip.
  destruct (lstrip_suffix w) as (pre & Hw & _).
  destruct (lstrip_suffix (rev (lstrip w))) as (post & Hr & _).
  exists pre, (rev post). rewrite Hw at 1. f_equal.
  rewrite <- rev_app_distr, <- Hr. by rewrite rev_involutive.
Qed.

Lemma last_rev {A} (l : list A) : last (rev l) = head l.
Proof. destruct l as [|x l]; [done|]. simpl. by rewrite last_snoc. Qed.

Lemma head_rev {A} (l : list A) : head (rev l) = last l.
Proof.
  induction l as [|x l _] using rev_ind; [done|].
  by rewrite rev_unit, last_snoc.
Qed.

Lemma strip_last (w : text) c : last (strip w) = Some c -> isspace c = false.
Proof. unfold strip, rstrip. rewrite last_rev. apply lstrip_head. Qed.

Lemma strip_head (w : text) c : head (strip w) = Some c -> isspace c = false.
Proof.
  unfold strip, rstrip. rewrite head_rev. intros H.
  rewrite lstrip_last in H by (by intros E; rewrite E in H).
  rewrite last_rev in H. by apply lstrip_head in H.
Qed.

Lemma len_strip (w : text) : len (strip w) <= len w.
Proof.
  destruct (strip_infix w) as (pre & post & Hw). unfold len.
  rewrite Hw at 2. rewrite !length_app. lia.
Qed.

Lemma elem_of_rev {A} (x : A) (l : list A) : x ∈ rev l <-> x ∈ l.
Proof. rewrite rev_alt. apply elem_of_reverse. Qed.

Lemma lstrip_keeps (w : text) c : c ∈ w -> isspace c = false -> c ∈ lstrip w.
Proof.
  intros Hin Hc. destruct (lstrip_suffix w) as (pre & Hw & Hpre).
  rewrite Hw in Hin. apply elem_of_app in Hin as [Hin|Hin]; [|done].
  rewrite Forall_forall in Hpre. specialize (Hpre c Hin). congruence.
Qed.

(** Stripping takes no visible character away. *)
Lemma strip_keeps (w : text) c : c ∈ w -> isspace c = false -> c ∈ strip w.
Proof.
  intros Hin Hc. unfold strip, rstrip.
  apply elem_of_rev, lstrip_keeps; [|done].
  by apply elem_of_rev, lstrip_keeps.
Qed.

Lemma slice_lookup (t : text) i j (p : nat) c :
  0 <= i -> i <= Z.of_nat p < j -> t !! p = Some c -> c ∈ slice t i j.
Proof.
  intros Hi Hp Hc. pose proof (lookup_lt_Some _ _ _ Hc) as Hlt.
  unfold slice. rewrite !adjust_nonneg by lia. unfold len.
  apply (list_elem_of_lookup_2 _ (p - Z.to_nat (Z.min i (Z.of_nat (List.length t))))).
  rewrite lookup_take_lt by lia. rewrite lookup_drop. rewrite <- Hc. f_equal. lia.
Qed.

Lemma slice_infix (t : text) i j : exists pre post, t = (pre ++ slice t i j ++ post)%list.
Proof.
  unfold slice. set (lo := Z.to_nat (adjust (len t) i)).
  set (k := Z.to_nat (adjust (len t) j - adjust (len t) i)).
  exists (take lo t), (drop k (drop lo t)).
  by rewrite take_drop, take_drop.
Qed.

Lemma window_loop_fuel (t : text) chunk_size overlap fuel : forall fuel' start windows,
  window_loop fuel t chunk_size overlap start = Some windows ->
  (fuel <= fuel')%nat ->
  window_loop fuel' t chunk_size overlap start = Some windows.
Proof.
  induction fuel as [|fuel IH]; intros fuel' start windows H Hle; [discriminate|].
  destruct fuel' as [|fuel']; [lia|]. simpl in *.
  destruct (start <? len t); [|done].
  destruct (window_end t chunk_size start - overlap >=? len t); [done|].
  destruct (window_loop fuel t chunk_size overlap _) as [ws|] eqn:Hw; [|discriminate].
  by rewrite (IH fuel' _ ws Hw ltac:(lia)).
Qed.

Section Chunks.
Variable t : text.
Variables chunk_size overlap : Z.
Hypothesis size_ok : 100 <= chunk_size.
Hypothesis overlap_ok : 0 <= overlap <= chunk_size - 100.

(** Each window starts inside the text and spans at most [chunk_size]
    characters. *)
Lemma window_loop_windows fuel : forall start windows,
  0 <= start ->
  window_loop fuel t chunk_size overlap start = Some windows ->
  Forall (fun w => exists i j, 0 <= i < len t /\ i < j <= i + chunk_size /\ w = slice t i j)
         windows.
Proof.
  induction fuel as [|fuel IH]; intros start windows Hs H; [discriminate|].
  simpl in H. destruct (Z.ltb_spec start (len t)) as [Hlt|Hge].
  2:{ injection H as <-. constructor. }
  pose proof (window_end_bounds t chunk_size size_ok start Hs) as Hend.
  set (end_ := window_end t chunk_size start) in *.
  assert (Hw : exists i j, 0 <= i < len t /\ i < j <= i + chunk_size /\
                           slice t start end_ = slice t i j).
  { exists start, end_. repeat split; lia. }
  destruct (end_ - overlap >=? len t).
  - injection H as <-. by repeat constructor.
  - destruct (window_loop fuel t chunk_size overlap (end_ - overlap)) as [ws|] eqn:Hrec;
      [|discriminate].
    injection H as <-. constructor; [done|]. apply (IH (end_ - overlap)); [lia | done].
Qed.

(** Every character from [start] on lies in one of the windows. *)
Lemma window_loop_lookup fuel : forall start windows (p : nat) c,
  0 <= start <= Z.of_nat p ->
  t !! p = Some c ->
  window_loop fuel t chunk_size overlap start = Some windows ->
  exists w, w ∈ windows /\ c ∈ w.
Proof.
  induction fuel as [|fuel IH]; intros start windows p c Hs Hc H; [discriminate|].
  pose proof (lookup_lt_Some _ _ _ Hc) as Hlt.
  simpl in H. destruct (Z.ltb_spec start (len t)) as [_|Hge]; [|unfold len in Hge; lia].
  pose proof (window_end_bounds t chunk_size size_ok start (proj1 Hs)) as Hend.
  set (end_ := window_end t chunk_size start) in *.
  destruct (Z.lt_ge_cases (Z.of_nat p) end_) as [Hin|Hout].
  - assert (Hw : c ∈ slice t start end_) by (apply (slice_lookup t start end_ p); [lia | lia | done]).
    destruct (end_ - overlap >=? len t).
    + injection H as <-. exists (slice t start end_). split; [apply list_elem_of_here | done].
    + destruct (window_loop fuel t chunk_size overlap (end_ - overlap)) as [ws|];
        [|discriminate].
      injection H as <-. exists (slice t start end_). split; [apply list_elem_of_here | done].
  - destruct (Z.geb_spec (end_ - overlap) (len t)) as [Hstop|_]; [unfold len in Hstop; lia|].
    destruct (window_loop fuel t chunk_size overlap (end_ - overlap)) as [ws|] eqn:Hrec;
      [|discriminate].
    injection H as <-.
    destruct (IH (end_ - overlap) ws p c ltac:(lia) Hc Hrec) as (w & Hw & Hcw).
    exists w. split; [by apply list_elem_of_further | done].
Qed.

(** Every visible character lies in one of the chunks the loop keeps. *)
Lemma kept_windows_visible fuel windows c :
  window_loop fuel t chunk_size overlap 0 = Some windows ->
  c ∈ t -> isspace c = false ->
  exists chunk, chunk ∈ List.concat (kept <$> windows) /\ c ∈ chunk.
Proof.
  intros Hw Hin Hc.
  apply list_elem_of_lookup_1 in Hin as [p Hp].
  destruct (window_loop_lookup fuel 0 windows p c ltac:(lia) Hp Hw) as (w & Hws & Hcw).
  exists (strip w). pose proof (strip_keeps w c Hcw Hc) as Hkept. split; [|done].
  apply list_elem_of_In, in_concat. exists (kept w). split.
  - apply list_elem_of_In. by apply list_elem_of_fmap_2.
  - unfold kept. destruct (strip w); [by apply elem_of_nil in Hkept|]. by left.
Qed.

Lemma chunk_text_enough_fuel fuel :
  (List.length t < fuel)%nat -> is_Some (chunk_text fuel t chunk_size overlap).
Proof.
  intros Hf. unfold chunk_text.
  destruct (negb (nonempty t) || (len t <? chunk_size)); [done|].
  rewrite chunk_loop_windows.
  destruct (window_loop_covers t chunk_size overlap size_ok overlap_ok fuel 0)
    as (ws & -> & _); [unfold len; lia | unfold len; lia |].
  done.
Qed.

(** X6: no visible character is lost: every character of the text that is
    not whitespace occurs in one of the chunks. *)
Theorem chunk_text_keeps_visible_characters fuel chunks c :
  chunk_text fuel t chunk_size overlap = Some chunks ->
  c ∈ t -> isspace c = false ->
  exists chunk, chunk ∈ chunks /\ c ∈ chunk.
Proof.
  unfold chunk_text. intros H Hin Hc.
  destruct (negb (nonempty t) || (len t <? chunk_size)).
  - injection H as <-. destruct t as [|x t'] eqn:Ht; [by apply elem_of_nil in Hin|].
    exists (x :: t'). split; [apply list_elem_of_here | done].
  - rewrite chunk_loop_windows in H.
    destruct (window_loop fuel t chunk_size overlap 0) as [ws|] eqn:Hw; [|discriminate].
    injection H as <-. by apply (kept_windows_visible fuel).
Qed.

(** X4: every chunk is a non-empty part of the text of at most [chunk_size]
    characters. *)
Theorem chunk_text_chunks_bounded fuel chunks :
  chunk_text fuel t chunk_size overlap = Some chunks ->
  Forall (fun c => c <> [] /\ len c <= chunk_size /\
                   exists pre post, t = (pre ++ c ++ post)%list) chunks.
Proof.
  unfold chunk_text.
  destruct (negb (nonempty t) || (len t <? chunk_size)) eqn:Hshort.
  - intros [= <-]. destruct t as [|c t'] eqn:Ht; simpl; [constructor|].
    repeat constructor; [done | | by exists [], []; rewrite app_nil_r].
    simpl in Hshort. apply Z.ltb_lt in Hshort. lia.
  - rewrite chunk_loop_windows.
    destruct (window_loop fuel t chunk_size overlap 0) as [ws|] eqn:Hw; [|discriminate].
    intros [= <-]. simpl.
    apply window_loop_windows in Hw; [|lia].
    induction Hw as [|w ws (i & j & Hi & Hj & ->) _ IH]; [constructor|].
    rewrite fmap_cons.
    change (List.concat (kept (slice t i j) :: (kept <$> ws)))
      with (kept (slice t i j) ++ List.concat (kept <$> ws))%list.
    apply Forall_app. split; [|exact IH].
    unfold kept. destruct (nonempty (strip (slice t i j))) eqn:Hne; [|constructor].
    repeat constructor.
    + intros E. by rewrite E in Hne.
    + pose proof (len_strip (slice t i j)).
      rewrite len_slice in H by lia. lia.
    + destruct (strip_infix (slice t i j)) as (p1 & q1 & H1).
      destruct (slice_infix t i j) as (p2 & q2 & H2).
      exists (p2 ++ p1)%list, (q1 ++ q2)%list.
      rewrite H2 at 1. rewrite H1 at 1. by rewrite <- !app_assoc.
Qed.

(** X5: the chunks of a text of [chunk_size] characters or more neither
    start nor end with whitespace. *)
Theorem chunk_text_chunks_trimmed fuel chunks :
  chunk_size <= len t ->
  chunk_text fuel t chunk_size overlap = Some chunks ->
  Forall (fun c => (forall x, head c = Some x -> isspace x = false) /\
                   (forall x, last c = Some x -> isspace x = false)) chunks.
Proof.
  clear size_ok overlap_ok. intros Hlong. unfold chunk_text.
  destruct (nonempty t) eqn:Hne; cbn [negb orb].
  2:{ intros [= <-]. constructor. }
  destruct (Z.ltb_spec (len t) chunk_size); [lia|].
  rewrite chunk_loop_windows.
  destruct (window_loop fuel t chunk_size overlap 0) as [ws|]; [|discriminate].
  intros [= <-]. simpl. clear.
  induction ws as [|w ws IH]; [constructor|].
  rewrite fmap_cons.
  change (List.concat (kept w :: (kept <$> ws)))
    with (kept w ++ List.concat (kept <$> ws))%list.
  apply Forall_app. split; [|exact IH].
  unfold kept. destruct (nonempty (strip w)); [|constructor].
  repeat constructor; [apply strip_head | apply strip_last].
Qed.

(** X7: with more fuel than the text has characters [chunk_text] ends, and
    the result is the same for every such fuel. *)
Theorem chunk_text_terminates fuel fuel' :
  (List.length t < fuel)%nat ->
  (List.length t < fuel')%nat ->
  exists chunks,
    chunk_text fuel t chunk_size overlap = Some chunks /\
    chunk_text fuel' t chunk_size overlap = Some chunks.
Proof.
  intros Hf Hf'. unfold chunk_text.
  destruct (negb (nonempty t) || (len t <? chunk_size)); [eauto|].
  rewrite !chunk_loop_windows.
  destruct (window_loop_covers t chunk_size overlap size_ok overlap_ok fuel 0)
    as (ws & Hw & _); [unfold len; lia | unfold len; lia |].
  destruct (window_loop_covers t chunk_size overlap size_ok overlap_ok fuel' 0)
    as (ws' & Hw' & _); [unfold len; lia | unfold len; lia |].
  assert (ws' = ws) as ->.
  { pose proof (window_loop_fuel t chunk_size overlap fuel (fuel `max` fuel') 0 ws Hw
                  ltac:(lia)) as H1.
    pose proof (window_loop_fuel t chunk_size overlap fuel' (fuel `max` fuel') 0 ws' Hw'
                  ltac:(lia)) as H2.
    congruence. }
  rewrite Hw, Hw'. eauto.
Qed.

End Chunks.

(** With an overlap of [chunk_size] or more the loop never advances. *)
Lemma chunk_loop_stuck (t : text) chunk_size overlap fuel : forall start chunks,
  0 < chunk_size <= overlap ->
  start < len t ->
  chunk_loop fuel t chunk_size overlap start chunks = None.
Proof.
  induction fuel as [|fuel IH]; intros start chunks Hov Hs; [done|].
  simpl. destruct (Z.ltb_spec start (len t)); [|lia].
  assert (Hlen : 0 <= len t) by (unfold len; lia).
  assert (Hnext : window_end t chunk_size start - overlap < len t).
  { unfold window_end.
    destruct (Z.ltb_spec (start + chunk_size) (len t)); [|lia].
    destruct (rfind_range t "."%char (start + chunk_size - 100) (start + chunk_size))
      as [-> | Hr].
    - destruct (Z.gtb_spec (-1) start); lia.
    - pose proof (adjust_range (len t) (start + chunk_size) Hlen).
      destruct (Z.gtb_spec (rfind t "."%char (start + chunk_size - 100) (start + chunk_size))
                  start); lia. }
  destruct (Z.geb_spec (window_end t chunk_size start - overlap) (len t)); [lia|].
  by apply IH.
Qed.

(** X8: with an overlap of [chunk_size] or more, on a text of [chunk_size]
    characters or more, [chunk_text] does not end: no fuel is enough. *)
Theorem chunk_text_never_ends (t : text) chunk_size overlap fuel :
  0 < chunk_size <= overlap ->
  chunk_size <= len t ->
  chunk_text fuel t chunk_size overlap = None.
Proof.
  intros Hov Hlong. unfold chunk_text.
  assert (Hne : nonempty t = true).
  { destruct t; [unfold len in Hlong; simpl in Hlong; lia | done]. }
  rewrite Hne. destruct (Z.ltb_spec (len t) chunk_size); [lia|]. cbn [negb orb].
  apply chunk_loop_stuck; [done | lia].
Qed.

Lemma chunk_text_keeps_visible_characters_witness :
  exists chunk, chunk ∈ [["a"%char]; ["b"%char]] /\ "b"%char ∈ chunk.
Proof.
  eapply chunk_text_keeps_visible_characters
    with (t := padded) (chunk_size := 1000) (overlap := 200) (fuel := 1201%nat);
    first [lia | vm_compute; reflexivity | idtac].
  unfold padded. apply list_elem_of_further, elem_of_app. right. apply list_elem_of_here.
Defined.

Lemma chunk_text_chunks_bounded_witness :
  Forall (fun c : text => c <> [] /\ len c <= 1000 /\
                   exists pre post, padded = (pre ++ c ++ post)%list)
         [["a"%char]; ["b"%char]].
Proof.
  eapply chunk_text_chunks_bounded
    with (chunk_size := 1000) (overlap := 200) (fuel := 1201%nat);
    first [lia | vm_compute; reflexivity].
Defined.

Lemma chunk_text_chunks_trimmed_witness :
  Forall (fun c : text => (forall x, head c = Some x -> isspace x = false) /\
                          (forall x, last c = Some x -> isspace x = false))
         [["a"%char]; ["b"%char]].
Proof.
  eapply chunk_text_chunks_trimmed
    with (t := padded) (chunk_size := 1000) (overlap := 200) (fuel := 1201%nat);
    first [lia | vm_compute; reflexivity | vm_compute; intros H; discriminate H].
Defined.

Lemma chunk_text_terminates_witness :
  exists chunks,
    chunk_text 1201 padded 1000 200 = Some chunks /\
    chunk_text 5000 padded 1000 200 = Some chunks.
Proof.
  eapply chunk_text_terminates with (t := padded); first [lia | vm_compute; lia].
Defined.

Lemma chunk_text_never_ends_witness :
  chunk_text 50 (repeat "x"%char 1000) 1000 1000 = None.
Proof.
  apply chunk_text_never_ends.
  - lia.
  - vm_compute. intros H. discriminate H.
Defined.

(** ** vector_store.py: storing, searching, counting, deleting *)

Section StoreMore.
Context {embedding : Type}.
Variable create_embeddings : list string -> exn (list embedding).
Variable distance : embedding -> embedding -> Z.
Implicit Types db : gmap string (list (stored_chunk embedding)).
Implicit Types collection : list (stored_chunk embedding).

Local Abbreviation store := (store_document_chunks create_embeddings).
Local Abbreviation search := (search_knowledge_base create_embeddings distance).

(** The entries [collection.add] takes of a batch. *)
Local Abbreviation taken collection batch :=
  (filter (fun c => chunk_id c ∉ chunk_id <$> collection) batch).

(** What a store that succeeds leaves in the collection of its scope. *)
Lemma store_document_chunks_success db client_id file_id filename text_chunks
    sub embeddings :
  create_embeddings text_chunks = Ok embeddings ->
  List.length embeddings = List.length text_chunks ->
  text_chunks <> [] ->
  let name := get_collection_name client_id (Some sub) in
  let collection := default [] (db !! name) in
  store db client_id file_id filename text_chunks (Some sub)
  = (<[name := (collection
                ++ taken collection
                     (imap (chunk_record client_id file_id filename (Some sub))
                        (zip text_chunks embeddings)))%list]> db,
     Ok (List.length text_chunks)).
Proof.
  intros He Hlen Hne name collection. unfold store_document_chunks. rewrite He.
  rewrite bool_decide_eq_true_2 by done. by rewrite insert_insert_eq.
Qed.

(** A store returns a number only when the embeddings were made, one per
    chunk, for a batch that is not empty and a scope with a sub-unit. *)
Lemma store_document_chunks_Ok db client_id file_id filename text_chunks sub_client_id
    db' n :
  store db client_id file_id filename text_chunks sub_client_id = (db', Ok n) ->
  exists sub embeddings,
    sub_client_id = Some sub /\
    create_embeddings text_chunks = Ok embeddings /\
    List.length embeddings = List.length text_chunks /\
    text_chunks <> [] /\
    n = List.length text_chunks.
Proof.
  unfold store_document_chunks.
  destruct sub_client_id as [sub|]; [|discriminate].
  destruct (create_embeddings text_chunks) as [es|]; [|discriminate].
  case_bool_decide as Hok; [|discriminate]. destruct Hok as [Hne Hlen].
  intros [= <- <-]. by exists sub, es.
Qed.

(** A store that raises has at most created the collection of its scope,
    empty. *)
Lemma store_document_chunks_raise (embed : list string -> exn (list embedding))
    db client_id file_id filename text_chunks sub_client_id :
  (store_document_chunks embed db client_id file_id filename text_chunks
     sub_client_id).2 = Raise ->
  let db' := (store_document_chunks embed db client_id file_id filename text_chunks
                sub_client_id).1 in
  db' = db \/
  db' = <[get_collection_name client_id sub_client_id :=
           default [] (db !! get_collection_name client_id sub_client_id)]> db.
Proof.
  unfold store_document_chunks.
  destruct sub_client_id as [sub|]; [|by left].
  destruct (embed text_chunks) as [es|]; [|by right].
  case_bool_decide; [done | by right].
Qed.

(** Creating an empty collection where there was none changes no search. *)
Lemma search_knowledge_base_created db name query client_id sub_client_id n :
  search (<[name := default [] (db !! name)]> db) query client_id sub_client_id n
  = search db query client_id sub_client_id n.
Proof.
  unfold search_knowledge_base.
  destruct (decide (get_collection_name client_id sub_client_id = name)) as [->|Hne].
  - rewrite lookup_insert_eq.
    destruct (db !! name); [done|]. simpl.
    destruct (create_embeddings [query]) as [[|q qs]|]; try done.
    unfold collection_query, merge_sort. simpl. by rewrite take_nil.
  - by rewrite lookup_insert_ne.
Qed.

Lemma chunk_record_documents client_id file_id filename sub_client_id
    (text_chunks : list string) (embeddings : list embedding) :
  List.length embeddings = List.length text_chunks ->
  chunk_document <$> imap (chunk_record client_id file_id filename sub_client_id)
                       (zip text_chunks embeddings)
  = text_chunks.
Proof.
  intros Hlen. rewrite fmap_imap.
  rewrite (imap_ext _ (const fst)) by done.
  rewrite imap_const. apply fst_zip. lia.
Qed.

(** The ids of a batch are those of the file, numbered from 0. *)
Lemma chunk_record_ids client_id file_id filename sub_client_id
    (l : list (string * embedding)) :
  chunk_id <$> imap (chunk_record client_id file_id filename sub_client_id) l
  = (fun i : nat => file_id ++ "_chunk_" ++ pretty i) <$> seq 0 (List.length l).
Proof.
  rewrite fmap_imap.
  rewrite (imap_ext _ (fun i _ => (fun i : nat => file_id ++ "_chunk_" ++ pretty i) i))
    by done.
  by rewrite imap_seq_0.
Qed.

(** Of a batch for a file that is new to the collection every entry is
    taken. *)
Lemma taken_fresh collection client_id file_id filename sub_client_id
    (l : list (string * embedding)) :
  fresh_file collection file_id ->
  taken collection (imap (chunk_record client_id file_id filename sub_client_id) l)
  = imap (chunk_record client_id file_id filename sub_client_id) l.
Proof.
  intros Hfresh.
  assert (Hall : Forall (fun c => chunk_id c ∉ chunk_id <$> collection)
                   (imap (chunk_record client_id file_id filename sub_client_id) l)).
  { apply Forall_forall. intros c Hc.
    apply list_elem_of_lookup in Hc as [i Hi].
    apply list_lookup_imap_Some in Hi as (x & _ & ->). simpl.
    intros Hin. apply list_elem_of_fmap in Hin as (c' & Hid & Hc').
    unfold fresh_file in Hfresh. rewrite Forall_forall in Hfresh.
    by apply (Hfresh c' Hc' i). }
  induction Hall as [|c batch Hc _ IH]; [done|].
  by rewrite filter_cons_True, IH.
Qed.

(** Of a batch whose ids the collection has nothing is taken. *)
Lemma taken_known collection (batch : list (stored_chunk embedding)) :
  Forall (fun c => chunk_id c ∈ chunk_id <$> collection) batch ->
  taken collection batch = [].
Proof.
  induction 1 as [|c batch Hc _ IH]; [done|].
  rewrite filter_cons_False by (intros Hnot; by apply Hnot). exact IH.
Qed.


(** X10: after a store for a sub-unit that succeeds, of a file that is new
    to the collection, a search of the same scope that asks for as many
    results as the collection has entries returns every chunk just
    stored. *)
Theorem stored_chunks_are_found db client_id file_id filename text_chunks
    sub embeddings query q qs n collection :
  create_embeddings text_chunks = Ok embeddings ->
  List.length embeddings = List.length text_chunks ->
  fresh_file (default [] (db !! get_collection_name client_id (Some sub))) file_id ->
  create_embeddings [query] = Ok (q :: qs) ->
  let db' := (store_document_chunks create_embeddings db client_id file_id filename
                text_chunks (Some sub)).1 in
  db' !! get_collection_name client_id (Some sub) = Some collection ->
  (List.length collection <= n)%nat ->
  forall chunk, chunk ∈ text_chunks ->
    chunk ∈ sr_text <$> search_knowledge_base create_embeddings distance db' query
                          client_id (Some sub) n.
Proof.
  intros He Hlen Hfresh Hq db' Hcoll Hn chunk Hchunk.
  assert (Hne : text_chunks <> []) by (intros ->; by apply elem_of_nil in Hchunk).
  unfold search_knowledge_base. rewrite Hcoll, Hq.
  unfold collection_query. rewrite take_ge
    by (by rewrite (Permutation_length (merge_sort_Permutation _ _))).
  rewrite <- list_fmap_compose.
  change (sr_text ∘ format_result distance q) with (@chunk_document embedding).
  rewrite (merge_sort_Permutation _ collection).
  subst db'. rewrite (store_document_chunks_success _ _ _ _ _ _ _ He Hlen Hne) in Hcoll.
  cbv zeta in Hcoll. rewrite (taken_fresh _ _ _ _ _ _ Hfresh) in Hcoll.
  cbn [fst] in Hcoll. rewrite lookup_insert_eq in Hcoll. injection Hcoll as <-.
  rewrite fmap_app, chunk_record_documents by done.
  apply elem_of_app. by right.
Qed.

(** X30: a file that is stored again under its file id, for the same
    sub-unit and with no more chunks than before, is not replaced: the
    second store returns the number of its chunks and leaves the whole
    store as it was, so the collection still holds the documents of the
    first. *)
Theorem stored_file_is_not_replaced db client_id file_id filename filename'
    text_chunks text_chunks' sub :
  let first := store_document_chunks create_embeddings db client_id file_id filename
                 text_chunks (Some sub) in
  let second := store_document_chunks create_embeddings first.1 client_id file_id
                  filename' text_chunks' (Some sub) in
  first.2 = Ok (List.length text_chunks) ->
  (List.length text_chunks' <= List.length text_chunks)%nat ->
  (exists k, second.2 = Ok k) ->
  second = (first.1, Ok (List.length text_chunks')).
Proof.
  intros first second Hfirst Hle [k Hsecond].
  destruct first as [db1 r1] eqn:Hf. cbn [fst snd] in *. subst r1.
  destruct second as [db2 r2] eqn:Hs. cbn [snd] in Hsecond. subst r2.
  subst first second.
  destruct (store_document_chunks_Ok _ _ _ _ _ _ _ _ Hf) as (s1 & es & [= <-] & He & Hlen & Hne & _).
  destruct (store_document_chunks_Ok _ _ _ _ _ _ _ _ Hs) as (s2 & es' & _ & He' & Hlen' & Hne' & ->).
  rewrite (store_document_chunks_success _ _ _ _ _ _ _ He Hlen Hne) in Hf.
  cbv zeta in Hf. injection Hf as Hdb1.
  rewrite (store_document_chunks_success _ _ _ _ _ _ _ He' Hlen' Hne') in Hs.
  cbv zeta in Hs. injection Hs as Hdb2.
  set (name := get_collection_name client_id (Some sub)) in *.
  set (old := default [] (db !! name)) in *.
  set (batch := imap (chunk_record client_id file_id filename (Some sub))
                  (zip text_chunks es)) in *.
  assert (Hcoll : db1 !! name = Some (old ++ taken old batch)%list).
  { by rewrite <- Hdb1, lookup_insert_eq. }
  assert (Hdef : default [] (db1 !! name) = (old ++ taken old batch)%list)
    by (by rewrite Hcoll).
  rewrite Hdef in Hdb2.
  assert (Hknown : Forall (fun c => chunk_id c ∈ chunk_id <$> (old ++ taken old batch)%list)
                     (imap (chunk_record client_id file_id filename' (Some sub))
                        (zip text_chunks' es'))).
  { apply Forall_forall. intros c Hc.
    apply (list_elem_of_fmap_2 chunk_id) in Hc.
    rewrite chunk_record_ids in Hc.
    apply list_elem_of_fmap in Hc as (i & -> & Hi). apply elem_of_seq in Hi.
    rewrite length_zip_with_l_eq in Hi by lia.
    assert (Hin : file_id ++ "_chunk_" ++ pretty i ∈ chunk_id <$> batch).
    { unfold batch. rewrite chunk_record_ids.
      apply (list_elem_of_fmap_2 (fun i : nat => file_id ++ "_chunk_" ++ pretty i)).
      apply elem_of_seq. rewrite length_zip_with_l_eq by lia. lia. }
    apply list_elem_of_fmap in Hin as (b & Hid & Hb).
    rewrite Hid, fmap_app. apply elem_of_app.
    destruct (decide (chunk_id b ∈ chunk_id <$> old)) as [Hold|Hnew]; [by left|].
    right. apply list_elem_of_fmap_2. by apply list_elem_of_filter. }
  rewrite (taken_known _ _ Hknown), app_nil_r in Hdb2.
  rewrite <- Hdb2. f_equal. by apply insert_id.
Qed.

Lemma StronglySorted_take {A} (R : relation A) (l : list A) n :
  StronglySorted R l -> StronglySorted R (take n l).
Proof.
  intros H. rewrite <- (take_drop n l) in H. by apply StronglySorted_app_1_l in H.
Qed.

(** X11: a search returns at most [n_results] results, the best score first. *)
Theorem search_knowledge_base_ranked db query client_id sub_client_id n :
  let results :=
    search_knowledge_base create_embeddings distance db query client_id sub_client_id n in
  (List.length results <= n)%nat /\
  StronglySorted (fun a b => sr_score b <= sr_score a) results.
Proof.
  unfold search_knowledge_base.
  destruct (db !! get_collection_name client_id sub_client_id) as [collection|];
    [|split; [simpl; lia | constructor]].
  destruct (create_embeddings [query]) as [[|q qs]|];
    try (split; [simpl; lia | constructor]).
  split.
  - rewrite length_fmap. unfold collection_query. rewrite length_take. lia.
  - apply (StronglySorted_fmap _ (closer distance q)).
    + unfold closer, format_result. simpl. intros; lia.
    + unfold collection_query. apply StronglySorted_take.
      apply StronglySorted_merge_sort.
      * intros a b c. unfold closer. lia.
      * intros a b. unfold closer. lia.
Qed.

(** X12: a store that raises, at the embedding step or at the insertion,
    changes the result of no search, whatever the embedding provider does at
    the time of the store. *)
Theorem failed_store_changes_no_search (embed : list string -> exn (list embedding))
    db client_id file_id filename text_chunks sub_client_id query client_id'
    sub_client_id' n :
  (store_document_chunks embed db client_id file_id filename text_chunks
     sub_client_id).2 = Raise ->
  search (store_document_chunks embed db client_id file_id filename text_chunks
            sub_client_id).1
    query client_id' sub_client_id' n
  = search db query client_id' sub_client_id' n.
Proof.
  intros Hraise.
  destruct (store_document_chunks_raise _ _ _ _ _ _ _ Hraise) as [-> | ->]; [done|].
  apply search_knowledge_base_created.
Qed.

End StoreMore.

Lemma notes_store_fresh :
  fresh_file (default [] (notes_store !! get_collection_name "acme" (Some "legal"))) "f2".
Proof.
  vm_compute default. repeat constructor; intros i H;
    rewrite !append_cons in H; discriminate H.
Qed.


Lemma stored_chunks_are_found_witness :
  "gamma" ∈ sr_text <$>
    search_knowledge_base unit_embeddings (fun _ _ => 0)
      (store_document_chunks unit_embeddings notes_store "acme" "f2" "more.txt"
         ["gamma"] (Some "legal")).1
      "greek letters" "acme" (Some "legal") 5.
Proof.
  eapply (stored_chunks_are_found unit_embeddings (fun _ _ => 0) notes_store "acme" "f2"
            "more.txt" ["gamma"] "legal" [tt] "greek letters" tt [] 5);
    [reflexivity | reflexivity | exact notes_store_fresh | reflexivity | reflexivity
    | vm_compute; lia | apply list_elem_of_here].
Defined.

Lemma stored_file_is_not_replaced_witness :
  let second := store_document_chunks unit_embeddings notes_store "acme" "f1" "notes.txt"
                  ["omega"] (Some "legal") in
  second = (notes_store, Ok 1%nat) /\
  sr_text <$> search_knowledge_base unit_embeddings (fun _ _ => 0) second.1 "omega"
                "acme" (Some "legal") 5 = ["alpha"; "beta"].
Proof.
  intros second. split; [|reflexivity].
  apply (stored_file_is_not_replaced unit_embeddings ∅ "acme" "f1" "notes.txt" "notes.txt"
           ["alpha"; "beta"] ["omega"] "legal").
  - reflexivity.
  - simpl. lia.
  - by exists 1%nat.
Defined.

Lemma failed_store_changes_no_search_witness :
  search_knowledge_base unit_embeddings (fun _ _ => 0)
    (store_document_chunks failing_embeddings notes_store "acme" "f2" "more.txt"
       ["gamma"] (Some "legal")).1
    "greek letters" "acme" (Some "legal") 5
  = search_knowledge_base unit_embeddings (fun _ _ => 0) notes_store
      "greek letters" "acme" (Some "legal") 5.
Proof.
  apply (failed_store_changes_no_search unit_embeddings (fun _ _ => 0) failing_embeddings).
  reflexivity.
Defined.

(** ** vector_store.py: statistics and deletion *)

Lemma pretty_N_go_underscore_free x : forall s,
  underscore_free s -> underscore_free (pretty_N_go x s).
Proof.
  induction (N.lt_wf_0 x) as [x _ IH]; intros s Hs.
  destruct (decide (x = 0)%N) as [->|Hx]; [by rewrite pretty_N_go_0|].
  rewrite pretty_N_go_step by lia. apply IH.
  - apply N.div_lt; lia.
  - apply underscore_free_cons. split; [|done].
    unfold pretty_N_char. by repeat case_match.
Qed.

Lemma pretty_nat_underscore_free (n : nat) : underscore_free (pretty n).
Proof.
  unfold pretty, pretty_nat, pretty, pretty_N.
  case_decide.
  - repeat constructor. done.
  - apply pretty_N_go_underscore_free. constructor.
Qed.

(** How many underscores a list of characters has. *)
Lemma underscores_app l1 l2 : underscores (l1 ++ l2) = (underscores l1 + underscores l2)%nat.
Proof. unfold underscores. by rewrite filter_app, length_app. Qed.

Lemma underscores_free l : Forall (fun c => c <> "_"%char) l -> underscores l = 0%nat.
Proof.
  unfold underscores. induction 1 as [|c l Hc _ IH]; [done|].
  by rewrite filter_cons_False.
Qed.

Lemma chunk_id_tail_inj (l1 : list ascii) : forall l2 p1 p2,
  Forall (fun c => c <> "_"%char) p1 ->
  Forall (fun c => c <> "_"%char) p2 ->
  (l1 ++ list_ascii_of_string "_chunk_" ++ p1 = l2 ++ list_ascii_of_string "_chunk_" ++ p2)%list ->
  l1 = l2.
Proof.
  assert (Hstuck : forall l p p',
             Forall (fun c => c <> "_"%char) p -> Forall (fun c => c <> "_"%char) p' ->
             (list_ascii_of_string "chunk_" ++ p
              = l ++ list_ascii_of_string "_chunk_" ++ p')%list -> False).
  { intros l p p' Hp Hp' Heq. apply (f_equal underscores) in Heq.
    rewrite !underscores_app, (underscores_free p Hp), (underscores_free p' Hp') in Heq.
    change (underscores (list_ascii_of_string "chunk_")) with 1%nat in Heq.
    change (underscores (list_ascii_of_string "_chunk_")) with 2%nat in Heq. lia. }
  induction l1 as [|a l1 IH]; intros [|b l2] p1 p2 H1 H2 Heq.
  - done.
  - exfalso. injection Heq as _ Heq. by apply (Hstuck l2 p1 p2).
  - exfalso. injection Heq as _ Heq. symmetry in Heq. by apply (Hstuck l1 p2 p1).
  - injection Heq as -> Heq. f_equal. by apply (IH l2 p1 p2).
Qed.

Lemma list_ascii_of_string_app (s1 s2 : string) :
  list_ascii_of_string (s1 ++ s2) = (list_ascii_of_string s1 ++ list_ascii_of_string s2)%list.
Proof.
  induction s1 as [|a s1 IH]; [done|].
  rewrite append_cons. simpl. by rewrite IH.
Qed.

(** The ids [store_document_chunks] gives tell the file: two ids of the
    form [{file_id}_chunk_{i}] are equal only for the same file. *)
Lemma chunk_id_inj (f1 f2 : string) (i j : nat) :
  f1 ++ "_chunk_" ++ pretty i = f2 ++ "_chunk_" ++ pretty j -> f1 = f2.
Proof.
  intros Heq. apply (f_equal list_ascii_of_string) in Heq.
  rewrite !list_ascii_of_string_app in Heq.
  apply chunk_id_tail_inj in Heq;
    [| apply pretty_nat_underscore_free | apply pretty_nat_underscore_free].
  rewrite <- (string_of_list_ascii_of_string f1), <- (string_of_list_ascii_of_string f2).
  by rewrite Heq.
Qed.

Section DeleteFacts.
Context {embedding : Type}.
Implicit Types db : gmap string (list (stored_chunk embedding)).
Implicit Types collection : list (stored_chunk embedding).

Lemma delete_file_chunks_lookup db file_id client_id sub_client_id collection :
  db !! get_collection_name client_id sub_client_id = Some collection ->
  delete_file_chunks db file_id client_id sub_client_id
    !! get_collection_name client_id sub_client_id
  = Some (filter (fun c => chunk_id c ∉ ids_of_file collection file_id) collection).
Proof.
  intros Hc. unfold delete_file_chunks. rewrite Hc.
  destruct (ids_of_file collection file_id) as [|i ids] eqn:Hids.
  - rewrite Hc. f_equal. clear Hc Hids.
    induction collection as [|c l IH]; [done|].
    rewrite filter_cons_True by apply not_elem_of_nil. by rewrite <- IH at 1.
  - by rewrite lookup_insert_eq.
Qed.

(** [delete_file_chunks] touches the collection of its scope only. *)
Lemma delete_file_chunks_other db file_id client_id sub_client_id name :
  name <> get_collection_name client_id sub_client_id ->
  delete_file_chunks db file_id client_id sub_client_id !! name = db !! name.
Proof.
  intros Hne. unfold delete_file_chunks.
  destruct (db !! get_collection_name client_id sub_client_id) as [collection|]; [|done].
  destruct (ids_of_file collection file_id); [done|]. by rewrite lookup_insert_ne.
Qed.

(** X14: in a collection whose ids are those [store_document_chunks] gives,
    [delete_file_chunks] removes the entries of the file and no other, and
    keeps the order of the rest. *)
Theorem delete_file_chunks_exact db file_id client_id sub_client_id collection :
  db !! get_collection_name client_id sub_client_id = Some collection ->
  keyed_by_file collection ->
  delete_file_chunks db file_id client_id sub_client_id
    !! get_collection_name client_id sub_client_id
  = Some (filter (fun c => md_file_id (chunk_metadata_of c) <> file_id) collection).
Proof.
  intros Hdb Hkeyed. rewrite (delete_file_chunks_lookup _ _ _ _ _ Hdb). f_equal.
  assert (Hiff : Forall (fun c => chunk_id c ∉ ids_of_file collection file_id
                                  <-> md_file_id (chunk_metadata_of c) <> file_id) collection).
  { apply Forall_forall. intros c Hc. split.
    - intros Hid Hfile. apply Hid. unfold ids_of_file.
      apply list_elem_of_fmap_2. by apply list_elem_of_filter.
    - intros Hfile Hid. apply Hfile. unfold ids_of_file in Hid.
      apply list_elem_of_fmap_1 in Hid as (c' & Hids & Hc').
      apply list_elem_of_filter in Hc' as [Hf' Hin'].
      unfold keyed_by_file in Hkeyed. rewrite Forall_forall in Hkeyed.
      destruct (Hkeyed c Hc) as [i Hi]. destruct (Hkeyed c' Hin') as [j Hj].
      rewrite Hi, Hj in Hids. apply chunk_id_inj in Hids. congruence. }
  clear Hdb Hkeyed. revert Hiff. generalize (ids_of_file collection file_id).
  intros ids Hiff. induction Hiff as [|c l Hc _ IH]; [done|].
  rewrite !filter_cons. rewrite IH.
  destruct (decide (chunk_id c ∉ ids)), (decide (md_file_id (chunk_metadata_of c) <> file_id));
    tauto.
Qed.

End DeleteFacts.

Section AdminFacts.
Context {embedding : Type}.
Variable create_embeddings : list string -> exn (list embedding).
Variable distance : embedding -> embedding -> Z.
Implicit Types db : gmap string (list (stored_chunk embedding)).
Implicit Types collection : list (stored_chunk embedding).

Local Abbreviation store := (store_document_chunks create_embeddings).
Local Abbreviation search := (search_knowledge_base create_embeddings distance).

(** X13: after [delete_file_chunks] no search of that scope returns a chunk
    of the file. *)
Theorem deleted_file_is_not_found db file_id client_id sub_client_id query n r :
  r ∈ search (delete_file_chunks db file_id client_id sub_client_id)
        query client_id sub_client_id n ->
  md_file_id (sr_metadata r) <> file_id.
Proof.
  intros Hr.
  apply search_knowledge_base_from_collection in Hr as (coll' & c & Hcoll' & Hc & _ & ->).
  destruct (db !! get_collection_name client_id sub_client_id) as [collection|] eqn:Hdb.
  - rewrite (delete_file_chunks_lookup _ _ _ _ _ Hdb) in Hcoll'.
    injection Hcoll' as <-. apply list_elem_of_filter in Hc as [Hid Hin].
    intros Hfile. apply Hid. unfold ids_of_file.
    apply list_elem_of_fmap_2. by apply list_elem_of_filter.
  - unfold delete_file_chunks in Hcoll'. rewrite Hdb in Hcoll'. congruence.
Qed.

Lemma store_document_chunks_keyed db client_id file_id filename text_chunks
    sub_client_id name collection' :
  (forall collection, db !! name = Some collection -> keyed_by_file collection) ->
  (store db client_id file_id filename text_chunks sub_client_id).1 !! name
    = Some collection' ->
  keyed_by_file collection'.
Proof.
  intros Hdb.
  destruct (decide (name = get_collection_name client_id sub_client_id)) as [->|Hne].
  2:{ rewrite store_document_chunks_other by done. apply Hdb. }
  unfold store_document_chunks.
  set (scope := get_collection_name client_id sub_client_id) in *.
  assert (Hold : keyed_by_file (default [] (db !! scope))).
  { destruct (db !! scope) eqn:E; [by apply Hdb | constructor]. }
  destruct sub_client_id as [sub|]; [|apply Hdb].
  destruct (create_embeddings text_chunks) as [es|]; simpl.
  2:{ rewrite lookup_insert_eq. by intros [= <-]. }
  case_bool_decide; simpl; rewrite ?lookup_insert_eq; intros [= <-]; [|done].
  apply Forall_app. split; [done|].
  apply Forall_forall. intros c Hc. apply list_elem_of_filter in Hc as [_ Hc].
  apply list_elem_of_lookup in Hc as [i Hi].
  apply list_lookup_imap_Some in Hi as (x & _ & ->). by exists i.
Qed.

End AdminFacts.

Lemma deleted_file_is_not_found_witness :
  let r := {| sr_text := "gamma";
              sr_metadata := mkMeta "f2" "more.txt" 0 "acme" (Some "legal") 5;
              sr_score := 1 |} in
  r ∈ search_knowledge_base unit_embeddings (fun _ _ => 0)
        (delete_file_chunks two_files_store "f1" "acme" (Some "legal")) "greek" "acme"
        (Some "legal") 5 /\
  md_file_id (sr_metadata r) <> "f1".
Proof.
  intros r.
  assert (H : r ∈ search_knowledge_base unit_embeddings (fun _ _ => 0)
                    (delete_file_chunks two_files_store "f1" "acme" (Some "legal"))
                    "greek" "acme" (Some "legal") 5).
  { vm_compute. apply list_elem_of_here. }
  split; [exact H|].
  exact (deleted_file_is_not_found unit_embeddings (fun _ _ => 0) two_files_store "f1"
           "acme" (Some "legal") "greek" 5 r H).
Defined.

Lemma delete_file_chunks_exact_witness :
  chunk_document <$>
    default [] (delete_file_chunks two_files_store "f1" "acme" (Some "legal")
                  !! get_collection_name "acme" (Some "legal"))
  = ["gamma"].
Proof.
  rewrite (delete_file_chunks_exact two_files_store "f1" "acme" (Some "legal")
             (default [] (two_files_store !! get_collection_name "acme" (Some "legal")))).
  - reflexivity.
  - reflexivity.
  - vm_compute.
    repeat constructor; [exists 0%nat | exists 1%nat | exists 0%nat]; reflexivity.
Defined.

(** ** recall_service.py: the bots of a user *)

Lemma remove_first_Permutation (x : string) (l : list string) :
  x ∈ l -> l ≡ₚ x :: remove_first x l.
Proof.
  induction l as [|y l IH]; intros Hin; [by apply elem_of_nil in Hin|].
  simpl. destruct (String.eqb_spec y x) as [->|Hne]; [done|].
  apply elem_of_cons in Hin as [->|Hin]; [done|].
  rewrite (IH Hin) at 1. apply Permutation_swap.
Qed.

Lemma get_user_bots_remove (reg : user_bots) (user_id bot_id : string) :
  bot_id ∈ get_user_bots reg user_id ->
  get_user_bots (remove_user_bot reg user_id bot_id) user_id
  = remove_first bot_id (get_user_bots reg user_id).
Proof.
  unfold get_user_bots, remove_user_bot. intros Hin.
  destruct (reg !! user_id) as [bots|] eqn:E; simpl in *; [|by apply elem_of_nil in Hin].
  rewrite bool_decide_eq_true_2 by done. by rewrite lookup_insert_eq.
Qed.

Lemma remove_user_bot_other (reg : user_bots) (user_id bot_id other : string) :
  other <> user_id -> remove_user_bot reg user_id bot_id !! other = reg !! other.
Proof.
  intros Hne. unfold remove_user_bot.
  destruct (reg !! user_id) as [bots|]; [|done].
  case_bool_decide; [|done]. by rewrite lookup_insert_ne.
Qed.

(** X15: tracking a bot and then dropping it leaves the user with the bots
    the user had, their order apart: [list.remove] takes the first
    occurrence away, which is not the one just appended when the bot was
    tracked before.  The lists of the other users are as they were. *)
Theorem add_then_remove_user_bot (reg : user_bots) (user_id bot_id other : string) :
  let reg' := remove_user_bot (add_user_bot reg user_id bot_id) user_id bot_id in
  get_user_bots reg' other ≡ₚ get_user_bots reg other /\
  (other <> user_id -> reg' !! other = reg !! other).
Proof.
  intros reg'. subst reg'.
  assert (Hother : other <> user_id ->
            remove_user_bot (add_user_bot reg user_id bot_id) user_id bot_id !! other
            = reg !! other).
  { intros Hne. rewrite remove_user_bot_other by done.
    unfold add_user_bot. by rewrite lookup_insert_ne. }
  split; [|done].
  destruct (decide (other = user_id)) as [->|Hne].
  - assert (Hadd : get_user_bots (add_user_bot reg user_id bot_id) user_id
                   = (get_user_bots reg user_id ++ [bot_id])%list).
    { unfold add_user_bot. unfold get_user_bots at 1. by rewrite lookup_insert_eq. }
    assert (Hin : bot_id ∈ get_user_bots (add_user_bot reg user_id bot_id) user_id).
    { rewrite Hadd. apply elem_of_app. right. apply list_elem_of_here. }
    rewrite (get_user_bots_remove _ _ _ Hin).
    apply (Permutation_cons_inv (a := bot_id)).
    rewrite <- (remove_first_Permutation _ _ Hin), Hadd.
    by rewrite Permutation_app_comm.
  - unfold get_user_bots. by rewrite (Hother Hne).
Qed.

Section Cleanup.
Variable self : RecallAIBot.
Variable api_at : nat -> provider.
Variable user_id : string.

Lemma cleanup_loop_spec (before : list string) : forall bot_ids k reg cleaned requests,
  before ≡ₚ (requests ++ get_user_bots reg user_id)%list ->
  cleaned = List.length requests ->
  bot_ids ⊆+ get_user_bots reg user_id ->
  let '(reg', cleaned', requests') :=
    cleanup_loop self api_at user_id k bot_ids (reg, cleaned, requests) in
  before ≡ₚ (requests' ++ get_user_bots reg' user_id)%list /\
  cleaned' = List.length requests' /\
  (forall other, other <> user_id -> reg' !! other = reg !! other).
Proof.
  induction bot_ids as [|bot_id rest IH]; intros k reg cleaned requests Hperm Hlen Hsub.
  - simpl. done.
  - assert (Hrest : rest ⊆+ get_user_bots reg user_id).
    { trans (bot_id :: rest); [by apply submseteq_cons|exact Hsub]. }
    assert (Hin : bot_id ∈ get_user_bots reg user_id).
    { eapply elem_of_submseteq; [apply list_elem_of_here|exact Hsub]. }
    simpl.
    destruct (get_bot_status self (api_at k) (Some bot_id)) as [status_result|];
      [|by apply IH].
    destruct (str_in (bs_status status_result) ["done"; "failed"; "error"; "fatal"]);
      [|by apply IH].
    specialize (IH (S k) (remove_user_bot reg user_id bot_id) (S cleaned)
                  (requests ++ [bot_id])%list).
    destruct (cleanup_loop self api_at user_id (S k) rest
                (remove_user_bot reg user_id bot_id, S cleaned, (requests ++ [bot_id])%list))
      as [[reg' cleaned'] requests'].
    destruct IH as (H1 & H2 & H3).
    + rewrite (get_user_bots_remove _ _ _ Hin), Hperm, <- app_assoc. simpl.
      by rewrite <- (remove_first_Permutation _ _ Hin).
    + rewrite length_app. simpl. lia.
    + rewrite (get_user_bots_remove _ _ _ Hin).
      rewrite (remove_first_Permutation _ _ Hin) in Hsub.
      by apply (submseteq_app_inv_l _ _ [bot_id]).
    + split; [done|]. split; [done|].
      intros other Hne. rewrite H3 by done. by apply remove_user_bot_other.
Qed.

(** X16: [cleanup_old_bots] loses no bot: the bots tracked before are those
    it asked to delete together with those still tracked, the numbers it
    reports add up to the number tracked before, and the bots of the other
    users are as they were. *)
Theorem cleanup_old_bots_accounts (reg : user_bots) :
  let out := cleanup_old_bots self api_at reg user_id in
  get_user_bots reg user_id
    ≡ₚ (delete_requests out.2 ++ get_user_bots out.1 user_id)%list /\
  (cleaned_up out.2 + remaining_bots out.2)%nat = List.length (get_user_bots reg user_id) /\
  forall other, other <> user_id -> out.1 !! other = reg !! other.
Proof.
  unfold cleanup_old_bots.
  pose proof (cleanup_loop_spec (get_user_bots reg user_id) (get_user_bots reg user_id)
                0 reg 0%nat [] (reflexivity _) eq_refl (reflexivity _)) as H.
  destruct (cleanup_loop self api_at user_id 0 (get_user_bots reg user_id) (reg, 0%nat, []))
    as [[reg' cleaned'] requests'].
  destruct H as (H1 & H2 & H3). simpl.
  split; [done|]. split; [|done].
  rewrite H2, H1 at 1. by rewrite length_app.
Qed.

Lemma cleanup_loop_requests (bot_id : string) :
  (forall k s, get_bot_status self (api_at k) (Some bot_id) = Success s ->
     str_in (bs_status s) ["done"; "failed"; "error"; "fatal"] = false) ->
  forall bot_ids k reg cleaned requests,
    bot_id ∉ requests ->
    bot_id ∉ ((cleanup_loop self api_at user_id k bot_ids (reg, cleaned, requests)).2).
Proof.
  intros Hactive. induction bot_ids as [|b rest IH]; intros k reg cleaned requests Hnot;
    [done|].
  simpl. destruct (get_bot_status self (api_at k) (Some b)) as [s|] eqn:Hs; [|by apply IH].
  destruct (str_in (bs_status s) ["done"; "failed"; "error"; "fatal"]) eqn:Hterm;
    [|by apply IH].
  apply IH. intros Hin. apply elem_of_app in Hin as [Hin|Hin]; [done|].
  apply list_elem_of_singleton in Hin as ->.
  specialize (Hactive k s Hs). congruence.
Qed.

(** X17: a bot whose polls never show one of the four final statuses is
    never asked to be deleted, and stays tracked as often as it was. *)
Theorem cleanup_old_bots_keeps_active (reg : user_bots) (bot_id : string) :
  (forall k s, get_bot_status self (api_at k) (Some bot_id) = Success s ->
     str_in (bs_status s) ["done"; "failed"; "error"; "fatal"] = false) ->
  let out := cleanup_old_bots self api_at reg user_id in
  (bot_id ∉ delete_requests out.2) /\
  List.length (filter (eq bot_id) (get_user_bots out.1 user_id))
  = List.length (filter (eq bot_id) (get_user_bots reg user_id)).
Proof.
  intros Hactive.
  pose proof (cleanup_loop_requests bot_id Hactive (get_user_bots reg user_id) 0 reg
                0%nat [] (not_elem_of_nil _)) as Hreq.
  pose proof (cleanup_loop_spec (get_user_bots reg user_id) (get_user_bots reg user_id)
                0 reg 0%nat [] (reflexivity _) eq_refl (reflexivity _)) as H.
  unfold cleanup_old_bots.
  destruct (cleanup_loop self api_at user_id 0 (get_user_bots reg user_id) (reg, 0%nat, []))
    as [[reg' cleaned'] requests'].
  destruct H as (H1 & _ & _). simpl in *. split; [done|].
  rewrite H1, filter_app, length_app.
  assert (Hnone : filter (eq bot_id) requests' = []).
  { clear H1. induction requests' as [|r l IH]; [done|].
    rewrite filter_cons_False.
    - apply IH. intros Hin. apply Hreq. by right.
    - intros <-. apply Hreq. by left. }
  by rewrite Hnone.
Qed.

End Cleanup.

Lemma cleanup_old_bots_keeps_active_witness :
  let out := cleanup_old_bots fresh_bot (fun _ _ => Ok sample_job)
               {["u1" := ["b1"]]} "u1" in
  "b1" ∉ delete_requests out.2.
Proof.
  intros out.
  apply (cleanup_old_bots_keeps_active fresh_bot (fun _ _ => Ok sample_job) "u1"
           {["u1" := ["b1"]]} "b1").
  intros k s H. vm_compute in H. injection H as <-. reflexivity.
Defined.

(** ** meeting_intelligence.py: what the monitor schedules and leaves alone *)

Section MonitorMore.
Context {embedding : Type}.
Implicit Types st : @state embedding.

(** The parts of the state the monitor never writes. *)
Lemma monitor_poll_frame st api id bot :
  let out := monitor_poll st api id bot in
  (forall other, other <> id -> active_meetings out.1 !! other = active_meetings st !! other) /\
  recall_service out.1 = recall_service st /\
  knowledge out.1 = knowledge st /\
  outputs out.1 = outputs st /\
  completions out.1 = completions st /\
  clock out.1 = clock st.
Proof.
  unfold monitor_poll.
  destruct (get_bot_status (recall_service st) api (Some bot)) as [r|e]; [|done].
  destruct (str_in (bs_status r) ["done"; "completed"; "finished"]);
    [|destruct (str_in (bs_status r) ["failed"; "error"])];
    (split; [|done]); intros other Hne; cbn;
    by rewrite ?lookup_alter_ne.
Qed.

Lemma monitor_loop_frame polls : forall st id bot,
  let out := monitor_loop polls st id bot in
  (forall other, other <> id -> active_meetings out.1 !! other = active_meetings st !! other) /\
  recall_service out.1 = recall_service st /\
  knowledge out.1 = knowledge st /\
  outputs out.1 = outputs st /\
  completions out.1 = completions st /\
  clock out.1 = clock st.
Proof.
  induction polls as [|api polls IH]; intros st id bot; [done|].
  cbn [monitor_loop].
  pose proof (monitor_poll_frame st api id bot) as (H1 & H2 & H3 & H4 & H5 & H6).
  destruct (monitor_poll st api id bot) as [st1 [|]]; [|done].
  cbn [fst] in *.
  destruct (IH st1 id bot) as (G1 & G2 & G3 & G4 & G5 & G6).
  split; [|repeat split; congruence].
  intros other Hne. by rewrite G1, H1.
Qed.

(** X18: the monitor writes nothing but the status of its own session, the
    queue and the task list: the other sessions, the provider client, the
    knowledge store, the stored outputs, the completion log and the clock
    are as before; for an identifier that is not registered it returns at
    once and nothing changes at all. *)
Theorem monitor_touches_own_session_only (polls : list provider) st id :
  let out := _monitor_meeting_completion polls st id in
  (forall other, other <> id -> active_meetings out.1 !! other = active_meetings st !! other) /\
  recall_service out.1 = recall_service st /\
  knowledge out.1 = knowledge st /\
  outputs out.1 = outputs st /\
  completions out.1 = completions st /\
  clock out.1 = clock st /\
  (active_meetings st !! id = None -> out = (st, Exited)).
Proof.
  unfold _monitor_meeting_completion.
  destruct (active_meetings st !! id) as [m|]; [|done].
  pose proof (monitor_loop_frame polls st id (bot_id m)) as (H1 & H2 & H3 & H4 & H5 & H6).
  done.
Qed.

(** What one poll does to the queue and the tasks. *)
Lemma monitor_poll_schedule st api id m s0 :
  active_meetings st !! id = Some (with_status s0 m) ->
  let out := monitor_poll st api id (bot_id m) in
  exists s, active_meetings out.1 !! id = Some (with_status s m) /\
    (out.2 = Polling -> processing_queue out.1 = processing_queue st /\ tasks out.1 = tasks st) /\
    (out.2 = Exited ->
       if str_in s ["done"; "completed"; "finished"]
       then processing_queue out.1 = (processing_queue st ++ [id])%list /\
            tasks out.1 = (tasks st ++ [ProcessTask id])%list
       else processing_queue out.1 = processing_queue st /\ tasks out.1 = tasks st).
Proof.
  intros Hm. unfold monitor_poll.
  destruct (get_bot_status (recall_service st) api (Some (bot_id m))) as [r|e].
  2:{ exists s0. by repeat split. }
  destruct (str_in (bs_status r) ["done"; "completed"; "finished"]) eqn:Hdone.
  { exists (bs_status r). split; [by apply (set_status_lookup st id _ s0)|].
    split; [done|]. intros _. by rewrite Hdone. }
  destruct (str_in (bs_status r) ["failed"; "error"]) eqn:Hfail.
  { exists (JStr "failed"). split.
    - eapply set_status_lookup. by apply (set_status_lookup st id _ s0).
    - by repeat split. }
  exists (bs_status r). split; [by apply (set_status_lookup st id _ s0)|].
  by repeat split.
Qed.

Lemma monitor_loop_schedule polls : forall st id m s0,
  active_meetings st !! id = Some (with_status s0 m) ->
  let out := monitor_loop polls st id (bot_id m) in
  exists s, active_meetings out.1 !! id = Some (with_status s m) /\
    (out.2 = Polling -> processing_queue out.1 = processing_queue st /\ tasks out.1 = tasks st) /\
    (out.2 = Exited ->
       if str_in s ["done"; "completed"; "finished"]
       then processing_queue out.1 = (processing_queue st ++ [id])%list /\
            tasks out.1 = (tasks st ++ [ProcessTask id])%list
       else processing_queue out.1 = processing_queue st /\ tasks out.1 = tasks st).
Proof.
  induction polls as [|api polls IH]; intros st id m s0 Hm.
  { exists s0. by repeat split. }
  cbn [monitor_loop].
  destruct (monitor_poll_schedule st api id m s0 Hm) as (s1 & Hm1 & Hpoll & Hexit).
  destruct (monitor_poll st api id (bot_id m)) as [st1 [|]]; cbn [fst snd] in *.
  - destruct (Hpoll eq_refl) as [Hq Ht].
    destruct (IH st1 id m s1 Hm1) as (s & Hm' & Hpoll' & Hexit').
    exists s. split; [done|]. rewrite <- Hq, <- Ht. by split.
  - exists s1. split; [done|]. by split.
Qed.

(** X19: the monitor schedules the processing of its session exactly when it
    leaves the loop with the status done, completed or finished: the session
    is then appended to the queue and one processing task is created. While
    it polls, and when it leaves on a failure, the queue and the tasks are
    as before. *)
Theorem monitor_schedules_processing (polls : list provider) st id m :
  active_meetings st !! id = Some m ->
  let out := _monitor_meeting_completion polls st id in
  exists s, active_meetings out.1 !! id = Some (with_status s m) /\
    (processing_queue out.1, tasks out.1)
    = match out.2 with
      | Exited =>
          if str_in s ["done"; "completed"; "finished"]
          then ((processing_queue st ++ [id])%list, (tasks st ++ [ProcessTask id])%list)
          else (processing_queue st, tasks st)
      | Polling => (processing_queue st, tasks st)
      end.
Proof.
  intros Hm. unfold _monitor_meeting_completion. rewrite Hm.
  assert (Hm0 : active_meetings st !! id = Some (with_status (status m) m))
    by (by rewrite with_status_same).
  destruct (monitor_loop_schedule polls st id m (status m) Hm0) as (s & Hm' & Hpoll & Hexit).
  exists s. split; [done|].
  destruct (monitor_loop polls st id (bot_id m)) as [st' [|]]; cbn [fst snd] in *.
  - destruct (Hpoll eq_refl) as [-> ->]. done.
  - specialize (Hexit eq_refl).
    destruct (str_in s ["done"; "completed"; "finished"]); by destruct Hexit as [-> ->].
Qed.

End MonitorMore.

Lemma monitor_schedules_processing_witness :
  let out := _monitor_meeting_completion
               [(fun _ => Ok sample_job) : provider; fun _ => Ok recorded_job]
               (started_service []) "m1" in
  processing_queue out.1 = ["m1"] /\
  tasks out.1 = [MonitorTask "m1"; ProcessTask "m1"].
Proof.
  intros out.
  destruct (monitor_schedules_processing
              [(fun _ => Ok sample_job) : provider; fun _ => Ok recorded_job]
              (started_service []) "m1" (standup []) (started_service_registers []))
    as (s & Hs & Hsched).
  fold out in Hs, Hsched.
  assert (Hs' : s = JStr "done").
  { vm_compute in Hs. by injection Hs. }
  subst s.
  pose proof (f_equal fst Hsched) as Hq. pose proof (f_equal snd Hsched) as Ht.
  cbn [fst snd] in Hq, Ht.
  split; [rewrite Hq | rewrite Ht]; vm_compute; reflexivity.
Defined.

(** ** meeting_intelligence.py: what the processing routine writes *)

Section ProcessMore.
Context {embedding : Type}.
Variable create_embeddings : list string -> exn (list embedding).
Variable distance : embedding -> embedding -> Z.
Variable download_transcript : json -> option string.
Variable chat_completion : string -> option string -> string -> exn string.
Variable store_accepts : output_row -> bool.
Variable py_str : json -> string.
Variable py_title : string -> string.
Variable valid_uuid : string -> bool.
Variable uuid4 : nat -> string.
Implicit Types st : @state embedding.

Local Abbreviation generate := (generate_content create_embeddings distance chat_completion).
Local Abbreviation generate_all :=
  (_generate_meeting_ai_content create_embeddings distance chat_completion py_str).
Local Abbreviation results :=
  (results_of create_embeddings distance chat_completion py_str).
Local Abbreviation store_all :=
  (_store_meeting_results store_accepts py_title valid_uuid uuid4).
Local Abbreviation store_one := (store_result store_accepts py_title valid_uuid uuid4).
Local Abbreviation process :=
  (_process_completed_meeting create_embeddings distance download_transcript
     chat_completion store_accepts py_str py_title valid_uuid uuid4).

(** A row as [_store_meeting_results] writes it for the meeting [m]. *)
Local Abbreviation row_of m row :=
  (out_id row = None /\
   out_context_used row = None /\
   out_meeting_id row = Some (meeting_id m) /\
   out_client_id row = Some (client_id m) /\
   out_sub_client_id row = sub_client_id m /\
   out_user_id row = user_id m /\
   out_title row = output_title py_title (out_type row) (meeting_title m) /\
   store_accepts row = true).

Local Ltac nothing_added :=
  exists []; rewrite app_nil_r; split; [done|]; split; [simpl; lia | constructor].

Lemma store_result_rows st m item :
  exists added,
    outputs (store_one st m item).1 = (outputs st ++ added)%list /\
    (List.length added <= 1)%nat /\
    Forall (fun row => row_of m row /\ kind_and_content row ∈ successes [item]) added.
Proof.
  unfold store_result, successes. cbn [omap list_omap].
  destruct item.2 as [g|e]; [|nothing_added].
  cbn [now fst snd]. unfold output_for.
  destruct (user_id m) as [user|] eqn:Hu; [|nothing_added].
  cbn. unfold create_output.
  match goal with |- context [store_accepts ?r] => destruct (store_accepts r) eqn:Hacc end.
  - eexists [_]. split; [reflexivity|]. split; [simpl; lia|].
    repeat constructor; done.
  - nothing_added.
Qed.

Lemma successes_cons item rest : successes (item :: rest) = (successes [item] ++ successes rest)%list.
Proof. unfold successes. cbn [omap list_omap]. by destruct item.2. Qed.

Lemma store_all_rows results : forall st m,
  exists added,
    outputs (store_all st m results) = (outputs st ++ added)%list /\
    (List.length added <= List.length results)%nat /\
    Forall (fun row => row_of m row /\ kind_and_content row ∈ successes results) added.
Proof.
  induction results as [|item rest IH]; intros st m.
  { nothing_added. }
  cbn [_store_meeting_results].
  destruct (store_result_rows st m item) as (a1 & H1 & L1 & F1).
  assert (F1' : Forall (fun row => row_of m row /\
                          kind_and_content row ∈ successes (item :: rest)) a1).
  { eapply Forall_impl; [exact F1|]. intros row [Hrow Hin]. split; [done|].
    rewrite successes_cons. apply elem_of_app. by left. }
  destruct (store_one st m item) as [st1 [[]|]]; cbn [fst] in *.
  - destruct (IH st1 m) as (a2 & H2 & L2 & F2).
    exists (a1 ++ a2)%list. rewrite H2, H1, <- app_assoc. split; [done|].
    split; [rewrite length_app; simpl; lia|].
    apply Forall_app. split; [done|].
    eapply Forall_impl; [exact F2|]. intros row [Hrow Hin]. split; [done|].
    rewrite successes_cons. apply elem_of_app. by right.
  - exists a1. split; [done|]. split; [simpl; lia | done].
Qed.

Lemma results_of_kinds st transcript_text client_context m :
  Forall (fun kc : string * string =>
            kc.1 ∈ ["summary"; "action_items"; "follow_up_email"])
         (successes (results st transcript_text client_context m)).
Proof.
  unfold results_of, successes. apply Forall_forall. intros kc Hin.
  apply list_elem_of_omap in Hin as (item & Hitem & Hkc).
  assert (Hkind : item.1 ∈ ["summary"; "action_items"; "follow_up_email"]).
  { apply elem_of_app in Hitem as [Hitem|Hitem].
    - apply elem_of_cons in Hitem as [->|Hitem]; [set_solver|].
      apply list_elem_of_singleton in Hitem as ->. set_solver.
    - destruct (attendees m); [by apply elem_of_nil in Hitem|].
      apply list_elem_of_singleton in Hitem as ->. set_solver. }
  destruct item.2; [|done]. by injection Hkc as <-.
Qed.

(** X20: whatever the provider, the completions and the store do, the
    routine only appends to the table of outputs, at most one row per
    artifact it asked for. Every row it adds went through
    [db_manager.create_output] (it has no identifier and no context of its
    own, so the direct insert kept as a fallback never runs), was taken by
    the store, belongs to the meeting, its organisation and its user, and is
    a summary, a list of action items or a follow-up email. *)
Theorem process_appends_meeting_rows st api id m :
  active_meetings st !! id = Some m ->
  exists added,
    outputs (process st api id) = (outputs st ++ added)%list /\
    (List.length added <= List.length (requested_types m))%nat /\
    Forall (fun row =>
              row_of m row /\
              out_type row ∈ ["summary"; "action_items"; "follow_up_email"]) added.
Proof.
  intros Hm.
  assert (Hnone : forall st', outputs st' = outputs st ->
            exists added, outputs st' = (outputs st ++ added)%list /\
              (List.length added <= List.length (requested_types m))%nat /\
              Forall (fun row => row_of m row /\
                        out_type row ∈ ["summary"; "action_items"; "follow_up_email"]) added).
  { intros st' ->. exists []. rewrite app_nil_r. split; [done|].
    split; [simpl; lia | constructor]. }
  destruct (get_download_urls (recall_service st) api (Some (bot_id m)))
    as [bot [urls|e]] eqn:Hurls.
  2:{ apply Hnone. unfold _process_completed_meeting. by rewrite Hm, Hurls. }
  destruct (acquire_transcript download_transcript urls) as [t|] eqn:Hacq.
  2:{ apply Hnone. unfold _process_completed_meeting. by rewrite Hm, Hurls, Hacq. }
  rewrite (process_with_transcript _ _ _ _ _ _ _ _ _ st api id m bot urls t Hm Hurls Hacq).
  cbv zeta.
  set (st0 := set_recall bot st).
  set (client_context := _get_client_context _ _ st0 _ _ _).
  pose proof (generate_all_spec create_embeddings distance chat_completion py_str
                st0 t client_context m) as (Hres & _ & Hout & _ & _).
  cbv zeta in Hres, Hout.
  set (gen := generate_all st0 t client_context m) in *.
  destruct (store_all_rows gen.2 gen.1 m) as (added & Hadd & Hlen & Hrows).
  exists added. cbn [outputs set_meetings now snd]. rewrite Hadd, Hout.
  split; [done|]. split.
  - rewrite Hres in Hlen. unfold results_of, requested_types in *.
    destruct (attendees m); simpl in *; lia.
  - eapply Forall_impl; [exact Hrows|]. intros row [Hrow Hin]. split; [done|].
    rewrite Hres in Hin.
    pose proof (results_of_kinds st0 t client_context m) as Hkinds.
    rewrite Forall_forall in Hkinds. exact (Hkinds _ Hin).
Qed.

Lemma process_frame st api id :
  let st' := process st api id in
  (active_meetings st' = active_meetings st \/
   exists t, active_meetings st' = alter (with_processed t) id (active_meetings st)) /\
  processing_queue st' = processing_queue st /\
  tasks st' = tasks st /\
  knowledge st' = knowledge st /\
  completions st `prefix_of` completions st'.
Proof.
  intros st'.
  assert (Hsame : forall st1 : @state embedding,
            active_meetings st1 = active_meetings st ->
            processing_queue st1 = processing_queue st ->
            tasks st1 = tasks st ->
            knowledge st1 = knowledge st ->
            completions st1 = completions st ->
            (active_meetings st1 = active_meetings st \/
             exists t, active_meetings st1
                       = alter (with_processed t) id (active_meetings st)) /\
            processing_queue st1 = processing_queue st /\
            tasks st1 = tasks st /\
            knowledge st1 = knowledge st /\
            completions st `prefix_of` completions st1).
  { intros st1 H1 H2 H3 H4 H5. rewrite H5. by repeat split; [left|..]. }
  subst st'.
  destruct (active_meetings st !! id) as [m|] eqn:Hm.
  2:{ unfold _process_completed_meeting. rewrite Hm. by apply Hsame. }
  destruct (get_download_urls (recall_service st) api (Some (bot_id m)))
    as [bot [urls|e]] eqn:Hurls.
  2:{ unfold _process_completed_meeting. rewrite Hm, Hurls. by apply Hsame. }
  destruct (acquire_transcript download_transcript urls) as [t|] eqn:Hacq.
  2:{ unfold _process_completed_meeting. rewrite Hm, Hurls, Hacq. by apply Hsame. }
  rewrite (process_with_transcript _ _ _ _ _ _ _ _ _ st api id m bot urls t Hm Hurls Hacq).
  cbv zeta.
  set (st0 := set_recall bot st).
  set (client_context := _get_client_context _ _ st0 _ _ _).
  pose proof (generate_all_spec create_embeddings distance chat_completion py_str
                st0 t client_context m) as (_ & (G1 & G2 & G3 & _ & G5) & _ & _ & Hcomp).
  cbv zeta in G1, G2, G3, G5, Hcomp.
  set (gen := generate_all st0 t client_context m) in *.
  pose proof (store_all_frame store_accepts py_title valid_uuid uuid4 gen.2 gen.1 m)
    as [(S1 & S2 & S3 & _ & S5) Scomp].
  cbn [active_meetings processing_queue tasks knowledge completions set_meetings now snd].
  split; [right; eexists; by rewrite S1, G1|].
  split; [by rewrite S2, G2|]. split; [by rewrite S3, G3|].
  split; [by rewrite S5, G5|].
  rewrite Scomp, Hcomp. by apply prefix_app_r.
Qed.

(** X21: the routine never removes a session, never touches another session,
    and leaves the queue, the tasks and the knowledge store as they are: a
    processed meeting stays registered and queued. The completion log only
    grows. *)
Theorem process_keeps_registry st api id :
  let st' := process st api id in
  (active_meetings st' = active_meetings st \/
   exists t, active_meetings st' = alter (with_processed t) id (active_meetings st)) /\
  (forall other, other <> id -> active_meetings st' !! other = active_meetings st !! other) /\
  (forall k, is_Some (active_meetings st' !! k) <-> is_Some (active_meetings st !! k)) /\
  processing_queue st' = processing_queue st /\
  tasks st' = tasks st /\
  knowledge st' = knowledge st /\
  completions st `prefix_of` completions st'.
Proof.
  intros st'. destruct (process_frame st api id) as (Hreg & Hq & Ht & Hk & Hc).
  fold st' in Hreg, Hq, Ht, Hk, Hc.
  split; [done|]. split; [|split; [|done]].
  - intros other Hne. destruct Hreg as [->|[t ->]]; [done|]. by rewrite lookup_alter_ne.
  - intros k. destruct Hreg as [->|[t ->]]; [done|].
    destruct (decide (k = id)) as [->|Hne].
    + rewrite lookup_alter_eq. rewrite fmap_is_Some. done.
    + by rewrite lookup_alter_ne.
Qed.

Lemma store_all_no_user results : forall st m,
  user_id m = None -> outputs (store_all st m results) = outputs st.
Proof.
  induction results as [|[kind [g|e]] rest IH]; intros st m Hu; [done|..].
  - cbn [_store_meeting_results]. unfold store_result, output_for.
    cbn [fst snd now]. by rewrite Hu.
  - cbn [_store_meeting_results]. unfold store_result. cbn. by apply IH.
Qed.

(** X22: a meeting started without a user is processed in full and leaves
    nothing behind: the transcript is acquired, every artifact is asked of
    the completion provider, no row is stored, and the session is marked
    processed all the same. *)
Theorem process_without_user_stores_nothing st api id m bot urls transcript_text :
  active_meetings st !! id = Some m ->
  user_id m = None ->
  get_download_urls (recall_service st) api (Some (bot_id m)) = (bot, Success urls) ->
  acquire_transcript download_transcript urls = Some transcript_text ->
  let st' := process st api id in
  completions st' = (completions st ++ requested_types m)%list /\
  outputs st' = outputs st /\
  processed <$> (active_meetings st' !! id) = Some true.
Proof.
  intros Hm Hu Hurls Hacq st'. subst st'.
  destruct (process_registry create_embeddings distance download_transcript
              chat_completion store_accepts py_str py_title valid_uuid uuid4 st api id m bot urls transcript_text
              Hm Hurls Hacq) as [time Hreg].
  rewrite Hreg, lookup_alter_eq, Hm.
  rewrite (process_with_transcript _ _ _ _ _ _ _ _ _ st api id m bot urls transcript_text
             Hm Hurls Hacq).
  cbv zeta.
  set (st0 := set_recall bot st).
  set (client_context := _get_client_context _ _ st0 _ _ _).
  pose proof (generate_all_spec create_embeddings distance chat_completion py_str
                st0 transcript_text client_context m) as (_ & _ & Hout & _ & Hcomp).
  cbv zeta in Hout, Hcomp.
  set (gen := generate_all st0 transcript_text client_context m) in *.
  pose proof (store_all_frame store_accepts py_title valid_uuid uuid4 gen.2 gen.1 m)
    as [_ Scomp].
  cbn [completions outputs set_meetings now snd].
  rewrite Scomp, Hcomp, (store_all_no_user gen.2 gen.1 m Hu), Hout. done.
Qed.

(** X23: from the start to the end of a meeting: a recording started with
    the bot the provider created, a monitor that leaves on one of the
    statuses done, completed, finished, and a processing routine that
    acquires a transcript leave the session with the data given at the
    start, the status polled last and marked processed; the session has been
    queued once, and one monitoring and one processing task have been
    created. *)
Theorem recorded_meeting_is_processed st bot meeting_url id client sub user
    attendees title (polls : list provider) api st2 s b urls transcript_text :
  let st1 := (start_meeting_recording st (Success bot) meeting_url id client sub user
                attendees title).1 in
  _monitor_meeting_completion polls st1 id = (st2, Exited) ->
  status <$> (active_meetings st2 !! id) = Some s ->
  str_in s ["done"; "completed"; "finished"] = true ->
  get_download_urls (recall_service st2) api (Some bot) = (b, Success urls) ->
  acquire_transcript download_transcript urls = Some transcript_text ->
  let st3 := process st2 api id in
  (exists t, active_meetings st3 !! id
             = Some (mkMeeting id bot meeting_url client sub user attendees title
                       s (clock st) true (Some t))) /\
  processing_queue st3 = (processing_queue st ++ [id])%list /\
  tasks st3 = (tasks st ++ [MonitorTask id; ProcessTask id])%list.
Proof.
  intros st1 Hmon Hs Hdone Hurls Hacq st3.
  set (m0 := mkMeeting id bot meeting_url client sub user attendees title
               (JStr "recording") (clock st) false None).
  assert (Hm1 : active_meetings st1 !! id = Some m0).
  { subst st1. cbn. by rewrite lookup_insert_eq. }
  assert (Hm0 : active_meetings st1 !! id = Some (with_status (status m0) m0)) by done.
  unfold _monitor_meeting_completion in Hmon. rewrite Hm1 in Hmon.
  pose proof (monitor_loop_schedule polls st1 id m0 (status m0) Hm0) as Hloop.
  cbv zeta in Hloop. rewrite Hmon in Hloop. cbn [fst snd] in Hloop.
  destruct Hloop as (s' & Hm2 & _ & Hexit).
  rewrite Hm2 in Hs. injection Hs as ->. specialize (Hexit eq_refl).
  rewrite Hdone in Hexit. destruct Hexit as [Hq Ht].
  assert (Hurls' : get_download_urls (recall_service st2) api
                     (Some (bot_id (with_status s m0))) = (b, Success urls)) by done.
  destruct (process_registry create_embeddings distance download_transcript
              chat_completion store_accepts py_str py_title valid_uuid uuid4
              st2 api id (with_status s m0) b urls transcript_text Hm2 Hurls' Hacq)
    as [t Hreg].
  destruct (process_frame st2 api id) as (_ & Hq' & Ht' & _).
  subst st3. split; [|split].
  - exists t. by rewrite Hreg, lookup_alter_eq, Hm2.
  - by rewrite Hq', Hq.
  - rewrite Ht', Ht. subst st1. cbn. by rewrite <- app_assoc.
Qed.

End ProcessMore.

Lemma recorded_meeting_is_processed_witness :
  let st1 := started_service ["ann@example.com"] in
  let st2 := (_monitor_meeting_completion [fun _ => Ok recorded_job] st1 "m1").1 in
  let st3 := sample_process sample_download email_fails st2 (fun _ => Ok recorded_job) "m1" in
  (exists t, active_meetings st3 !! "m1"
             = Some (mkMeeting "m1" "b1" "https://meet.example/abc" "acme" None (Some "u1")
                       ["ann@example.com"] "Standup" (JStr "done") 0 true (Some t))) /\
  processing_queue st3 = ["m1"] /\
  tasks st3 = [MonitorTask "m1"; ProcessTask "m1"].
Proof.
  intros st1 st2 st3.
  eapply (recorded_meeting_is_processed unit_embeddings (fun _ _ => 0) sample_download
            email_fails accept_all plain_str (fun s => s) (fun _ => true)
            (fun n => "00000000-0000-4000-8000-" ++ pretty n)
            idle_service "b1" "https://meet.example/abc" "m1" "acme" None (Some "u1")
            ["ann@example.com"] "Standup" [fun _ => Ok recorded_job]
            (fun _ => Ok recorded_job) st2 (JStr "done")).
  - reflexivity.
  - vm_compute. reflexivity.
  - reflexivity.
  - reflexivity.
  - reflexivity.
Defined.

Lemma process_appends_meeting_rows_witness :
  let st := started_service ["ann@example.com"] in
  exists added,
    outputs (sample_process sample_download email_fails st (fun _ => Ok recorded_job) "m1")
    = (outputs st ++ added)%list /\
    (List.length added <= 3)%nat.
Proof.
  intros st.
  destruct (process_appends_meeting_rows unit_embeddings (fun _ _ => 0) sample_download
              email_fails accept_all plain_str (fun s => s) (fun _ => true)
              (fun n => "00000000-0000-4000-8000-" ++ pretty n)
              st (fun _ => Ok recorded_job) "m1" (standup ["ann@example.com"])
              (started_service_registers ["ann@example.com"]))
    as (added & Hadd & Hlen & _).
  exists added. split; [exact Hadd | exact Hlen].
Defined.

Lemma process_without_user_stores_nothing_witness :
  let st' := sample_process sample_download email_fails anonymous_service
               (fun _ => Ok recorded_job) "m1" in
  completions st' = (completions anonymous_service ++ requested_types anonymous_standup)%list /\
  outputs st' = outputs anonymous_service /\
  processed <$> (active_meetings st' !! "m1") = Some true.
Proof.
  eapply (process_without_user_stores_nothing unit_embeddings (fun _ _ => 0) sample_download
            email_fails accept_all plain_str (fun s => s) (fun _ => true)
            (fun n => "00000000-0000-4000-8000-" ++ pretty n)
            anonymous_service (fun _ => Ok recorded_job) "m1" anonymous_standup).
  - unfold anonymous_service. simpl. by rewrite lookup_insert_eq.
  - reflexivity.
  - reflexivity.
  - reflexivity.
Defined.

(** ** meeting_intelligence.py: the scan of the job data *)

Lemma scan_recordings_raise (before : list json) : forall bad after,
  Forall (fun r => scan_recording r = Ok None) before ->
  scan_recording bad = Raise ->
  scan_recordings (before ++ bad :: after) = Raise.
Proof.
  induction before as [|r before IH]; intros bad after Hbefore Hbad.
  - cbn [app scan_recordings]. by rewrite Hbad.
  - apply Forall_cons_1 in Hbefore as [Hr Hbefore].
    cbn [app scan_recordings]. rewrite Hr. cbn. by apply IH.
Qed.

(** X24: a recording the scan cannot read ends it: when no recording before
    it has a transcript the result is none, whatever the recordings after it
    hold. *)
Theorem malformed_recording_ends_scan bot_data before bad after :
  py_get bot_data "recordings" (JList []) = Ok (JList (before ++ bad :: after)) ->
  Forall (fun r => scan_recording r = Ok None) before ->
  scan_recording bad = Raise ->
  _extract_transcript_from_bot_data bot_data = JNull.
Proof.
  intros Hrecs Hbefore Hbad. unfold _extract_transcript_from_bot_data.
  rewrite Hrecs. cbn. by rewrite (scan_recordings_raise before bad after).
Qed.

Lemma malformed_recording_ends_scan_witness :
  _extract_transcript_from_bot_data
    (JDict [("recordings",
             JList [JDict []; JStr "oops"; JDict [("transcript", JStr "hello world")]])])
  = JNull.
Proof.
  apply (malformed_recording_ends_scan _ [JDict []] (JStr "oops")
           [JDict [("transcript", JStr "hello world")]]).
  - reflexivity.
  - repeat constructor.
  - reflexivity.
Defined.

(** ** ai_service.py: the context reported with a generated text *)

Lemma length_substring_0 (n : nat) : forall s : string,
  String.length (String.substring 0 n s) = Nat.min n (String.length s).
Proof.
  induction n as [|n IH]; intros [|c s]; simpl; try done. by rewrite IH.
Qed.

Lemma string_length_app (s r : string) :
  String.length (s ++ r) = (String.length s + String.length r)%nat.
Proof.
  induction s as [|c s IH]; [by rewrite append_nil|].
  rewrite append_cons. simpl. by rewrite IH.
Qed.

Lemma truncate500_length (s : string) :
  (String.length (truncate500 s) <= 503)%nat /\
  ((String.length s <= 500)%nat -> truncate500 s = s).
Proof.
  unfold truncate500. destruct (Nat.ltb_spec 500 (String.length s)) as [Hlong|Hshort].
  - split; [|lia]. rewrite string_length_app, length_substring_0.
    change (String.length "...") with 3%nat. lia.
  - split; [lia | done].
Qed.

Section GenerateMore.
Context {embedding : Type}.
Variable create_embeddings : list string -> exn (list embedding).
Variable distance : embedding -> embedding -> Z.
Variable chat_completion : string -> option string -> string -> exn string.
Implicit Types st : @state embedding.

(** X25: [generate_content] asks the completion provider once, whatever the
    knowledge store holds and whether or not the search finds anything; it
    succeeds exactly when the provider answers, with the provider's text,
    and the context it reports has at most 503 characters. *)
Theorem generate_content_asks_once st prompt content_type client sub recipient :
  let out := generate_content create_embeddings distance chat_completion st prompt
               content_type client sub recipient in
  completions out.1 = (completions st ++ [content_type])%list /\
  outputs out.1 = outputs st /\
  knowledge out.1 = knowledge st /\
  match out.2 with
  | Success g =>
      (exists message, chat_completion content_type recipient message = Ok (content g)) /\
      (String.length (context_used g) <= 503)%nat
  | Failure _ => exists message, chat_completion content_type recipient message = Raise
  end.
Proof.
  unfold generate_content.
  match goal with |- context [chat_completion content_type recipient ?msg] =>
    set (message := msg) end.
  destruct (chat_completion content_type recipient message) as [text|] eqn:Hc; cbn.
  - repeat split; [by exists message | apply truncate500_length].
  - repeat split. by exists message.
Qed.

End GenerateMore.

(** ** file_processor.py: from an upload to the knowledge store *)

Lemma lower_char_idem (c : ascii) : lower_char (lower_char c) = lower_char c.
Proof. destruct c as [[] [] [] [] [] [] [] []]; reflexivity. Qed.

Lemma lower_idem (s : string) : lower (lower s) = lower s.
Proof. induction s as [|c s IH]; simpl; [done|]. by rewrite lower_char_idem, IH. Qed.

Lemma length_list_ascii_of_string (s : string) :
  List.length (list_ascii_of_string s) = String.length s.
Proof. induction s as [|c s IH]; simpl; [done|]. by rewrite IH. Qed.

(** The default fuel of [chunk_text_default] is enough. *)
Lemma chunk_text_default_chunks (extracted_text : string) :
  exists chunks,
    chunk_text (S (String.length extracted_text))
      (list_ascii_of_string extracted_text) 1000 200 = Some chunks /\
    chunk_text_default extracted_text = string_of_list_ascii <$> chunks.
Proof.
  destruct (chunk_text_enough_fuel (list_ascii_of_string extracted_text) 1000 200
              ltac:(lia) ltac:(lia) (S (String.length extracted_text))) as [chunks Hc].
  { rewrite length_list_ascii_of_string. lia. }
  exists chunks. split; [done|]. unfold chunk_text_default. by rewrite Hc.
Qed.

Lemma list_ascii_of_string_of_list_ascii (l : list ascii) :
  list_ascii_of_string (string_of_list_ascii l) = l.
Proof. induction l as [|c l IH]; simpl; [done|]. by rewrite IH. Qed.

(** A stripped text that is not empty starts with a visible character. *)
Lemma strip_string_visible (raw : string) :
  strip_string raw <> "" ->
  exists c, c ∈ list_ascii_of_string (strip_string raw) /\ isspace c = false.
Proof.
  unfold strip_string. rewrite list_ascii_of_string_of_list_ascii.
  destruct (strip (list_ascii_of_string raw)) as [|c l] eqn:Hs; [done|]. intros _.
  exists c. split; [apply list_elem_of_here|].
  apply (strip_head (list_ascii_of_string raw)). by rewrite Hs.
Qed.

(** A text with a visible character has a chunk. *)
Lemma chunk_text_default_visible (extracted_text : string) (c : ascii) :
  c ∈ list_ascii_of_string extracted_text -> isspace c = false ->
  chunk_text_default extracted_text <> [].
Proof.
  intros Hin Hc.
  destruct (chunk_text_default_chunks extracted_text) as (chunks & Hrun & ->).
  set (t := list_ascii_of_string extracted_text) in *.
  assert (Hchunk : exists chunk, chunk ∈ chunks).
  { unfold chunk_text in Hrun.
    destruct (negb (nonempty t) || (len t <? 1000)).
    - injection Hrun as <-. destruct t; [by apply elem_of_nil in Hin|].
      eexists. apply list_elem_of_here.
    - rewrite (chunk_loop_windows t 1000 200) in Hrun.
      destruct (window_loop (S (String.length extracted_text)) t 1000 200 0) as [ws|] eqn:Hw;
        [|discriminate].
      injection Hrun as <-.
      destruct (kept_windows_visible t 1000 200 ltac:(lia) ltac:(lia) _ ws c Hw Hin Hc)
        as (chunk & Hchunk & _).
      by exists chunk. }
  destruct Hchunk as [chunk Hchunk]. by destruct chunks; [apply elem_of_nil in Hchunk|].
Qed.

Section IngestFacts.
Context {embedding : Type}.
Variable create_embeddings : list string -> exn (list embedding).
Variable suffix : string -> string.
Variable pdf_pages : string -> exn (list string).
Variable docx_paragraphs : string -> exn (list string).
Variable image_to_string : string -> exn string.
Variable read_txt : string -> exn string.
Variable save_uploaded_file : string -> string -> exn string.
Implicit Types db : gmap string (list (stored_chunk embedding)).

Local Abbreviation table :=
  (extractors pdf_pages docx_paragraphs image_to_string read_txt).
Local Abbreviation extract :=
  (extract_text_from_file pdf_pages docx_paragraphs image_to_string read_txt).
Local Abbreviation ingest :=
  (process_and_store_file create_embeddings suffix pdf_pages docx_paragraphs
     image_to_string read_txt save_uploaded_file).

Lemma extractor_for_allowed (key : string) :
  match extractor_for table key with
  | Some f => key ∈ allowed_file_types /\
              f ∈ [extract_text_from_pdf pdf_pages; extract_text_from_docx docx_paragraphs;
                   extract_text_from_txt read_txt; extract_text_from_image image_to_string]
  | None => key ∉ allowed_file_types
  end.
Proof.
  unfold extractors, allowed_file_types. cbn [extractor_for].
  repeat (match goal with
          | |- context [String.eqb ?k key] => destruct (String.eqb_spec k key) as [<-|?]
          end;
          [split; repeat first [apply list_elem_of_here | apply list_elem_of_further]|]).
  intros Hin.
  repeat (apply elem_of_cons in Hin as [->|Hin]; [done|]).
  by apply elem_of_nil in Hin.
Qed.

(** X26: the file types [validate_file_type] accepts are those
    [extract_text_from_file] has an extractor for: for an accepted file one
    of the four extractors is run on the path, for a refused one no
    extractor is run and the text is empty. Upper and lower case make no
    difference to either. *)
Theorem validate_file_type_matches_extractors (filename file_path : string) :
  if validate_file_type suffix filename
  then exists f,
         f ∈ [extract_text_from_pdf pdf_pages; extract_text_from_docx docx_paragraphs;
              extract_text_from_txt read_txt; extract_text_from_image image_to_string] /\
         extract file_path (suffix filename) = f file_path /\
         extract file_path (lower (suffix filename)) = f file_path
  else extract file_path (suffix filename) = "" /\
       extract file_path (lower (suffix filename)) = "".
Proof.
  unfold validate_file_type, extract_text_from_file. rewrite lower_idem.
  pose proof (extractor_for_allowed (lower (suffix filename))) as H.
  destruct (extractor_for table (lower (suffix filename))) as [f|].
  - destruct H as [Hin Hf]. rewrite bool_decide_eq_true_2 by done. by exists f.
  - by rewrite bool_decide_eq_false_2.
Qed.

(** What [extract_text_from_file] returns is empty or stripped. *)
Lemma extract_text_from_file_stripped (file_path file_type : string) :
  extract file_path file_type = "" \/
  exists raw, extract file_path file_type = strip_string raw.
Proof.
  unfold extract_text_from_file.
  pose proof (extractor_for_allowed (lower file_type)) as H.
  destruct (extractor_for table (lower file_type)) as [f|]; [|by left].
  destruct H as [_ Hf].
  repeat (apply elem_of_cons in Hf as [->|Hf]).
  - unfold extract_text_from_pdf. destruct (pdf_pages file_path); eauto.
  - unfold extract_text_from_docx. destruct (docx_paragraphs file_path); eauto.
  - unfold extract_text_from_txt. destruct (read_txt file_path); eauto.
  - unfold extract_text_from_image. destruct (image_to_string file_path); eauto.
  - by apply elem_of_nil in Hf.
Qed.

Lemma store_document_chunks_total db client_id file_id filename text_chunks sub_client_id
    db' n :
  store_document_chunks create_embeddings db client_id file_id filename text_chunks
    sub_client_id = (db', Ok n) ->
  fresh_file (default [] (db !! get_collection_name client_id sub_client_id)) file_id ->
  total_chunks (get_client_knowledge_stats db' client_id sub_client_id)
  = (total_chunks (get_client_knowledge_stats db client_id sub_client_id) + n)%nat.
Proof.
  intros Hstore Hfresh.
  destruct (store_document_chunks_Ok _ _ _ _ _ _ _ _ _ Hstore)
    as (sub & es & -> & He & Hlen & Hne & ->).
  rewrite (store_document_chunks_success _ _ _ _ _ _ _ _ He Hlen Hne) in Hstore.
  cbv zeta in Hstore. rewrite (taken_fresh _ _ _ _ _ _ Hfresh) in Hstore.
  injection Hstore as <-.
  unfold get_client_knowledge_stats. rewrite lookup_insert_eq. cbn [total_chunks].
  rewrite length_app, length_imap, length_zip_with_l_eq by lia.
  by destruct (db !! get_collection_name client_id (Some sub)).
Qed.

(** X27: an ingestion that succeeds was made for a sub-unit, saved the
    file, extracted a text that is not empty and cut it into at least one
    chunk: the number it reports is the number of chunks, and when the file
    is new to the collection of the scope the collection has grown by that
    number. *)
Theorem ingest_stores_every_chunk db filename client_id file_id sub_client_id
    db' extracted_text chunks_stored file_path text_length :
  process_and_store_file create_embeddings suffix pdf_pages docx_paragraphs
    image_to_string read_txt save_uploaded_file db filename client_id file_id
    sub_client_id
    = (db', Ingested extracted_text chunks_stored file_path text_length) ->
  (exists sub, sub_client_id = Some sub) /\
  save_uploaded_file filename client_id = Ok file_path /\
  extracted_text = extract file_path (lower (suffix filename)) /\
  extracted_text <> "" /\
  text_length = String.length extracted_text /\
  chunks_stored = List.length (chunk_text_default extracted_text) /\
  (0 < chunks_stored)%nat /\
  (fresh_file (default [] (db !! get_collection_name client_id sub_client_id)) file_id ->
   total_chunks (get_client_knowledge_stats db' client_id sub_client_id)
   = (total_chunks (get_client_knowledge_stats db client_id sub_client_id)
      + chunks_stored)%nat).
Proof.
  unfold process_and_store_file.
  destruct (save_uploaded_file filename client_id) as [path|]; [|discriminate].
  set (text := extract path (lower (suffix filename))).
  destruct (String.eqb_spec text "") as [|Hne]; [discriminate|].
  destruct (chunk_text_default text) as [|chunk rest] eqn:Hchunks; [discriminate|].
  destruct (store_document_chunks create_embeddings db client_id file_id filename
              (chunk :: rest) sub_client_id) as [db1 [n|]] eqn:Hstore; [|discriminate].
  intros [= <- <- <- <- <-].
  pose proof (store_document_chunks_total _ _ _ _ _ _ _ _ Hstore) as Htotal.
  destruct (store_document_chunks_Ok _ _ _ _ _ _ _ _ _ Hstore)
    as (sub & es & Hsub & He & Hlen & _ & ->).
  split; [by exists sub|].
  repeat split; try done; [by rewrite Hchunks | simpl; lia].
Qed.

(** X28: the failure [No text chunks created] never happens: what the
    extractors return is stripped, so a text that is not empty has a visible
    character, and [chunk_text] keeps it in a chunk. *)
Theorem ingest_never_without_chunks db filename client_id file_id sub_client_id
    db' extracted_text :
  process_and_store_file create_embeddings suffix pdf_pages docx_paragraphs
    image_to_string read_txt save_uploaded_file db filename client_id file_id
    sub_client_id
  <> (db', IngestFailed "No text chunks created" extracted_text).
Proof.
  unfold process_and_store_file.
  destruct (save_uploaded_file filename client_id) as [path|]; [|intros H; discriminate H].
  set (text := extract path (lower (suffix filename))).
  destruct (String.eqb_spec text "") as [|Hne]; [intros H; discriminate H|].
  destruct (extract_text_from_file_stripped path (lower (suffix filename)))
    as [Hempty | [raw Hraw]]; [done|].
  fold text in Hraw.
  assert (Hchunks : chunk_text_default text <> []).
  { rewrite Hraw in Hne. destruct (strip_string_visible raw Hne) as (c & Hin & Hc).
    rewrite Hraw. by apply (chunk_text_default_visible _ c). }
  destruct (chunk_text_default text) as [|chunk rest]; [done|].
  destruct (store_document_chunks _ _ _ _ _ _ _) as [db1 [n|]]; intros H; discriminate H.
Qed.

(** X29: an ingestion that fails, at whatever step, changes the result of no
    search. *)
Theorem failed_ingest_changes_no_search (embed_query : list string -> exn (list embedding))
    (distance : embedding -> embedding -> Z)
    db filename client_id file_id sub_client_id query client_id' sub_client_id' n :
  let out := ingest db filename client_id file_id sub_client_id in
  (forall t k p l, out.2 <> Ingested t k p l) ->
  search_knowledge_base embed_query distance out.1 query client_id' sub_client_id' n
  = search_knowledge_base embed_query distance db query client_id' sub_client_id' n.
Proof.
  unfold process_and_store_file.
  destruct (save_uploaded_file filename client_id) as [path|]; [|done].
  set (text := extract path (lower (suffix filename))).
  destruct (String.eqb text ""); [done|].
  destruct (chunk_text_default text) as [|chunk rest]; [done|].
  destruct (store_document_chunks create_embeddings db client_id file_id filename
              (chunk :: rest) sub_client_id) as [db1 [k|]] eqn:Hstore.
  { intros Hnot. by destruct (Hnot text k path (String.length text)). }
  intros _. cbn [fst].
  pose proof (store_document_chunks_raise create_embeddings db client_id file_id filename
                (chunk :: rest) sub_client_id) as Hraise.
  rewrite Hstore in Hraise. cbn [fst snd] in Hraise.
  destruct (Hraise eq_refl) as [-> | ->]; [done|].
  apply search_knowledge_base_created.
Qed.

End IngestFacts.

Lemma ingest_stores_every_chunk_witness :
  let out := sample_ingest unit_embeddings "  Quarterly plan.  " notes_store in
  out.2 = Ingested "Quarterly plan." 1 "uploads/acme/notes.TXT" 15 /\
  total_chunks (get_client_knowledge_stats out.1 "acme" (Some "legal"))
  = (total_chunks (get_client_knowledge_stats notes_store "acme" (Some "legal")) + 1)%nat.
Proof.
  intros out. split; [reflexivity|].
  apply (ingest_stores_every_chunk unit_embeddings sample_suffix
           (fun _ => Raise) (fun _ => Raise) (fun _ => Raise)
           (fun _ => Ok "  Quarterly plan.  ") sample_save
           notes_store "notes.TXT" "acme" "f3" (Some "legal") out.1 "Quarterly plan." 1
           "uploads/acme/notes.TXT" 15).
  - reflexivity.
  - vm_compute default. repeat constructor; intros i H;
      rewrite !append_cons in H; discriminate H.
Defined.

Lemma failed_ingest_changes_no_search_witness :
  search_knowledge_base unit_embeddings (fun _ _ => 0)
    (sample_ingest failing_embeddings "Quarterly plan." notes_store).1
    "plan" "acme" (Some "legal") 5
  = search_knowledge_base unit_embeddings (fun _ _ => 0) notes_store "plan" "acme"
      (Some "legal") 5.
Proof.
  apply (failed_ingest_changes_no_search failing_embeddings sample_suffix
           (fun _ => Raise) (fun _ => Raise) (fun _ => Raise)
           (fun _ => Ok "Quarterly plan.") sample_save
           unit_embeddings (fun _ _ => 0) notes_store "notes.TXT" "acme" "f3"
           (Some "legal")).
  intros t k p l H. vm_compute in H. discriminate H.
Defined.
